(** * Psiphon tunnel core: ranked server-entry store and candidate iterator

    A shallow embedding of [psiphon/serverEntry.go] and of the BoltDB data
    store [psiphon/dataStore_alt.go], with the properties of the server
    selection layer stated and settled against it.

    Go values are modelled as follows.  A Go [string] and a [[]byte] are
    both a Rocq [string] (a sequence of 8-bit characters); a Go [int] is a
    [Z]; a slice is a [list]; a function returning [(T, error)] returns a
    [result T], one returning only [error] an [option error].  The process
    state (the singleton data store, the notice sink and the global random
    source) is threaded explicitly through a state monad whose outcomes are
    a normal return or a Go panic. *)

From Stdlib Require Import String Ascii List ZArith NArith Lia Bool Arith DecimalString.
From Stdlib Require Import Permutation.
Import ListNotations.

Open Scope string_scope.
Open Scope Z_scope.

Set Implicit Arguments.

(** ** Go runtime: errors, results, panics *)

Definition bytes := string.

(** Error values.  [hex_ErrLength] and [hex_InvalidByteError] are the two
    errors of [encoding/hex]; [jsonError] stands for the errors of
    [encoding/json] and [boltError] for those of the key-value engine. *)
Inductive error : Type :=
| errorsNew (msg : string)
| fmtErrorf (msg : string)
| hex_ErrLength
| hex_InvalidByteError (c : ascii)
| jsonError (msg : string)
| boltError (msg : string)
| ContextErrorAt (site : string) (cause : error).

(** Modelled from the spec: [ContextError] (utils.go is not among the
    sources) wraps an error "with call-site context"; the context is the
    name of the calling function. *)
Definition ContextError (site : string) (err : error) : error :=
  ContextErrorAt site err.

(** The [Error()] string of an error value. *)
Fixpoint error_string (err : error) : string :=
  match err with
  | errorsNew msg => msg
  | fmtErrorf msg => msg
  | hex_ErrLength => "encoding/hex: odd length hex string"
  | hex_InvalidByteError c => "encoding/hex: invalid byte: " ++ String c ""
  | jsonError msg => msg
  | boltError msg => msg
  | ContextErrorAt site cause => site ++ ": " ++ error_string cause
  end.

Inductive result (A : Type) : Type :=
| Ok (a : A)
| Err (e : error).
Arguments Ok {A} a.
Arguments Err {A} e.

Inductive Outcome (S A : Type) : Type :=
| Done (a : A) (s : S)
| Panicked (msg : string).
Arguments Done {S A} a s.
Arguments Panicked {S A} msg.

(** State monad with panics over a state [S]. *)
Definition M (S A : Type) : Type := S -> Outcome S A.

Definition ret {S A : Type} (a : A) : M S A := fun s => Done a s.

Definition bind {S A B : Type} (m : M S A) (k : A -> M S B) : M S B :=
  fun s =>
    match m s with
    | Done a s' => k a s'
    | Panicked msg => Panicked msg
    end.

Definition panic {S A : Type} (msg : string) : M S A := fun _ => Panicked msg.

Definition get {S : Type} : M S S := fun s => Done s s.

Declare Scope go_scope.
Delimit Scope go_scope with go.
Notation "x <- c1 ;; c2" := (bind c1 (fun x => c2))
  (at level 100, c1 at next level, right associativity) : go_scope.
Notation "c1 ;;; c2" := (bind c1 (fun _ => c2))
  (at level 100, right associativity) : go_scope.
Open Scope go_scope.

(** ** Go standard library: strings, bytes, hex *)

(** [strings.HasSuffix]. *)
Definition strings_HasSuffix (s suffix : string) : bool :=
  (String.length suffix <=? String.length s)%nat &&
  String.eqb
    (substring (String.length s - String.length suffix) (String.length suffix) s)
    suffix.

(** [strings.TrimSuffix]. *)
Definition strings_TrimSuffix (s suffix : string) : string :=
  if strings_HasSuffix s suffix
  then substring 0 (String.length s - String.length suffix) s
  else s.

(** [strings.Split(s, sep)] for a one-character separator. *)
Fixpoint strings_Split (s : string) (sep : ascii) : list string :=
  match s with
  | EmptyString => [EmptyString]
  | String a s' =>
      if Ascii.eqb a sep then EmptyString :: strings_Split s' sep
      else match strings_Split s' sep with
           | x :: xs => String a x :: xs
           | [] => [String a EmptyString]
           end
  end.

(** [bytes.SplitN(s, sep, n)] for a one-character separator: at most [n]
    pieces, the last one being the unsplit remainder. *)
Fixpoint bytes_SplitN (s : bytes) (sep : ascii) (n : nat) {struct s} : list bytes :=
  match n with
  | O => []
  | S O => [s]
  | S (S _ as n') =>
      match s with
      | EmptyString => [EmptyString]
      | String a s' =>
          if Ascii.eqb a sep then EmptyString :: bytes_SplitN s' sep n'
          else match bytes_SplitN s' sep n with
               | x :: xs => String a x :: xs
               | [] => [String a EmptyString]
               end
      end
  end.

(** [fromHexChar] of [encoding/hex]. *)
Definition fromHexChar (c : ascii) : option N :=
  let n := N_of_ascii c in
  if ((48 <=? n) && (n <=? 57))%N then Some (n - 48)%N
  else if ((97 <=? n) && (n <=? 102))%N then Some (n - 97 + 10)%N
  else if ((65 <=? n) && (n <=? 70))%N then Some (n - 65 + 10)%N
  else None.

Fixpoint hex_Decode (src : string) : result bytes :=
  match src with
  | EmptyString => Ok EmptyString
  | String _ EmptyString => Err hex_ErrLength
  | String a (String b rest) =>
      match fromHexChar a with
      | None => Err (hex_InvalidByteError a)
      | Some hi =>
          match fromHexChar b with
          | None => Err (hex_InvalidByteError b)
          | Some lo =>
              match hex_Decode rest with
              | Ok dst => Ok (String (ascii_of_N (hi * 16 + lo)) dst)
              | Err e => Err e
              end
          end
      end
  end.

(** [hex.DecodeString]: the length is checked before any digit. *)
Definition hex_DecodeString (s : string) : result bytes :=
  if Nat.odd (String.length s) then Err hex_ErrLength else hex_Decode s.

(** Modelled from the spec: [Contains] (utils.go is not among the
    sources); "an entry matches if its capability set contains that
    capability". *)
Fixpoint Contains (list : list string) (target : string) : bool :=
  match list with
  | [] => false
  | listItem :: rest => if String.eqb listItem target then true else Contains rest target
  end.

(** ** The global random source of [math/rand] *)

(** The source is a tape of raw draws and a read position; [rand.Intn n]
    reduces the next draw into [[0, n)] and panics when [n <= 0]. *)
Record Rand : Type := mkRand {
  draws : nat -> Z;
  cursor : nat
}.

Definition rand_Intn (n : Z) : M Rand Z :=
  fun r =>
    if n <=? 0 then Panicked "invalid argument to Intn"
    else Done (draws r (cursor r) mod n) (mkRand (draws r) (S (cursor r))).

(** ** Notices *)

(** Modelled from the spec: the notice functions (notice.go is not among
    the sources) are "a one-way observability sink"; a notice is recorded
    with its kind and its formatted arguments. *)
Inductive Notice : Type :=
| NoticeInfoMsg (msg : string)
| NoticeAlertMsg (msg : string)
| NoticeCandidateServersMsg (region protocol : string) (count : Z).

(** ** The key-value engine (github.com/Psiphon-Inc/bolt) *)

(** A bucket keeps its keys in ascending byte order. *)
Definition Bucket : Type := list (bytes * bytes).

Fixpoint bucket_Get (b : Bucket) (key : bytes) : option bytes :=
  match b with
  | [] => None
  | (k, v) :: b' => if String.eqb k key then Some v else bucket_Get b' key
  end.

Fixpoint bucket_insert (b : Bucket) (key value : bytes) : Bucket :=
  match b with
  | [] => [(key, value)]
  | (k, v) :: b' =>
      match String.compare key k with
      | Lt => (key, value) :: b
      | Eq => (key, value) :: b'
      | Gt => (k, v) :: bucket_insert b' key value
      end
  end.

(** Keys in the order [cursor.Last(); cursor.Prev(); ...] visits them. *)
Definition bucket_keys_descending (b : Bucket) : list bytes := rev (map fst b).

(** What the engine does when asked to begin a transaction, to write a
    key, or to commit: [None] is success, [Some e] the failure [e]. *)
Record Engine : Type := mkEngine {
  beginView : option error;
  beginUpdate : option error;
  putFault : string -> bytes -> option error;
  commitFault : option error
}.

(** The buckets [InitDataStore] creates before it sets [singleton.db]. *)
Record boltDB : Type := mkDB {
  serverEntries : Bucket;
  rankedServerEntries : Bucket;
  splitTunnelRouteETags : Bucket;
  splitTunnelRouteData : Bucket;
  urlETags : Bucket;
  keyValues : Bucket
}.

Definition set_serverEntries (db : boltDB) (b : Bucket) : boltDB :=
  mkDB b (rankedServerEntries db) (splitTunnelRouteETags db)
       (splitTunnelRouteData db) (urlETags db) (keyValues db).

Definition set_rankedServerEntries (db : boltDB) (b : Bucket) : boltDB :=
  mkDB (serverEntries db) b (splitTunnelRouteETags db)
       (splitTunnelRouteData db) (urlETags db) (keyValues db).

(** A transaction works on a copy of the buckets under the engine's
    fault plan. *)
Record Tx : Type := mkTx {
  tx_db : boltDB;
  tx_engine : Engine
}.

(** ** The process state *)

Record World : Type := mkWorld {
  singleton_db : option boltDB;
  engine : Engine;
  notices : list Notice;
  globalRand : Rand
}.

Definition set_db (w : World) (db : boltDB) : World :=
  mkWorld (Some db) (engine w) (notices w) (globalRand w).

(** Modelled from the spec: emitting a notice appends it to the sink. *)
Definition emit (n : Notice) : M World unit :=
  fun w => Done tt (mkWorld (singleton_db w) (engine w) (notices w ++ [n])%list (globalRand w)).

Definition NoticeInfo (msg : string) : M World unit := emit (NoticeInfoMsg msg).
Definition NoticeAlert (msg : string) : M World unit := emit (NoticeAlertMsg msg).
Definition NoticeCandidateServers (region protocol : string) (count : Z) : M World unit :=
  emit (NoticeCandidateServersMsg region protocol count).

(** A computation on the global random source, run in the process. *)
Definition withGlobalRand {A : Type} (m : M Rand A) : M World A :=
  fun w =>
    match m (globalRand w) with
    | Done a r => Done a (mkWorld (singleton_db w) (engine w) (notices w) r)
    | Panicked msg => Panicked msg
    end.

(** [db.View(fn)]: a read-only transaction; nothing [fn] does is kept. *)
Definition db_View {A : Type} (fn : M Tx (result A)) : M World (result A) :=
  fun w =>
    match singleton_db w with
    | None => Panicked "nil pointer dereference"
    | Some db =>
        match beginView (engine w) with
        | Some e => Done (Err e) w
        | None =>
            match fn (mkTx db (engine w)) with
            | Panicked msg => Panicked msg
            | Done r _ => Done r w
            end
        end
    end.

(** [db.Update(fn)]: a read-write transaction, committed when [fn]
    returns no error and rolled back otherwise. *)
Definition db_Update {A : Type} (fn : M Tx (result A)) : M World (result A) :=
  fun w =>
    match singleton_db w with
    | None => Panicked "nil pointer dereference"
    | Some db =>
        match beginUpdate (engine w) with
        | Some e => Done (Err e) w
        | None =>
            match fn (mkTx db (engine w)) with
            | Panicked msg => Panicked msg
            | Done (Err e) _ => Done (Err e) w
            | Done (Ok a) tx' =>
                match commitFault (engine w) with
                | Some e => Done (Err e) w
                | None => Done (Ok a) (set_db w (tx_db tx'))
                end
            end
        end
    end.

(** An engine on which every call succeeds. *)
Definition healthy (e : Engine) : Prop :=
  beginView e = None /\ beginUpdate e = None /\
  (forall bucket key, putFault e bucket key = None) /\ commitFault e = None.

(** [wraps err e]: [err] is [e] inside one or more [ContextError]s. *)
Inductive wraps : error -> error -> Prop :=
| wraps_one : forall site e, wraps (ContextError site e) e
| wraps_more : forall site err e, wraps err e -> wraps (ContextError site err) e.

(** ** serverEntry.go: the ServerEntry record *)

Record ServerEntry : Type := mkServerEntry {
  IpAddress : string;
  WebServerPort : string;
  WebServerSecret : string;
  WebServerCertificate : string;
  SshPort : Z;
  SshUsername : string;
  SshPassword : string;
  SshHostKey : string;
  SshObfuscatedPort : Z;
  SshObfuscatedKey : string;
  Capabilities : list string;
  Region : string;
  MeekServerPort : Z;
  MeekCookieEncryptionPublicKey : string;
  MeekObfuscatedKey : string;
  MeekFrontingHost : string;
  MeekFrontingDomain : string;
  MeekFrontingAddresses : list string;
  MeekFrontingAddressesRegex : string
}.

(** [new(ServerEntry)]. *)
Definition zeroServerEntry : ServerEntry :=
  mkServerEntry "" "" "" "" 0 "" "" "" 0 "" [] "" 0 "" "" "" "" [] "".

Definition set_MeekFrontingAddresses (e : ServerEntry) (l : list string) : ServerEntry :=
  mkServerEntry (IpAddress e) (WebServerPort e) (WebServerSecret e)
    (WebServerCertificate e) (SshPort e) (SshUsername e) (SshPassword e)
    (SshHostKey e) (SshObfuscatedPort e) (SshObfuscatedKey e) (Capabilities e)
    (Region e) (MeekServerPort e) (MeekCookieEncryptionPublicKey e)
    (MeekObfuscatedKey e) (MeekFrontingHost e) (MeekFrontingDomain e) l
    (MeekFrontingAddressesRegex e).

(** What [encoding/json] finds in a document decoded for a target of type
    [A]: the literal [null], or a value.  [json.Unmarshal] treats [null]
    by the target: it leaves a struct untouched and sets a pointer to nil. *)
Inductive jsonDoc (A : Type) : Type :=
| jsonNull
| jsonValue (a : A).
Arguments jsonNull {A}.
Arguments jsonValue {A} a.

(** Modelled from the spec: the fields of [Config] (config.go is not among
    the sources) that the data store reads: the pinned target entry, the
    region and protocol filters, and the pool size used as head length. *)
Record Config : Type := mkConfig {
  TargetServerEntry : string;
  EgressRegion : string;
  TunnelProtocol : string;
  TunnelPoolSize : Z
}.

(** ** dataStore_alt.go: constants and the iterator record *)

Definition serverEntriesBucket : string := "serverEntries".
Definition rankedServerEntriesBucket : string := "rankedServerEntries".
Definition rankedServerEntriesKey : string := "rankedServerEntries".
Definition rankedServerEntryCount : Z := 100.

Record ServerEntryIterator : Type := mkIterator {
  region : string;
  protocol : string;
  shuffleHeadLength : Z;
  serverEntryIds : list string;
  serverEntryIndex : nat;
  isTargetServerEntryIterator : bool;
  hasNextTargetServerEntry : bool;
  targetServerEntry : option ServerEntry
}.

Definition set_ids (it : ServerEntryIterator) (ids : list string) (index : nat)
  : ServerEntryIterator :=
  mkIterator (region it) (protocol it) (shuffleHeadLength it) ids index
    (isTargetServerEntryIterator it) (hasNextTargetServerEntry it)
    (targetServerEntry it).

Definition set_target (it : ServerEntryIterator) (hasNext : bool)
    (target : option ServerEntry) : ServerEntryIterator :=
  mkIterator (region it) (protocol it) (shuffleHeadLength it)
    (serverEntryIds it) (serverEntryIndex it)
    (isTargetServerEntryIterator it) hasNext target.

(** Slices and indexed assignment. *)
Definition slice {A : Type} (l : list A) (lo hi : nat) : list A :=
  firstn (hi - lo) (skipn lo l).

Definition list_set {A : Type} (l : list A) (i : nat) (x : A) : list A :=
  (firstn i l ++ x :: skipn (S i) l)%list.

(** [l[i], l[j] = l[j], l[i]]; [None] when an index is out of range. *)
Definition swap {A : Type} (l : list A) (i j : nat) : option (list A) :=
  match nth_error l i, nth_error l j with
  | Some a, Some b => Some (list_set (list_set l i b) j a)
  | _, _ => None
  end.

Definition deref {S A : Type} (p : option A) : M S A :=
  match p with
  | Some a => ret a
  | None => panic "invalid memory address or nil pointer dereference"
  end.

(** [MakeCompatibleServerEntry]. *)
Definition MakeCompatibleServerEntry (serverEntry : ServerEntry) : ServerEntry :=
  if (length (MeekFrontingAddresses serverEntry) =? 0)%nat
     && negb (String.eqb (MeekFrontingDomain serverEntry) "")
  then set_MeekFrontingAddresses serverEntry
         (MeekFrontingAddresses serverEntry ++ [MeekFrontingDomain serverEntry])%list
  else serverEntry.

(** [serverEntrySupportsProtocol]. *)
Definition serverEntrySupportsProtocol (serverEntry : ServerEntry) (protocol : string) : bool :=
  let requiredCapability := strings_TrimSuffix protocol "-OSSH" in
  Contains (Capabilities serverEntry) requiredCapability.

(** The filter shared by [Next] and [CountServerEntries]. *)
Definition matchesFilter (region protocol : string) (serverEntry : ServerEntry) : bool :=
  (String.eqb region "" || String.eqb (Region serverEntry) region)
  && (String.eqb protocol "" || serverEntrySupportsProtocol serverEntry protocol).

(** [Close]. *)
Definition Close (iterator : ServerEntryIterator) : ServerEntryIterator :=
  set_ids iterator [] 0.

Definition checkInitDataStore : M World unit :=
  fun w =>
    match singleton_db w with
    | None => Panicked "checkInitDataStore: datastore not initialized"
    | Some _ => Done tt w
    end.

(** ** serverEntry.go: protocols and capabilities *)

Definition TUNNEL_PROTOCOL_SSH : string := "SSH".
Definition TUNNEL_PROTOCOL_OBFUSCATED_SSH : string := "OSSH".
Definition TUNNEL_PROTOCOL_UNFRONTED_MEEK : string := "UNFRONTED-MEEK-OSSH".
Definition TUNNEL_PROTOCOL_FRONTED_MEEK : string := "FRONTED-MEEK-OSSH".

Definition SupportedTunnelProtocols : list string :=
  [TUNNEL_PROTOCOL_FRONTED_MEEK; TUNNEL_PROTOCOL_UNFRONTED_MEEK;
   TUNNEL_PROTOCOL_OBFUSCATED_SSH; TUNNEL_PROTOCOL_SSH].

Definition set_Capabilities (e : ServerEntry) (l : list string) : ServerEntry :=
  mkServerEntry (IpAddress e) (WebServerPort e) (WebServerSecret e)
    (WebServerCertificate e) (SshPort e) (SshUsername e) (SshPassword e)
    (SshHostKey e) (SshObfuscatedPort e) (SshObfuscatedKey e) l
    (Region e) (MeekServerPort e) (MeekCookieEncryptionPublicKey e)
    (MeekObfuscatedKey e) (MeekFrontingHost e) (MeekFrontingDomain e)
    (MeekFrontingAddresses e) (MeekFrontingAddressesRegex e).

(** [SupportsProtocol]. *)
Definition SupportsProtocol (serverEntry : ServerEntry) (protocol : string) : bool :=
  let requiredCapability := strings_TrimSuffix protocol "-OSSH" in
  Contains (Capabilities serverEntry) requiredCapability.

(** The loop of [GetSupportedProtocols] over the protocols not yet
    visited. *)
Fixpoint supportedAmong (serverEntry : ServerEntry) (protocols supportedProtocols : list string)
  : list string :=
  match protocols with
  | [] => supportedProtocols
  | protocol :: rest =>
      if SupportsProtocol serverEntry protocol
      then supportedAmong serverEntry rest (supportedProtocols ++ [protocol])%list
      else supportedAmong serverEntry rest supportedProtocols
  end.

(** [GetSupportedProtocols]. *)
Definition GetSupportedProtocols (serverEntry : ServerEntry) : list string :=
  supportedAmong serverEntry SupportedTunnelProtocols [].

(** The inner loop of [DisableImpairedProtocols]: the value of [omit]. *)
Fixpoint omitCapability (capability : string) (impairedProtocols : list string) : bool :=
  match impairedProtocols with
  | [] => false
  | protocol :: rest =>
      let requiredCapability := strings_TrimSuffix protocol "-OSSH" in
      if String.eqb capability requiredCapability then true
      else omitCapability capability rest
  end.

(** The outer loop of [DisableImpairedProtocols]. *)
Fixpoint keptCapabilities (remaining impairedProtocols capabilities : list string)
  : list string :=
  match remaining with
  | [] => capabilities
  | capability :: rest =>
      if omitCapability capability impairedProtocols
      then keptCapabilities rest impairedProtocols capabilities
      else keptCapabilities rest impairedProtocols (capabilities ++ [capability])%list
  end.

(** [DisableImpairedProtocols]; the entry is passed in and handed back. *)
Definition DisableImpairedProtocols (serverEntry : ServerEntry)
    (impairedProtocols : list string) : ServerEntry :=
  set_Capabilities serverEntry
    (keptCapabilities (Capabilities serverEntry) impairedProtocols []).

(** ** dataStore_alt.go: split tunnel routes, URL ETags and key/values *)

Definition splitTunnelRouteETagsBucket : string := "splitTunnelRouteETags".
Definition splitTunnelRouteDataBucket : string := "splitTunnelRouteData".
Definition urlETagsBucket : string := "urlETags".
Definition keyValueBucket : string := "keyValues".

Definition set_splitTunnelRouteETags (db : boltDB) (b : Bucket) : boltDB :=
  mkDB (serverEntries db) (rankedServerEntries db) b
       (splitTunnelRouteData db) (urlETags db) (keyValues db).

Definition set_splitTunnelRouteData (db : boltDB) (b : Bucket) : boltDB :=
  mkDB (serverEntries db) (rankedServerEntries db) (splitTunnelRouteETags db)
       b (urlETags db) (keyValues db).

Definition set_urlETags (db : boltDB) (b : Bucket) : boltDB :=
  mkDB (serverEntries db) (rankedServerEntries db) (splitTunnelRouteETags db)
       (splitTunnelRouteData db) b (keyValues db).

Definition set_keyValues (db : boltDB) (b : Bucket) : boltDB :=
  mkDB (serverEntries db) (rankedServerEntries db) (splitTunnelRouteETags db)
       (splitTunnelRouteData db) (urlETags db) b.

(** [tx.Bucket(name).Put(key, value)] for the bucket that [read] and
    [write] select. *)
Definition bucket_Put (bucketName : string) (read : boltDB -> Bucket)
    (write : boltDB -> Bucket -> boltDB) (key value : bytes) : M Tx (option error) :=
  fun tx =>
    match putFault (tx_engine tx) bucketName key with
    | Some e => Done (Some e) tx
    | None =>
        Done None
          (mkTx (write (tx_db tx) (bucket_insert (read (tx_db tx)) key value))
                (tx_engine tx))
    end.

(** [string(bucket.Get(key))]: the empty string for a missing key. *)
Definition stringOf (value : option bytes) : string :=
  match value with
  | Some v => v
  | None => ""
  end.

(** [SetSplitTunnelRoutes].  The result of the first [Put] is assigned to
    [err] and overwritten by the result of the second. *)
Definition SetSplitTunnelRoutes (region etag : string) (data : bytes)
  : M World (option error) :=
  checkInitDataStore ;;;
  r <- db_Update
         (_ <- bucket_Put splitTunnelRouteETagsBucket splitTunnelRouteETags
                 set_splitTunnelRouteETags region etag ;;
          err <- bucket_Put splitTunnelRouteDataBucket splitTunnelRouteData
                   set_splitTunnelRouteData region data ;;
          match err with
          | Some err => ret (Err err)
          | None => ret (Ok tt)
          end) ;;
  match r with
  | Err err => ret (Some (ContextError "SetSplitTunnelRoutes" err))
  | Ok _ => ret None
  end.

(** [GetSplitTunnelRoutesETag]. *)
Definition GetSplitTunnelRoutesETag (region : string) : M World (result string) :=
  checkInitDataStore ;;;
  r <- db_View (tx <- get ;;
                ret (Ok (stringOf (bucket_Get (splitTunnelRouteETags (tx_db tx)) region)))) ;;
  match r with
  | Err err => ret (Err (ContextError "GetSplitTunnelRoutesETag" err))
  | Ok etag => ret (Ok etag)
  end.

(** [GetSplitTunnelRoutesData]; [None] is the nil slice. *)
Definition GetSplitTunnelRoutesData (region : string) : M World (result (option bytes)) :=
  checkInitDataStore ;;;
  r <- db_View (tx <- get ;;
                ret (Ok (bucket_Get (splitTunnelRouteData (tx_db tx)) region))) ;;
  match r with
  | Err err => ret (Err (ContextError "GetSplitTunnelRoutesData" err))
  | Ok data => ret (Ok data)
  end.

(** [SetUrlETag]. *)
Definition SetUrlETag (url etag : string) : M World (option error) :=
  checkInitDataStore ;;;
  r <- db_Update
         (err <- bucket_Put urlETagsBucket urlETags set_urlETags url etag ;;
          match err with
          | Some err => ret (Err err)
          | None => ret (Ok tt)
          end) ;;
  match r with
  | Err err => ret (Some (ContextError "SetUrlETag" err))
  | Ok _ => ret None
  end.

(** [GetUrlETag]. *)
Definition GetUrlETag (url : string) : M World (result string) :=
  checkInitDataStore ;;;
  r <- db_View (tx <- get ;;
                ret (Ok (stringOf (bucket_Get (urlETags (tx_db tx)) url)))) ;;
  match r with
  | Err err => ret (Err (ContextError "GetUrlETag" err))
  | Ok etag => ret (Ok etag)
  end.

(** [SetKeyValue]. *)
Definition SetKeyValue (key value : string) : M World (option error) :=
  checkInitDataStore ;;;
  r <- db_Update
         (err <- bucket_Put keyValueBucket keyValues set_keyValues key value ;;
          match err with
          | Some err => ret (Err err)
          | None => ret (Ok tt)
          end) ;;
  match r with
  | Err err => ret (Some (ContextError "SetKeyValue" err))
  | Ok _ => ret None
  end.

(** [GetKeyValue]. *)
Definition GetKeyValue (key : string) : M World (result string) :=
  checkInitDataStore ;;;
  r <- db_View (tx <- get ;;
                ret (Ok (stringOf (bucket_Get (keyValues (tx_db tx)) key)))) ;;
  match r with
  | Err err => ret (Err (ContextError "GetKeyValue" err))
  | Ok value => ret (Ok value)
  end.

(** ** Go's [int]

    [int] is taken to be 64 bits wide, as on amd64 and arm64: a [Z] stands
    for an [int] when it lies between [minInt] and [maxInt].  Arithmetic on
    [int] wraps around silently; [wrapInt] is the [int] an exact result
    wraps to. *)
Definition intSize : Z := 64.
Definition minInt : Z := - 2 ^ (intSize - 1).
Definition maxInt : Z := 2 ^ (intSize - 1) - 1.

Definition wrapInt (z : Z) : Z := (z - minInt) mod 2 ^ intSize + minInt.

(** [x - 1] on [int]: exact, except at the least [int], where it wraps
    around to the greatest. *)
Definition int_pred (x : Z) : Z := if x =? minInt then maxInt else x - 1.

(** ** Stand-ins for the standard library, used by the examples

    The development is parametric in [net.ParseIP] and [encoding/json].
    The examples instantiate them with a dotted-quad recogniser and with a
    small self-delimiting codec: a string is written character by
    character, each character after a [.], and closed by a [;]. *)
Module Fixture.

Definition isDigit (c : ascii) : bool :=
  let n := N_of_ascii c in ((48 <=? n) && (n <=? 57))%N.

Fixpoint decimalValue (s : string) (acc : N) : option N :=
  match s with
  | EmptyString => Some acc
  | String c s' =>
      if isDigit c then decimalValue s' (acc * 10 + (N_of_ascii c - 48))%N else None
  end.

Definition octet (s : string) : bool :=
  match s with
  | EmptyString => false
  | _ => match decimalValue s 0 with
         | Some n => (n <=? 255)%N
         | None => false
         end
  end.

Definition parseIP (s : string) : bool :=
  match strings_Split s "."%char with
  | [a; b; c; d] => octet a && octet b && octet c && octet d
  | _ => false
  end.

Fixpoint encodeString (s : string) : bytes :=
  match s with
  | EmptyString => ";"
  | String c s' => String "."%char (String c (encodeString s'))
  end.

Fixpoint encodeStrings (l : list string) : bytes :=
  match l with
  | [] => ""
  | s :: l' => encodeString s ++ encodeStrings l'
  end.

(** [current] is the part of the string being read, already decoded. *)
Fixpoint decodeFrom (data : bytes) (current : string) : option (list string) :=
  match data with
  | EmptyString => match current with EmptyString => Some [] | _ => None end
  | String c rest =>
      if Ascii.eqb c ";"%char then option_map (cons current) (decodeFrom rest "")
      else if Ascii.eqb c "."%char then
        match rest with
        | String x rest' => decodeFrom rest' (current ++ String x "")
        | EmptyString => None
        end
      else None
  end.

Definition marshalStrings (l : list string) : result bytes := Ok (encodeStrings l).

Definition unmarshalStrings (data : bytes) : result (list string) :=
  match decodeFrom data "" with
  | Some l => Ok l
  | None => Err (jsonError "invalid character")
  end.

(** Entries are written with the fields the store looks at. *)
Definition recordOf (e : ServerEntry) : bytes :=
  encodeStrings
    [IpAddress e; Region e; MeekFrontingDomain e;
     encodeStrings (Capabilities e); encodeStrings (MeekFrontingAddresses e)].

Definition marshalEntry (e : ServerEntry) : result bytes := Ok (recordOf e).

Definition decodeEntry (data : bytes) : result (jsonDoc ServerEntry) :=
  if String.eqb data "null" then Ok jsonNull
  else
    match decodeFrom data "" with
    | Some [ip; region; domain; capabilities; addresses] =>
        match decodeFrom capabilities "", decodeFrom addresses "" with
        | Some caps, Some addrs =>
            Ok (jsonValue
                  (mkServerEntry ip "" "" "" 0 "" "" "" 0 "" caps region 0 "" "" ""
                     domain addrs ""))
        | _, _ => Err (jsonError "invalid character")
        end
    | _ => Err (jsonError "invalid character")
    end.

(** An entry with the given address, region and capabilities. *)
Definition entry (ip region : string) (capabilities : list string) : ServerEntry :=
  mkServerEntry ip "" "" "" 0 "" "" "" 0 "" capabilities region 0 "" "" "" "" [] "".

(** [hex.EncodeToString], to write encoded entries down. *)
Definition hexDigit (n : N) : ascii :=
  if (n <? 10)%N then ascii_of_N (48 + n) else ascii_of_N (87 + n).

Fixpoint hexEncode (s : bytes) : string :=
  match s with
  | EmptyString => EmptyString
  | String c s' =>
      String (hexDigit (N_of_ascii c / 16)) (String (hexDigit (N_of_ascii c mod 16)) (hexEncode s'))
  end.

(** An encoded server entry: four legacy fields, then the record. *)
Definition encodeEntry (e : ServerEntry) : string :=
  hexEncode ("0 0 0 0 " ++ recordOf e).

Definition healthyEngine : Engine := mkEngine None None (fun _ _ => None) None.

(** An engine that cannot open a read transaction. *)
Definition unreadableEngine : Engine :=
  mkEngine (Some (boltError "database not open")) None (fun _ _ => None) None.

Definition zeroTape : Rand := mkRand (fun _ => 0) 0.

(** An initialized, empty data store on a healthy engine. *)
Definition emptyDB : boltDB := mkDB [] [] [] [] [] [].

Definition freshWorld : World := mkWorld (Some emptyDB) healthyEngine [] zeroTape.

(** The empty store on an engine that cannot be read. *)
Definition unreadableWorld : World :=
  mkWorld (Some emptyDB) unreadableEngine [] zeroTape.

(** A store holding [entries], with rank index [ranked]. *)
Definition storeOf (entries : list ServerEntry) (ranked : list string) : boltDB :=
  mkDB (fold_left (fun b e => bucket_insert b (IpAddress e) (recordOf e)) entries [])
       [(rankedServerEntriesKey, encodeStrings ranked)] [] [] [] [].

Definition worldOf (entries : list ServerEntry) (ranked : list string) : World :=
  mkWorld (Some (storeOf entries ranked)) healthyEngine [] zeroTape.

(** The entry with address [10.0.0.k]. *)
Definition numbered (k : nat) : ServerEntry :=
  entry ("10.0.0." ++ NilEmpty.string_of_uint (Nat.to_uint k)) "" ["SSH"].

Definition numberedEntries (n : nat) : list ServerEntry := map numbered (seq 0 n).

Fixpoint distinct (l : list string) : bool :=
  match l with
  | [] => true
  | x :: l' => negb (existsb (String.eqb x) l') && distinct l'
  end.

(** A legacy entry, with a fronting domain and no fronting addresses, and
    a current one. *)
Definition legacyEntry : ServerEntry :=
  mkServerEntry "1.2.3.4" "" "" "" 0 "" "" "" 0 "" ["FRONTED-MEEK"] "" 0 "" "" ""
    "x.example.com" [] "".

Definition modernEntry : ServerEntry :=
  mkServerEntry "1.2.3.4" "" "" "" 0 "" "" "" 0 "" ["FRONTED-MEEK"] "" 0 "" "" ""
    "x.example.com" ["a.example.com"; "b.example.com"] "".

Definition E1 : ServerEntry := entry "1.2.3.4" "US" ["SSH"].
Definition E1' : ServerEntry := entry "1.2.3.4" "CA" ["OSSH"].

Definition entryA : ServerEntry := entry "1.1.1.1" "" ["SSH"].
Definition entryB : ServerEntry := entry "2.2.2.2" "" ["SSH"; "FRONTED-MEEK"].
Definition entryC : ServerEntry := entry "3.3.3.3" "" ["SSH"].

(** A store whose top-ranked entry lacks the FRONTED-MEEK capability, and
    the configuration of an iterator that asks for it. *)
Definition meekWorld : World :=
  worldOf [entryA; entryB; entryC] ["1.1.1.1"; "2.2.2.2"; "3.3.3.3"].

Definition meekConfig : Config := mkConfig "" "" "FRONTED-MEEK-OSSH" 3.

(** Three encoded lines: an entry with a malformed address between two
    well-formed ones. *)
Definition threeLines : string :=
  encodeEntry entryA ++ String "010"%char
    (encodeEntry (entry "not-an-address" "" ["SSH"]) ++ String "010"%char
       (encodeEntry entryC)).

(** The state after [threeLines] has been decoded on the fresh store. *)
Definition afterThreeLines : World :=
  mkWorld (Some emptyDB) healthyEngine
    [NoticeAlertMsg "server entry has invalid IpAddress: 'not-an-address'"] zeroTape.

(** Two lines, the second of which is not hexadecimal. *)
Definition brokenLines : string := encodeEntry entryA ++ String "010"%char "zz".

(** The iterator [NewServerEntryIterator meekConfig] returns on
    [meekWorld], and one on the same candidates without a filter. *)
Definition meekIterator : ServerEntryIterator :=
  mkIterator "" "FRONTED-MEEK-OSSH" 3 ["1.1.1.1"; "2.2.2.2"; "3.3.3.3"] 0 false false None.

Definition plainIterator (shuffleHeadLength : Z) : ServerEntryIterator :=
  mkIterator "" "" shuffleHeadLength [] 0 false false None.

(** A store of two entries of different regions, and a configuration that
    asks for one of the regions. *)
Definition regionWorld : World := worldOf [E1; entryA] ["1.1.1.1"; "1.2.3.4"].
Definition regionConfig : Config := mkConfig "" "US" "" 2.

(** A configuration pinned to one encoded entry. *)
Definition pinnedConfig : Config := mkConfig (encodeEntry entryB) "" "" 1.

(** An engine that refuses writes to the ETag bucket of the split tunnel
    routes. *)
Definition etagFaultEngine : Engine :=
  mkEngine None None
    (fun bucket _ =>
       if String.eqb bucket "splitTunnelRouteETags"
       then Some (boltError "key too large") else None)
    None.

Definition etagFaultWorld : World := mkWorld (Some emptyDB) etagFaultEngine [] zeroTape.

(** A store whose second record is not a server entry. *)
Definition corruptDB : boltDB :=
  mkDB [("1.1.1.1", recordOf entryA); ("2.2.2.2", "garbage"); ("3.3.3.3", recordOf entryC)]
       [] [] [] [] [].

Definition corruptWorld : World := mkWorld (Some corruptDB) healthyEngine [] zeroTape.

(** The process before the data store is initialized. *)
Definition uninitializedWorld : World := mkWorld None healthyEngine [] zeroTape.

(** An engine whose commits fail. *)
Definition commitFaultEngine : Engine :=
  mkEngine None None (fun _ _ => None) (Some (boltError "disk full")).

Definition commitFaultWorld : World := mkWorld (Some emptyDB) commitFaultEngine [] zeroTape.

(** Engines that cannot begin a write transaction, that refuse writes to
    the entries bucket, and that refuse writes to the rank index. *)
Definition updateFaultEngine : Engine :=
  mkEngine None (Some (boltError "database is in read-only mode")) (fun _ _ => None) None.

Definition entriesFaultEngine : Engine :=
  mkEngine None None
    (fun bucket _ =>
       if String.eqb bucket serverEntriesBucket
       then Some (boltError "key too large") else None)
    None.

Definition rankFaultEngine : Engine :=
  mkEngine None None
    (fun bucket _ =>
       if String.eqb bucket rankedServerEntriesBucket
       then Some (boltError "key too large") else None)
    None.

Definition updateFaultWorld : World := mkWorld (Some emptyDB) updateFaultEngine [] zeroTape.
Definition entriesFaultWorld : World := mkWorld (Some emptyDB) entriesFaultEngine [] zeroTape.
Definition rankFaultWorld : World := mkWorld (Some emptyDB) rankFaultEngine [] zeroTape.

End Fixture.

Section Psiphon.

(** The standard-library functions the code calls and this development
    does not define: [net.ParseIP] (as the test [ParseIP(s) != nil]) and
    [encoding/json] at the two types the store serializes. *)
Variable net_ParseIP : string -> bool.
Variable json_Marshal_ServerEntry : ServerEntry -> result bytes.
Variable json_decode_ServerEntry : bytes -> result (jsonDoc ServerEntry).
Variable json_Marshal_strings : list string -> result bytes.
Variable json_Unmarshal_strings : bytes -> result (list string).

(** [json.Unmarshal(data, serverEntry)] with [serverEntry] a fresh
    [new(ServerEntry)]: [null] has no effect on the struct. *)
Definition json_Unmarshal_ServerEntry (data : bytes) : result ServerEntry :=
  match json_decode_ServerEntry data with
  | Err e => Err e
  | Ok jsonNull => Ok zeroServerEntry
  | Ok (jsonValue e) => Ok e
  end.

(** [json.Unmarshal(data, &serverEntry)] with [serverEntry] a
    [*ServerEntry]: [null] sets the pointer to nil. *)
Definition json_Unmarshal_ServerEntryPtr (data : bytes) : result (option ServerEntry) :=
  match json_decode_ServerEntry data with
  | Err e => Err e
  | Ok jsonNull => Ok None
  | Ok (jsonValue e) => Ok (Some e)
  end.

(** *** serverEntry.go *)

(** [DecodeServerEntry]. *)
Definition DecodeServerEntry (encodedServerEntry : string) : result (option ServerEntry) :=
  match hex_DecodeString encodedServerEntry with
  | Err err => Err (ContextError "DecodeServerEntry" err)
  | Ok hexDecodedServerEntry =>
      let fields := bytes_SplitN hexDecodedServerEntry " "%char 5 in
      if negb (length fields =? 5)%nat
      then Err (ContextError "DecodeServerEntry" (errorsNew "invalid encoded server entry"))
      else
        match json_Unmarshal_ServerEntryPtr (nth 4 fields "") with
        | Err err => Err (ContextError "DecodeServerEntry" err)
        | Ok serverEntry => Ok serverEntry
        end
  end.

(** [ValidateServerEntry]. *)
Definition ValidateServerEntry (serverEntry : ServerEntry) : M World (option error) :=
  if net_ParseIP (IpAddress serverEntry) then ret None
  else
    let errMsg := "server entry has invalid IpAddress: '" ++ IpAddress serverEntry ++ "'" in
    NoticeAlert errMsg ;;;
    ret (Some (ContextError "ValidateServerEntry" (errorsNew errMsg))).

(** The loop of [DecodeAndValidateServerEntryList] over the lines not yet
    read, [serverEntries] being the entries collected so far. *)
Fixpoint decodeAndValidateLines (lines : list string) (serverEntries : list ServerEntry)
  : M World (result (list ServerEntry)) :=
  match lines with
  | [] => ret (Ok serverEntries)
  | encodedServerEntry :: lines' =>
      if (String.length encodedServerEntry =? 0)%nat
      then decodeAndValidateLines lines' serverEntries
      else
        match DecodeServerEntry encodedServerEntry with
        | Err err => ret (Err (ContextError "DecodeAndValidateServerEntryList" err))
        | Ok pointer =>
            serverEntry <- deref pointer ;;
            invalid <- ValidateServerEntry serverEntry ;;
            match invalid with
            | Some _ => decodeAndValidateLines lines' serverEntries
            | None => decodeAndValidateLines lines' (serverEntries ++ [serverEntry])%list
            end
        end
  end.

(** [DecodeAndValidateServerEntryList]. *)
Definition DecodeAndValidateServerEntryList (encodedServerEntryList : string)
  : M World (result (list ServerEntry)) :=
  decodeAndValidateLines (strings_Split encodedServerEntryList "010"%char) [].

(** *** dataStore_alt.go: the rank index *)

Definition serverEntries_Put (key value : bytes) : M Tx (option error) :=
  fun tx =>
    match putFault (tx_engine tx) serverEntriesBucket key with
    | Some e => Done (Some e) tx
    | None =>
        Done None
          (mkTx (set_serverEntries (tx_db tx)
                   (bucket_insert (serverEntries (tx_db tx)) key value))
                (tx_engine tx))
    end.

Definition rankedServerEntries_Put (key value : bytes) : M Tx (option error) :=
  fun tx =>
    match putFault (tx_engine tx) rankedServerEntriesBucket key with
    | Some e => Done (Some e) tx
    | None =>
        Done None
          (mkTx (set_rankedServerEntries (tx_db tx)
                   (bucket_insert (rankedServerEntries (tx_db tx)) key value))
                (tx_engine tx))
    end.

(** [getRankedServerEntries]. *)
Definition getRankedServerEntries : M Tx (result (list string)) :=
  tx <- get ;;
  match bucket_Get (rankedServerEntries (tx_db tx)) rankedServerEntriesKey with
  | None => ret (Ok [])
  | Some data =>
      match json_Unmarshal_strings data with
      | Err err => ret (Err (ContextError "getRankedServerEntries" err))
      | Ok rankedServerEntries => ret (Ok rankedServerEntries)
      end
  end.

(** [setRankedServerEntries]. *)
Definition setRankedServerEntries (rankedServerEntries : list string) : M Tx (option error) :=
  match json_Marshal_strings rankedServerEntries with
  | Err err => ret (Some (ContextError "setRankedServerEntries" err))
  | Ok data =>
      err <- rankedServerEntries_Put rankedServerEntriesKey data ;;
      match err with
      | Some err => ret (Some (ContextError "setRankedServerEntries" err))
      | None => ret None
      end
  end.

(** The list [insertRankedServerEntry] writes back; [None] where a slice
    expression is out of range. *)
Definition insertRanked (rankedServerEntries : list string) (serverEntryId : string)
    (position : Z) : option (list string) :=
  let len := Z.of_nat (length rankedServerEntries) in
  if position >=? len then Some (rankedServerEntries ++ [serverEntryId])%list
  else
    let end_ := if len + 1 >? rankedServerEntryCount then rankedServerEntryCount else len in
    if (position <? 0) || (end_ <? position) then None
    else
      Some (firstn (Z.to_nat position) rankedServerEntries
              ++ [serverEntryId]
              ++ slice rankedServerEntries (Z.to_nat position) (Z.to_nat end_))%list.

(** [insertRankedServerEntry]. *)
Definition insertRankedServerEntry (serverEntryId : string) (position : Z)
  : M Tx (option error) :=
  r <- getRankedServerEntries ;;
  match r with
  | Err err => ret (Some (ContextError "insertRankedServerEntry" err))
  | Ok rankedServerEntries =>
      match insertRanked rankedServerEntries serverEntryId position with
      | None => panic "slice bounds out of range"
      | Some rankedServerEntries' =>
          err <- setRankedServerEntries rankedServerEntries' ;;
          match err with
          | Some err => ret (Some (ContextError "insertRankedServerEntry" err))
          | None => ret None
          end
      end
  end.

(** The function [StoreServerEntry] passes to [db.Update]; its result is
    the captured [serverEntryExists]. *)
Definition storeServerEntryTx (serverEntry : ServerEntry) (replaceIfExists : bool)
  : M Tx (result bool) :=
  tx <- get ;;
  let serverEntryExists :=
    match bucket_Get (serverEntries (tx_db tx)) (IpAddress serverEntry) with
    | Some _ => true
    | None => false
    end in
  if serverEntryExists && negb replaceIfExists then ret (Ok serverEntryExists)
  else
    match json_Marshal_ServerEntry serverEntry with
    | Err err => ret (Err (ContextError "StoreServerEntry.func1" err))
    | Ok data =>
        err <- serverEntries_Put (IpAddress serverEntry) data ;;
        match err with
        | Some err => ret (Err (ContextError "StoreServerEntry.func1" err))
        | None =>
            err <- insertRankedServerEntry (IpAddress serverEntry) 1 ;;
            match err with
            | Some err => ret (Err (ContextError "StoreServerEntry.func1" err))
            | None => ret (Ok serverEntryExists)
            end
        end
    end.

(** [StoreServerEntry]. *)
Definition StoreServerEntry (serverEntry : ServerEntry) (replaceIfExists : bool)
  : M World (option error) :=
  checkInitDataStore ;;;
  err <- ValidateServerEntry serverEntry ;;
  match err with
  | Some _ => ret (Some (ContextError "StoreServerEntry" (errorsNew "invalid server entry")))
  | None =>
      r <- db_Update (storeServerEntryTx serverEntry replaceIfExists) ;;
      match r with
      | Err err => ret (Some (ContextError "StoreServerEntry" err))
      | Ok serverEntryExists =>
          (if negb serverEntryExists
           then NoticeInfo ("updated server " ++ IpAddress serverEntry)
           else ret tt) ;;;
          ret None
      end
  end.

(** [PromoteServerEntry]. *)
Definition PromoteServerEntry (ipAddress : string) : M World (option error) :=
  checkInitDataStore ;;;
  r <- db_Update (err <- insertRankedServerEntry ipAddress 0 ;;
                  match err with
                  | Some err => ret (Err err)
                  | None => ret (Ok tt)
                  end) ;;
  match r with
  | Err err => ret (Some (ContextError "PromoteServerEntry" err))
  | Ok _ => ret None
  end.

(** *** dataStore_alt.go: scans *)

(** The cursor loop of [scanServerEntries], from [cursor.First()] on;
    [acc] is the state the scanner closure has captured.  Callers discard
    that state when the scan fails, so a failed scan returns the error
    alone. *)
Fixpoint scanBucket {A : Type} (scanner : ServerEntry -> A -> A) (b : Bucket) (acc : A)
  : result A :=
  match b with
  | [] => Ok acc
  | (_, value) :: b' =>
      match json_Unmarshal_ServerEntry value with
      | Err err => Err err
      | Ok serverEntry => scanBucket scanner b' (scanner serverEntry acc)
      end
  end.

(** [scanServerEntries]. *)
Definition scanServerEntries {A : Type} (scanner : ServerEntry -> A -> A) (init : A)
  : M World (result A) :=
  r <- db_View (tx <- get ;; ret (scanBucket scanner (serverEntries (tx_db tx)) init)) ;;
  match r with
  | Err err => ret (Err (ContextError "scanServerEntries" err))
  | Ok acc => ret (Ok acc)
  end.

(** [CountServerEntries]. *)
Definition CountServerEntries (region protocol : string) : M World Z :=
  checkInitDataStore ;;;
  r <- scanServerEntries
         (fun serverEntry count =>
            if matchesFilter region protocol serverEntry then count + 1 else count)
         0 ;;
  match r with
  | Err err =>
      NoticeAlert ("CountServerEntries failed: " ++ error_string err) ;;;
      ret 0
  | Ok count => ret count
  end.

(** [GetServerEntryIpAddresses]. *)
Definition GetServerEntryIpAddresses : M World (result (list string)) :=
  checkInitDataStore ;;;
  r <- scanServerEntries
         (fun serverEntry ipAddresses => (ipAddresses ++ [IpAddress serverEntry])%list)
         [] ;;
  match r with
  | Err err => ret (Err (ContextError "GetServerEntryIpAddresses" err))
  | Ok ipAddresses => ret (Ok ipAddresses)
  end.

(** *** dataStore_alt.go: the candidate iterator *)

(** The function [Reset] passes to [db.View]: the rank index followed by
    the remaining keys of the entries bucket, last key first.
    [skipServerEntryIds] is the Go map used as a set, here the list of its
    keys. *)
Definition resetTx : M Tx (result (list string)) :=
  r <- getRankedServerEntries ;;
  match r with
  | Err err => ret (Err err)
  | Ok serverEntryIds =>
      tx <- get ;;
      let skipServerEntryIds := serverEntryIds in
      ret (Ok (serverEntryIds
                 ++ filter (fun serverEntryId =>
                              negb (existsb (String.eqb serverEntryId) skipServerEntryIds))
                           (bucket_keys_descending (serverEntries (tx_db tx))))%list)
  end.

(** The shuffle loop of [Reset], entered with [i = n - 1]:
    [for ; i > shuffleHeadLength-1; i-- { j := rand.Intn(i); swap i j }].
    The bound [shuffleHeadLength-1] is computed on [int]. *)
Fixpoint shuffleLoop (n : nat) (shuffleHeadLength : Z) (serverEntryIds : list string)
  : M Rand (list string) :=
  let i := Z.of_nat n - 1 in
  if i >? int_pred shuffleHeadLength then
    j <- rand_Intn i ;;
    match n with
    | O => panic "index out of range"
    | S n' =>
        match swap serverEntryIds n' (Z.to_nat j) with
        | None => panic "index out of range"
        | Some serverEntryIds' => shuffleLoop n' shuffleHeadLength serverEntryIds'
        end
    end
  else ret serverEntryIds.

(** [Reset]; the iterator is passed in and handed back. *)
Definition Reset (iterator : ServerEntryIterator)
  : M World (option error * ServerEntryIterator) :=
  let iterator := Close iterator in
  if isTargetServerEntryIterator iterator
  then ret (None, set_target iterator true (targetServerEntry iterator))
  else
    count <- CountServerEntries (region iterator) (protocol iterator) ;;
    NoticeCandidateServers (region iterator) (protocol iterator) count ;;;
    r <- db_View resetTx ;;
    match r with
    | Err err => ret (Some (ContextError "Reset" err), iterator)
    | Ok serverEntryIds =>
        serverEntryIds' <-
          withGlobalRand
            (shuffleLoop (length serverEntryIds) (shuffleHeadLength iterator)
               serverEntryIds) ;;
        ret (None, set_ids iterator serverEntryIds' 0)
    end.

(** The loop of [Next] over [pending], the ids from [serverEntryIndex]
    on.  An error closes the iterator (the deferred function). *)
Fixpoint nextLoop (pending : list string) (iterator : ServerEntryIterator)
  : M World (result (option ServerEntry) * ServerEntryIterator) :=
  match pending with
  | [] => ret (Ok None, iterator)
  | serverEntryId :: pending' =>
      let iterator :=
        set_ids iterator (serverEntryIds iterator) (S (serverEntryIndex iterator)) in
      r <- db_View (tx <- get ;;
                    ret (Ok (bucket_Get (serverEntries (tx_db tx)) serverEntryId))) ;;
      match r with
      | Err err => ret (Err (ContextError "Next" err), Close iterator)
      | Ok None =>
          ret (Err (ContextError "Next"
                      (fmtErrorf ("Unexpected missing server entry: " ++ serverEntryId))),
               Close iterator)
      | Ok (Some data) =>
          match json_Unmarshal_ServerEntry data with
          | Err err => ret (Err (ContextError "Next" err), Close iterator)
          | Ok serverEntry =>
              if matchesFilter (region iterator) (protocol iterator) serverEntry
              then ret (Ok (Some (MakeCompatibleServerEntry serverEntry)), iterator)
              else nextLoop pending' iterator
          end
      end
  end.

(** [Next].  The pinned entry is normalized in place, so the iterator
    holds the normalized entry afterwards. *)
Definition Next (iterator : ServerEntryIterator)
  : M World (result (option ServerEntry) * ServerEntryIterator) :=
  if isTargetServerEntryIterator iterator then
    if hasNextTargetServerEntry iterator then
      serverEntry <- deref (targetServerEntry iterator) ;;
      ret (Ok (Some (MakeCompatibleServerEntry serverEntry)),
           set_target iterator false (Some (MakeCompatibleServerEntry serverEntry)))
    else ret (Ok None, iterator)
  else
    nextLoop (skipn (serverEntryIndex iterator) (serverEntryIds iterator)) iterator.

(** [newTargetServerEntryIterator]. *)
Definition newTargetServerEntryIterator (config : Config)
  : M World (result ServerEntryIterator) :=
  match DecodeServerEntry (TargetServerEntry config) with
  | Err err => ret (Err err)
  | Ok pointer =>
      regionMismatch <-
        (if negb (String.eqb (EgressRegion config) "")
         then serverEntry <- deref pointer ;;
              ret (negb (String.eqb (Region serverEntry) (EgressRegion config)))
         else ret false) ;;
      if (regionMismatch : bool)
      then ret (Err (errorsNew "TargetServerEntry does not support EgressRegion"))
      else
        protocolMismatch <-
          (if negb (String.eqb (TunnelProtocol config) "")
           then serverEntry <- deref pointer ;;
                let requiredCapability :=
                  strings_TrimSuffix (TunnelProtocol config) "-OSSH" in
                ret (negb (Contains (Capabilities serverEntry) requiredCapability))
           else ret false) ;;
        if (protocolMismatch : bool)
        then ret (Err (errorsNew "TargetServerEntry does not support TunnelProtocol"))
        else
          let iterator := mkIterator "" "" 0 [] 0 true true pointer in
          serverEntry <- deref pointer ;;
          NoticeInfo ("using TargetServerEntry: " ++ IpAddress serverEntry) ;;;
          ret (Ok iterator)
  end.

(** [NewServerEntryIterator]. *)
Definition NewServerEntryIterator (config : Config)
  : M World (result ServerEntryIterator) :=
  if negb (String.eqb (TargetServerEntry config) "")
  then newTargetServerEntryIterator config
  else
    checkInitDataStore ;;;
    let iterator :=
      mkIterator (EgressRegion config) (TunnelProtocol config) (TunnelPoolSize config)
        [] 0 false false None in
    r <- Reset iterator ;;
    match r with
    | (Some err, _) => ret (Err err)
    | (None, iterator') => ret (Ok iterator')
    end.

(** *** Vocabulary of the properties *)

(** The rank index as [getRankedServerEntries] reads it from [db]. *)
Definition rankIndex (db : boltDB) : result (list string) :=
  match bucket_Get (rankedServerEntries db) rankedServerEntriesKey with
  | None => Ok []
  | Some data => json_Unmarshal_strings data
  end.

(** A caller storing entries one after the other, stopping at the first
    error (the loop of [StoreServerEntries]). *)
Fixpoint storeEach (serverEntries : list ServerEntry) (replaceIfExists : bool)
  : M World (option error) :=
  match serverEntries with
  | [] => ret None
  | serverEntry :: rest =>
      err <- StoreServerEntry serverEntry replaceIfExists ;;
      match err with
      | Some err => ret (Some (ContextError "StoreServerEntries" err))
      | None => storeEach rest replaceIfExists
      end
  end.

(** Iterator states a consumer can reach from [start] by calling [Next],
    [Reset] and [Close], whatever the process state is at each call. *)
Inductive reachable (start : ServerEntryIterator) : ServerEntryIterator -> Prop :=
| reachable_start : reachable start start
| reachable_Next : forall it w r it' w',
    reachable start it -> Next it w = Done (r, it') w' -> reachable start it'
| reachable_Reset : forall it w r it' w',
    reachable start it -> Reset it w = Done (r, it') w' -> reachable start it'
| reachable_Close : forall it,
    reachable start it -> reachable start (Close it).


(** The part of an iterator fixed at construction. *)
Definition sameFilter (it it' : ServerEntryIterator) : Prop :=
  region it' = region it /\ protocol it' = protocol it
  /\ shuffleHeadLength it' = shuffleHeadLength it
  /\ isTargetServerEntryIterator it' = isTargetServerEntryIterator it.

(** The filter invariant of an iterator built for protocol [p]: a pinned
    target supports [p], a repository-backed iterator filters on [p]. *)
Definition filtersOn (p : string) (it : ServerEntryIterator) : Prop :=
  if isTargetServerEntryIterator it
  then forall e, targetServerEntry it = Some e -> serverEntrySupportsProtocol e p = true
  else protocol it = p.

(** The promotion scenario: three entries stored in order, the second
    one promoted, then the first entry a fresh unfiltered iterator hands
    out. *)
Definition promotionScenario (A B C : ServerEntry) (poolSize : Z)
  : M World (result (option ServerEntry)) :=
  StoreServerEntry A false ;;;
  StoreServerEntry B false ;;;
  StoreServerEntry C false ;;;
  PromoteServerEntry (IpAddress B) ;;;
  r <- NewServerEntryIterator (mkConfig "" "" "" poolSize) ;;
  match r with
  | Err err => ret (Err err)
  | Ok iterator => next <- Next iterator ;; ret (fst next)
  end.

(** [decodesTo lines serverEntries]: the non-empty lines of [lines] all
    decode, in order, to the entries [serverEntries]. *)
Inductive decodesTo : list string -> list ServerEntry -> Prop :=
| decodesTo_nil : decodesTo [] []
| decodesTo_skip : forall lines serverEntries,
    decodesTo lines serverEntries -> decodesTo ("" :: lines) serverEntries
| decodesTo_entry : forall line lines serverEntry serverEntries,
    line <> "" ->
    DecodeServerEntry line = Ok (Some serverEntry) ->
    decodesTo lines serverEntries ->
    decodesTo (line :: lines) (serverEntry :: serverEntries).

(** What the properties ask of [encoding/json]: a record can always be
    serialized, and a list of strings is read back as it was written. *)
Definition marshalsEntries : Prop :=
  forall e, exists data, json_Marshal_ServerEntry e = Ok data.

Definition stringsRoundTrip : Prop :=
  forall l, exists data,
    json_Marshal_strings l = Ok data /\ json_Unmarshal_strings data = Ok l.

(** The candidate list [Reset] builds before shuffling, for the rank
    index [ranked]: the rank index, then the stored ids not in it, last key
    first. *)
Definition candidateList (ranked : list string) (db : boltDB) : list string :=
  (ranked
     ++ filter (fun serverEntryId => negb (existsb (String.eqb serverEntryId) ranked))
          (bucket_keys_descending (serverEntries db)))%list.

(** [noSpace s]: no character of [s] is a space. *)
Fixpoint noSpace (s : string) : bool :=
  match s with
  | EmptyString => true
  | String c s' => negb (Ascii.eqb c " "%char) && noSpace s'
  end.

(** The alert [ValidateServerEntry] emits for an entry it refuses. *)
Definition invalidAddressAlert (serverEntry : ServerEntry) : Notice :=
  NoticeAlertMsg
    ("server entry has invalid IpAddress: '" ++ IpAddress serverEntry ++ "'").

(** [skippedBy it db k]: in store [db] the candidate [k] has a record
    that decodes to an entry the filter of [it] refuses. *)
Definition skippedBy (it : ServerEntryIterator) (db : boltDB) (k : string) : Prop :=
  exists data stored,
    bucket_Get (serverEntries db) k = Some data
    /\ json_Unmarshal_ServerEntry data = Ok stored
    /\ matchesFilter (region it) (protocol it) stored = false.

(** The region invariant of an iterator built for region [r]: a pinned
    target is in [r], a repository-backed iterator filters on [r]. *)
Definition regionOn (r : string) (it : ServerEntryIterator) : Prop :=
  if isTargetServerEntryIterator it
  then forall e, targetServerEntry it = Some e -> Region e = r
  else region it = r.

(** [decodesAll b entries]: the records of bucket [b] decode, in key
    order, to [entries]. *)
Definition decodesAll (b : Bucket) (entries : list ServerEntry) : Prop :=
  Forall2 (fun record e => json_Unmarshal_ServerEntry (snd record) = Ok e) b entries.

(** The panic of [checkInitDataStore]. *)
Definition notInitialized {A : Type} : Outcome World A :=
  Panicked "checkInitDataStore: datastore not initialized".

(** ** Properties *)

(** *** Arithmetic on [int] *)

Lemma minInt_value : minInt = -9223372036854775808.
Proof. reflexivity. Qed.

Lemma maxInt_value : maxInt = 9223372036854775807.
Proof. reflexivity. Qed.

(** Away from the least [int] the decrement is exact. *)
Lemma int_pred_exact (x : Z) : x <> minInt -> int_pred x = x - 1.
Proof.
  intros Hx. unfold int_pred.
  destruct (x =? minInt) eqn:E; [apply Z.eqb_eq in E; contradiction | reflexivity].
Qed.

Lemma int_pred_minInt : int_pred minInt = maxInt.
Proof. reflexivity. Qed.

(** On an [int], [int_pred] is the decrement wrapped to 64 bits. *)
Lemma int_pred_wraps (x : Z) : minInt <= x <= maxInt -> int_pred x = wrapInt (x - 1).
Proof.
  intros Hx. unfold int_pred, wrapInt.
  destruct (x =? minInt) eqn:E.
  - apply Z.eqb_eq in E. subst x. reflexivity.
  - apply Z.eqb_neq in E.
    rewrite minInt_value, maxInt_value in *.
    change (2 ^ intSize) with 18446744073709551616.
    rewrite Z.mod_small by lia. lia.
Qed.

(** *** The engine's buckets *)

Lemma bucket_Get_insert (b : Bucket) (key value key' : bytes) :
  bucket_Get (bucket_insert b key value) key'
  = if String.eqb key key' then Some value else bucket_Get b key'.
Proof.
  induction b as [|[k v] b IH]; simpl.
  - reflexivity.
  - destruct (String.compare key k) eqn:Hcmp; simpl.
    + apply String.compare_eq_iff in Hcmp. subst k.
      destruct (String.eqb key key'); reflexivity.
    + reflexivity.
    + rewrite IH.
      destruct (String.eqb k key') eqn:Hk; [|reflexivity].
      apply String.eqb_eq in Hk. subst key'.
      destruct (String.eqb key k) eqn:Hkey; [|reflexivity].
      apply String.eqb_eq in Hkey. subst k.
      pose proof (String.compare_antisym key key) as Hanti.
      rewrite Hcmp in Hanti. discriminate.
Qed.

Lemma bucket_insert_keys (b : Bucket) (key value k : bytes) :
  In k (map fst (bucket_insert b key value)) -> k = key \/ In k (map fst b).
Proof.
  induction b as [|[k0 v0] b IH]; simpl.
  - intros [H|[]]. left. congruence.
  - destruct (String.compare key k0) eqn:Hcmp; simpl.
    + intros [H|H]; [left; congruence | right; right; exact H].
    + intros [H|[H|H]]; [left; congruence | right; left; exact H | right; right; exact H].
    + intros [H|H]; [right; left; exact H|].
      destruct (IH H) as [H'|H']; [left; exact H' | right; right; exact H'].
Qed.

(** *** Running the monad *)

Ltac run :=
  unfold deref, checkInitDataStore, NoticeAlert, NoticeInfo, NoticeCandidateServers in *;
  unfold bind, ret, get, panic, emit, set_db in *;
  cbn [singleton_db engine notices globalRand tx_db tx_engine
       beginView beginUpdate putFault commitFault] in *.

(** *** Compatibility normalization *)


(** Normalization touches no field but the address list. *)
Lemma MakeCompatibleServerEntry_Capabilities (serverEntry : ServerEntry) :
  Capabilities (MakeCompatibleServerEntry serverEntry) = Capabilities serverEntry.
Proof.
  unfold MakeCompatibleServerEntry.
  destruct (_ && _); reflexivity.
Qed.

Lemma MakeCompatibleServerEntry_IpAddress (serverEntry : ServerEntry) :
  IpAddress (MakeCompatibleServerEntry serverEntry) = IpAddress serverEntry.
Proof.
  unfold MakeCompatibleServerEntry.
  destruct (_ && _); reflexivity.
Qed.

(** *** Decoding *)

Lemma bytes_SplitN_length (s : bytes) (sep : ascii) (n : nat) :
  (length (bytes_SplitN s sep n) <= n)%nat.
Proof.
  revert n. induction s as [|a s IH]; intros n.
  - destruct n as [|[|n]]; simpl; lia.
  - destruct n as [|[|n]]; simpl; try lia.
    destruct (Ascii.eqb a sep).
    + simpl. specialize (IH (S n)). lia.
    + specialize (IH (S (S n))).
      destruct (bytes_SplitN s sep (S (S n))); simpl in *; lia.
Qed.


(** *** The rank index inside a transaction *)

Lemma getRankedServerEntries_run (tx : Tx) :
  getRankedServerEntries tx
  = Done (match rankIndex (tx_db tx) with
          | Ok l => Ok l
          | Err err => Err (ContextError "getRankedServerEntries" err)
          end) tx.
Proof.
  unfold getRankedServerEntries, rankIndex. run.
  destruct (bucket_Get (rankedServerEntries (tx_db tx)) rankedServerEntriesKey); [|reflexivity].
  destruct (json_Unmarshal_strings b); reflexivity.
Qed.

Lemma insertRankedServerEntry_ok (tx : Tx) (serverEntryId : string) (position : Z)
    (ranked ranked' : list string) (data : bytes) :
  (forall bucket key, putFault (tx_engine tx) bucket key = None) ->
  rankIndex (tx_db tx) = Ok ranked ->
  insertRanked ranked serverEntryId position = Some ranked' ->
  json_Marshal_strings ranked' = Ok data ->
  insertRankedServerEntry serverEntryId position tx
  = Done None
      (mkTx (set_rankedServerEntries (tx_db tx)
               (bucket_insert (rankedServerEntries (tx_db tx)) rankedServerEntriesKey data))
            (tx_engine tx)).
Proof.
  intros Hput Hrank Hins Hmarshal.
  unfold insertRankedServerEntry, bind.
  rewrite getRankedServerEntries_run, Hrank, Hins.
  unfold setRankedServerEntries, bind. rewrite Hmarshal.
  unfold rankedServerEntries_Put. rewrite Hput. reflexivity.
Qed.

(** The rank index read back after a successful insertion. *)
Lemma rankIndex_after_insert (db : boltDB) (b : Bucket) (data : bytes) :
  rankIndex (set_rankedServerEntries db
               (bucket_insert b rankedServerEntriesKey data))
  = json_Unmarshal_strings data.
Proof.
  unfold rankIndex, set_rankedServerEntries. cbn [rankedServerEntries].
  rewrite bucket_Get_insert, String.eqb_refl. reflexivity.
Qed.

Lemma rankIndex_set_serverEntries (db : boltDB) (b : Bucket) :
  rankIndex (set_serverEntries db b) = rankIndex db.
Proof. reflexivity. Qed.

(** Insertions at positions 0 and 1, the only ones the store makes, never
    leave the bounds of the list. *)
Lemma insertRanked_defined (ranked : list string) (serverEntryId : string) (position : Z) :
  position = 0 \/ position = 1 ->
  exists ranked', insertRanked ranked serverEntryId position = Some ranked'.
Proof.
  intros Hpos. unfold insertRanked, rankedServerEntryCount.
  destruct (position >=? Z.of_nat (length ranked)) eqn:Hge; [eexists; reflexivity|].
  rewrite Z.geb_leb in Hge. apply Z.leb_gt in Hge.
  destruct (Z.of_nat (length ranked) + 1 >? 100) eqn:Hcap.
  - replace ((position <? 0) || (100 <? position)) with false.
    + eexists; reflexivity.
    + symmetry. apply orb_false_intro; [apply Z.ltb_ge | apply Z.ltb_ge]; lia.
  - replace ((position <? 0) || (Z.of_nat (length ranked) <? position)) with false.
    + eexists; reflexivity.
    + symmetry. apply orb_false_intro; [apply Z.ltb_ge | apply Z.ltb_ge]; lia.
Qed.

(** *** StoreServerEntry *)

(** An entry whose address does not parse is refused before any
    transaction is opened: an alert is emitted and nothing else changes. *)
Lemma StoreServerEntry_invalid (serverEntry : ServerEntry) (replaceIfExists : bool)
    (w : World) (db : boltDB) :
  singleton_db w = Some db ->
  net_ParseIP (IpAddress serverEntry) = false ->
  StoreServerEntry serverEntry replaceIfExists w
  = Done (Some (ContextError "StoreServerEntry" (errorsNew "invalid server entry")))
      (mkWorld (Some db) (engine w)
         (notices w
            ++ [NoticeAlertMsg ("server entry has invalid IpAddress: '"
                                ++ IpAddress serverEntry ++ "'")])%list
         (globalRand w)).
Proof.
  intros Hdb Hip.
  unfold StoreServerEntry, ValidateServerEntry. run.
  rewrite Hdb, Hip. cbn. rewrite Hdb. reflexivity.
Qed.

(** C10: for an entry whose IpAddress does not parse as an IP literal,
    [StoreServerEntry] returns an error and the data store is unchanged:
    no record is written and the rank index is untouched. *)
Theorem StoreServerEntry_invalid_unchanged (serverEntry : ServerEntry)
    (replaceIfExists : bool) (w : World) (db : boltDB) :
  singleton_db w = Some db ->
  net_ParseIP (IpAddress serverEntry) = false ->
  exists err w',
    StoreServerEntry serverEntry replaceIfExists w = Done (Some err) w'
    /\ singleton_db w' = Some db
    /\ engine w' = engine w
    /\ globalRand w' = globalRand w.
Proof.
  intros Hdb Hip.
  rewrite (StoreServerEntry_invalid serverEntry replaceIfExists w Hdb Hip).
  do 2 eexists. split; [reflexivity|]. cbn. auto.
Qed.

(** The transaction of a store that writes: the record is put under the
    address and the address inserted at position 1 of the rank index. *)
Lemma storeServerEntryTx_writes (serverEntry : ServerEntry) (replaceIfExists : bool)
    (tx : Tx) (data : bytes) (ranked ranked' : list string) (rankedData : bytes) :
  (forall bucket key, putFault (tx_engine tx) bucket key = None) ->
  (replaceIfExists = true
   \/ bucket_Get (serverEntries (tx_db tx)) (IpAddress serverEntry) = None) ->
  json_Marshal_ServerEntry serverEntry = Ok data ->
  rankIndex (tx_db tx) = Ok ranked ->
  insertRanked ranked (IpAddress serverEntry) 1 = Some ranked' ->
  json_Marshal_strings ranked' = Ok rankedData ->
  storeServerEntryTx serverEntry replaceIfExists tx
  = Done (Ok (match bucket_Get (serverEntries (tx_db tx)) (IpAddress serverEntry) with
              | Some _ => true
              | None => false
              end))
      (mkTx (set_rankedServerEntries
               (set_serverEntries (tx_db tx)
                  (bucket_insert (serverEntries (tx_db tx)) (IpAddress serverEntry) data))
               (bucket_insert (rankedServerEntries (tx_db tx))
                  rankedServerEntriesKey rankedData))
            (tx_engine tx)).
Proof.
  intros Hput Hpath Hdata Hrank Hins Hmarshal.
  unfold storeServerEntryTx, bind, get.
  assert ((match bucket_Get (serverEntries (tx_db tx)) (IpAddress serverEntry) with
           | Some _ => true
           | None => false
           end) && negb replaceIfExists = false) as Hcond.
  { destruct Hpath as [H|H]; rewrite H.
    - apply andb_false_r.
    - reflexivity. }
  rewrite Hcond, Hdata.
  unfold serverEntries_Put at 1. rewrite Hput.
  erewrite insertRankedServerEntry_ok; eauto.
Qed.

(** The store that writes, seen from the caller. *)
Lemma StoreServerEntry_writes (serverEntry : ServerEntry) (replaceIfExists : bool)
    (w : World) (db : boltDB) (data : bytes) (ranked ranked' : list string)
    (rankedData : bytes) :
  singleton_db w = Some db ->
  healthy (engine w) ->
  net_ParseIP (IpAddress serverEntry) = true ->
  (replaceIfExists = true
   \/ bucket_Get (serverEntries db) (IpAddress serverEntry) = None) ->
  json_Marshal_ServerEntry serverEntry = Ok data ->
  rankIndex db = Ok ranked ->
  insertRanked ranked (IpAddress serverEntry) 1 = Some ranked' ->
  json_Marshal_strings ranked' = Ok rankedData ->
  StoreServerEntry serverEntry replaceIfExists w
  = Done None
      (mkWorld
         (Some (set_rankedServerEntries
                  (set_serverEntries db
                     (bucket_insert (serverEntries db) (IpAddress serverEntry) data))
                  (bucket_insert (rankedServerEntries db)
                     rankedServerEntriesKey rankedData)))
         (engine w)
         (match bucket_Get (serverEntries db) (IpAddress serverEntry) with
          | Some _ => notices w
          | None => (notices w
                       ++ [NoticeInfoMsg ("updated server " ++ IpAddress serverEntry)])%list
          end)
         (globalRand w)).
Proof.
  intros Hdb [Hview [Hupdate [Hput Hcommit]]] Hip Hpath Hdata Hrank Hins Hmarshal.
  unfold StoreServerEntry, ValidateServerEntry, db_Update. run.
  rewrite Hdb, Hip, Hdb, Hupdate.
  erewrite storeServerEntryTx_writes; cbn [tx_db tx_engine]; eauto.
  rewrite Hcommit. cbn [tx_db].
  destruct (bucket_Get (serverEntries db) (IpAddress serverEntry)); reflexivity.
Qed.

(** C4: with a record already stored under address [p], storing another
    entry with that address and [replaceIfExists = false] returns no error
    and changes nothing (the stored record and the rank index are as
    before); with [replaceIfExists = true] the stored record becomes the
    serialization of the new entry. *)
Theorem StoreServerEntry_replace_semantics (w : World) (db : boltDB) (p : string)
    (stored : bytes) (serverEntry' : ServerEntry) :
  singleton_db w = Some db ->
  net_ParseIP p = true ->
  bucket_Get (serverEntries db) p = Some stored ->
  IpAddress serverEntry' = p ->
  (beginUpdate (engine w) = None -> commitFault (engine w) = None ->
   StoreServerEntry serverEntry' false w = Done None w)
  /\ (forall data' ranked,
        healthy (engine w) ->
        json_Marshal_ServerEntry serverEntry' = Ok data' ->
        rankIndex db = Ok ranked ->
        (forall l, exists rankedData, json_Marshal_strings l = Ok rankedData) ->
        exists w' db',
          StoreServerEntry serverEntry' true w = Done None w'
          /\ singleton_db w' = Some db'
          /\ bucket_Get (serverEntries db') p = Some data').
Proof.
  intros Hdb Hip Hstored Haddr. split.
  - intros Hupdate Hcommit.
    unfold StoreServerEntry, ValidateServerEntry, db_Update, storeServerEntryTx. run.
    rewrite Hdb, Haddr, Hip, Hdb, Hupdate. cbn [tx_db]. rewrite Hstored. cbn.
    rewrite Hcommit. cbn.
    destruct w as [odb eng nts rnd]. cbn in *. subst odb. reflexivity.
  - intros data' ranked Hhealthy Hdata Hrank Htotal. subst p.
    destruct (insertRanked_defined ranked (IpAddress serverEntry') (position := 1))
      as [ranked' Hins]; [auto|].
    destruct (Htotal ranked') as [rankedData Hmarshal].
    erewrite StoreServerEntry_writes; eauto.
    do 2 eexists. split; [reflexivity|]. split; [reflexivity|].
    cbn [serverEntries set_rankedServerEntries set_serverEntries].
    rewrite bucket_Get_insert, String.eqb_refl. reflexivity.
Qed.

(** *** The candidate iterator: what the calls preserve *)

Lemma sameFilter_refl (it : ServerEntryIterator) : sameFilter it it.
Proof. unfold sameFilter. auto. Qed.

Lemma sameFilter_trans (a b c : ServerEntryIterator) :
  sameFilter a b -> sameFilter b c -> sameFilter a c.
Proof. unfold sameFilter. intuition congruence. Qed.

Lemma nextLoop_preserves (pending : list string) :
  forall it w r it' w',
    nextLoop pending it w = Done (r, it') w' ->
    sameFilter it it' /\ targetServerEntry it' = targetServerEntry it.
Proof.
  induction pending as [|serverEntryId pending IH]; intros it w r it' w' H.
  - cbn in H. inversion H; subst. split; [apply sameFilter_refl | reflexivity].
  - cbn [nextLoop] in H. unfold bind in H.
    destruct (db_View _ w) as [[[data|]|e] w1|]; try discriminate;
      try (inversion H; subst; split; [unfold sameFilter; cbn; auto | reflexivity]).
    destruct (json_Unmarshal_ServerEntry data) as [serverEntry|e];
      try (inversion H; subst; split; [unfold sameFilter; cbn; auto | reflexivity]).
    destruct (matchesFilter _ _ serverEntry).
    + inversion H; subst; split; [unfold sameFilter; cbn; auto | reflexivity].
    + apply IH in H. destruct H as [Hs Ht]. cbn in Ht.
      split; [|exact Ht].
      eapply sameFilter_trans; [|exact Hs]. unfold sameFilter. cbn. auto.
Qed.

(** Every entry [nextLoop] hands out has passed the filter, before its
    normalization. *)
Lemma nextLoop_yields_match (pending : list string) :
  forall it w serverEntry it' w',
    nextLoop pending it w = Done (Ok (Some serverEntry), it') w' ->
    exists stored,
      serverEntry = MakeCompatibleServerEntry stored
      /\ matchesFilter (region it) (protocol it) stored = true.
Proof.
  induction pending as [|serverEntryId pending IH]; intros it w serverEntry it' w' H.
  - cbn in H. inversion H.
  - cbn [nextLoop] in H. unfold bind in H.
    destruct (db_View _ w) as [[[data|]|e] w1|]; try discriminate.
    destruct (json_Unmarshal_ServerEntry data) as [stored|e]; try discriminate.
    cbn [region protocol set_ids] in H.
    destruct (matchesFilter (region it) (protocol it) stored) eqn:Hmatch.
    + inversion H; subst. exists stored. auto.
    + apply IH in H. exact H.
Qed.

Lemma Next_preserves (it : ServerEntryIterator) (w : World) r it' w' :
  Next it w = Done (r, it') w' ->
  sameFilter it it'
  /\ (forall p,
        (forall e, targetServerEntry it = Some e -> serverEntrySupportsProtocol e p = true) ->
        forall e, targetServerEntry it' = Some e -> serverEntrySupportsProtocol e p = true).
Proof.
  unfold Next. intros H.
  destruct (isTargetServerEntryIterator it) eqn:Htarget.
  - destruct (hasNextTargetServerEntry it).
    + destruct (targetServerEntry it) as [e|] eqn:He; run; try discriminate.
      inversion H; subst. split.
      * unfold sameFilter. cbn. auto.
      * intros p Hp e' He'. cbn in He'. inversion He'; subst.
        unfold serverEntrySupportsProtocol.
        rewrite MakeCompatibleServerEntry_Capabilities.
        apply (Hp e eq_refl).
    + run. inversion H; subst. split; [apply sameFilter_refl | auto].
  - apply nextLoop_preserves in H. destruct H as [Hs Ht].
    split; [exact Hs|]. intros p Hp e He. rewrite Ht in He. auto.
Qed.

Lemma Reset_preserves (it : ServerEntryIterator) (w : World) r it' w' :
  Reset it w = Done (r, it') w' ->
  sameFilter it it' /\ targetServerEntry it' = targetServerEntry it.
Proof.
  unfold Reset. cbn [isTargetServerEntryIterator Close set_ids region protocol
                       shuffleHeadLength targetServerEntry].
  intros H.
  destruct (isTargetServerEntryIterator it) eqn:Htarget.
  - run. inversion H; subst. split; [unfold sameFilter; cbn; auto | reflexivity].
  - unfold bind in H.
    destruct (CountServerEntries _ _ w) as [count w1|]; try discriminate.
    destruct (NoticeCandidateServers _ _ count w1) as [[] w2|]; try discriminate.
    destruct (db_View resetTx w2) as [[ids|e] w3|]; try discriminate.
    + destruct (withGlobalRand (shuffleLoop _ _ ids) w3) as [ids' w4|]; try discriminate.
      unfold ret in H. inversion H; subst.
      split; [unfold sameFilter; cbn; auto | reflexivity].
    + unfold ret in H. inversion H; subst.
      split; [unfold sameFilter; cbn; auto | reflexivity].
Qed.

(** *** The protocol filter *)

Lemma newTargetServerEntryIterator_filtersOn (config : Config) (w : World) it w' :
  TunnelProtocol config <> "" ->
  newTargetServerEntryIterator config w = Done (Ok it) w' ->
  filtersOn (TunnelProtocol config) it.
Proof.
  intros Hp H. unfold newTargetServerEntryIterator in H.
  destruct (DecodeServerEntry (TargetServerEntry config)) as [pointer|e];
    [|discriminate].
  assert (String.eqb (TunnelProtocol config) "" = false) as Hne
    by (apply String.eqb_neq; exact Hp).
  rewrite Hne in H. cbn [negb] in H.
  destruct pointer as [serverEntry|].
  - run.
    destruct (negb (String.eqb (EgressRegion config) "")); cbn in H.
    + destruct (negb (String.eqb (Region serverEntry) (EgressRegion config)));
        [discriminate|].
      destruct (Contains (Capabilities serverEntry)
                  (strings_TrimSuffix (TunnelProtocol config) "-OSSH")) eqn:Hc;
        cbn in H; [|discriminate].
      inversion H; subst. unfold filtersOn. cbn.
      intros e He. inversion He; subst. exact Hc.
    + destruct (Contains (Capabilities serverEntry)
                  (strings_TrimSuffix (TunnelProtocol config) "-OSSH")) eqn:Hc;
        cbn in H; [|discriminate].
      inversion H; subst. unfold filtersOn. cbn.
      intros e He. inversion He; subst. exact Hc.
  - run.
    destruct (negb (String.eqb (EgressRegion config) "")); cbn in H; discriminate.
Qed.

Lemma NewServerEntryIterator_filtersOn (config : Config) (w : World) it w' :
  TunnelProtocol config <> "" ->
  NewServerEntryIterator config w = Done (Ok it) w' ->
  filtersOn (TunnelProtocol config) it.
Proof.
  intros Hp H. unfold NewServerEntryIterator in H.
  destruct (negb (String.eqb (TargetServerEntry config) "")).
  - eapply newTargetServerEntryIterator_filtersOn; eauto.
  - unfold bind in H.
    destruct (checkInitDataStore w) as [[] w1|]; [|discriminate].
    destruct (Reset _ w1) as [[[err|] it1] w2|] eqn:HR; try discriminate.
    unfold ret in H. inversion H; subst.
    apply Reset_preserves in HR. destruct HR as [[_ [Hprot [_ Htarget]]] _].
    unfold filtersOn. rewrite Htarget. cbn. cbn in Hprot. exact Hprot.
Qed.

Lemma reachable_filtersOn (p : string) (start it : ServerEntryIterator) :
  filtersOn p start -> reachable start it -> filtersOn p it.
Proof.
  intros Hstart Hreach.
  induction Hreach as [|it w r it' w' _ IH HN|it w r it' w' _ IH HR|it _ IH].
  - exact Hstart.
  - apply Next_preserves in HN. destruct HN as [[_ [Hprot [_ Htarget]]] Hsupp].
    unfold filtersOn in *. rewrite Htarget.
    destruct (isTargetServerEntryIterator it).
    + apply Hsupp. exact IH.
    + congruence.
  - apply Reset_preserves in HR. destruct HR as [[_ [Hprot [_ Htarget]]] Ht].
    unfold filtersOn in *. rewrite Htarget, Ht.
    destruct (isTargetServerEntryIterator it); [exact IH | congruence].
  - exact IH.
Qed.

(** C8: an iterator built with a non-empty protocol filter hands out, in
    any sequence of [Next] (and [Reset], [Close]) calls and whatever the
    store holds at each call, only entries whose capabilities contain the protocol
    name without its "-OSSH" suffix. *)
Theorem Next_yields_only_supporting (config : Config) (w0 w1 : World)
    (start it : ServerEntryIterator) (w : World) (serverEntry : ServerEntry)
    (it' : ServerEntryIterator) (w' : World) :
  TunnelProtocol config <> "" ->
  NewServerEntryIterator config w0 = Done (Ok start) w1 ->
  reachable start it ->
  Next it w = Done (Ok (Some serverEntry), it') w' ->
  Contains (Capabilities serverEntry)
    (strings_TrimSuffix (TunnelProtocol config) "-OSSH") = true.
Proof.
  intros Hp Hnew Hreach Hnext.
  assert (filtersOn (TunnelProtocol config) it) as Hinv.
  { eapply reachable_filtersOn; [|exact Hreach].
    eapply NewServerEntryIterator_filtersOn; eauto. }
  unfold filtersOn in Hinv. unfold Next in Hnext.
  destruct (isTargetServerEntryIterator it).
  - destruct (hasNextTargetServerEntry it).
    + destruct (targetServerEntry it) as [e|]; run; [|discriminate].
      inversion Hnext; subst.
      rewrite MakeCompatibleServerEntry_Capabilities.
      apply (Hinv e eq_refl).
    + run. discriminate.
  - apply nextLoop_yields_match in Hnext.
    destruct Hnext as [stored [Heq Hmatch]]. subst serverEntry.
    rewrite MakeCompatibleServerEntry_Capabilities.
    rewrite Hinv in Hmatch. unfold matchesFilter in Hmatch.
    apply andb_true_iff in Hmatch. destruct Hmatch as [_ Hmatch].
    apply String.eqb_neq in Hp. rewrite Hp in Hmatch. exact Hmatch.
Qed.

(** *** Decoding a list of entries *)

Lemma length_zero_empty (s : string) : (String.length s =? 0)%nat = true <-> s = "".
Proof.
  destruct s; cbn; split; intros H; try reflexivity; discriminate.
Qed.

(** When every non-empty line decodes to an entry, the result is the
    entries that validate, in the order of their lines; the store is not
    touched. *)
Lemma decodeAndValidateLines_valid (lines : list string) (decoded : list ServerEntry) :
  decodesTo lines decoded ->
  forall acc w,
  exists w',
    decodeAndValidateLines lines acc w
    = Done (Ok (acc ++ filter (fun e => net_ParseIP (IpAddress e)) decoded)%list) w'
    /\ singleton_db w' = singleton_db w.
Proof.
  induction 1 as [|lines decoded _ IH|line lines e decoded Hne Hdec _ IH]; intros acc w.
  - cbn. unfold ret. rewrite app_nil_r. eauto.
  - cbn. apply IH.
  - cbn [decodeAndValidateLines].
    destruct (String.length line =? 0)%nat eqn:Hlen.
    + apply length_zero_empty in Hlen. contradiction.
    + rewrite Hdec. unfold ValidateServerEntry. run. cbn [filter].
      destruct (net_ParseIP (IpAddress e)).
      * destruct (IH (acc ++ [e])%list w) as [w' [Hrun Hdb]].
        exists w'. rewrite Hrun, <- app_assoc. auto.
      * match goal with
        | |- context [decodeAndValidateLines lines acc ?w1] =>
            destruct (IH acc w1) as [w' [Hrun Hdb]]
        end.
        exists w'. rewrite Hrun. auto.
Qed.

(** A line that does not decode is fatal to the whole call. *)
Lemma decodeAndValidateLines_decode_error (good : list string) (decoded : list ServerEntry)
    (line : string) (rest : list string) (e : error) :
  decodesTo good decoded ->
  line <> "" ->
  DecodeServerEntry line = Err e ->
  forall acc w,
  exists w',
    decodeAndValidateLines (good ++ line :: rest) acc w
    = Done (Err (ContextError "DecodeAndValidateServerEntryList" e)) w'.
Proof using Type.
  intros Hgood Hne Hdec.
  induction Hgood as [|lines decoded _ IH|l lines x decoded Hl Hx _ IH]; intros acc w.
  - cbn [app decodeAndValidateLines].
    destruct (String.length line =? 0)%nat eqn:Hlen.
    + apply length_zero_empty in Hlen. contradiction.
    + rewrite Hdec. unfold ret. eauto.
  - cbn. apply IH.
  - cbn [app decodeAndValidateLines].
    destruct (String.length l =? 0)%nat eqn:Hlen.
    + apply length_zero_empty in Hlen. contradiction.
    + rewrite Hx. unfold ValidateServerEntry. run.
      destruct (net_ParseIP (IpAddress x)); apply IH.
Qed.

(** C7 at its failing input: the one-line list that hex-decodes to
    [a b c d null].  [encoding/json] decodes the literal [null] into the
    [*ServerEntry] as a nil pointer and reports no error; the list decoder
    then dereferences it in [ValidateServerEntry] and the call panics
    instead of returning entries or an error. *)
Theorem DecodeAndValidateServerEntryList_null_entry (w : World) :
  json_decode_ServerEntry "null" = Ok jsonNull ->
  DecodeServerEntry "61206220632064206e756c6c" = Ok None
  /\ DecodeAndValidateServerEntryList "61206220632064206e756c6c" w
     = Panicked "invalid memory address or nil pointer dereference".
Proof.
  intros Hnull.
  assert (DecodeServerEntry "61206220632064206e756c6c" = Ok None) as Hdec.
  { unfold DecodeServerEntry, json_Unmarshal_ServerEntryPtr.
    cbn. rewrite Hnull. reflexivity. }
  split; [exact Hdec|].
  unfold DecodeAndValidateServerEntryList.
  cbn [strings_Split Ascii.eqb Bool.eqb].
  cbn [decodeAndValidateLines String.length Nat.eqb].
  rewrite Hdec. reflexivity.
Qed.

(** *** Engine failures *)

Lemma db_Update_begin_fault {A : Type} (fn : M Tx (result A)) (w : World) (db : boltDB)
    (e : error) :
  singleton_db w = Some db -> beginUpdate (engine w) = Some e ->
  db_Update fn w = Done (Err e) w.
Proof. intros Hdb He. unfold db_Update. rewrite Hdb, He. reflexivity. Qed.

Lemma db_Update_commit_fault {A : Type} (fn : M Tx (result A)) (w : World) (db : boltDB)
    (e : error) (a : A) (tx' : Tx) :
  singleton_db w = Some db -> beginUpdate (engine w) = None ->
  fn (mkTx db (engine w)) = Done (Ok a) tx' ->
  commitFault (engine w) = Some e ->
  db_Update fn w = Done (Err e) w.
Proof.
  intros Hdb Hb Hfn He. unfold db_Update. rewrite Hdb, Hb, Hfn, He. reflexivity.
Qed.

Lemma db_View_begin_fault {A : Type} (fn : M Tx (result A)) (w : World) (db : boltDB)
    (e : error) :
  singleton_db w = Some db -> beginView (engine w) = Some e ->
  db_View fn w = Done (Err e) w.
Proof. intros Hdb He. unfold db_View. rewrite Hdb, He. reflexivity. Qed.

#[local] Hint Constructors wraps : core.

(** [CountServerEntries] on an engine that cannot be read: the failure
    becomes an alert notice and the count 0. *)
Lemma CountServerEntries_read_failure (region protocol : string) (w : World)
    (db : boltDB) (e : error) :
  singleton_db w = Some db -> beginView (engine w) = Some e ->
  CountServerEntries region protocol w
  = Done 0
      (mkWorld (Some db) (engine w)
         (notices w
            ++ [NoticeAlertMsg
                  ("CountServerEntries failed: "
                   ++ error_string (ContextError "scanServerEntries" e))])%list
         (globalRand w)).
Proof.
  intros Hdb He.
  unfold CountServerEntries, scanServerEntries. run.
  rewrite Hdb. unfold db_View. rewrite Hdb, He. cbn. rewrite Hdb. reflexivity.
Qed.

(** The server entry operations and the iterator under an engine
    failure. *)
Lemma entries_engine_failure (w : World) (db : boltDB) (e : error) :
  singleton_db w = Some db ->
  (beginUpdate (engine w) = Some e ->
     (forall serverEntry replaceIfExists,
        net_ParseIP (IpAddress serverEntry) = true ->
        exists err,
          StoreServerEntry serverEntry replaceIfExists w = Done (Some err) w
          /\ wraps err e)
     /\ (forall ipAddress,
           exists err,
             PromoteServerEntry ipAddress w = Done (Some err) w /\ wraps err e))
  /\ (beginUpdate (engine w) = None ->
      (forall serverEntry replaceIfExists data,
         net_ParseIP (IpAddress serverEntry) = true ->
         (replaceIfExists = true
          \/ bucket_Get (serverEntries db) (IpAddress serverEntry) = None) ->
         json_Marshal_ServerEntry serverEntry = Ok data ->
         putFault (engine w) serverEntriesBucket (IpAddress serverEntry) = Some e ->
         exists err,
           StoreServerEntry serverEntry replaceIfExists w = Done (Some err) w
           /\ wraps err e)
      /\ (forall serverEntry replaceIfExists data ranked ranked' rankedData,
            net_ParseIP (IpAddress serverEntry) = true ->
            (replaceIfExists = true
             \/ bucket_Get (serverEntries db) (IpAddress serverEntry) = None) ->
            json_Marshal_ServerEntry serverEntry = Ok data ->
            putFault (engine w) serverEntriesBucket (IpAddress serverEntry) = None ->
            rankIndex db = Ok ranked ->
            insertRanked ranked (IpAddress serverEntry) 1 = Some ranked' ->
            json_Marshal_strings ranked' = Ok rankedData ->
            putFault (engine w) rankedServerEntriesBucket rankedServerEntriesKey = Some e ->
            exists err,
              StoreServerEntry serverEntry replaceIfExists w = Done (Some err) w
              /\ wraps err e)
      /\ (forall ipAddress ranked ranked' data,
            rankIndex db = Ok ranked ->
            insertRanked ranked ipAddress 0 = Some ranked' ->
            json_Marshal_strings ranked' = Ok data ->
            putFault (engine w) rankedServerEntriesBucket rankedServerEntriesKey = Some e ->
            exists err,
              PromoteServerEntry ipAddress w = Done (Some err) w /\ wraps err e)
      /\ (commitFault (engine w) = Some e ->
          (forall serverEntry replaceIfExists serverEntryExists tx',
             net_ParseIP (IpAddress serverEntry) = true ->
             storeServerEntryTx serverEntry replaceIfExists (mkTx db (engine w))
             = Done (Ok serverEntryExists) tx' ->
             exists err,
               StoreServerEntry serverEntry replaceIfExists w = Done (Some err) w
               /\ wraps err e)
          /\ (forall ipAddress tx',
                insertRankedServerEntry ipAddress 0 (mkTx db (engine w)) = Done None tx' ->
                exists err,
                  PromoteServerEntry ipAddress w = Done (Some err) w /\ wraps err e)))
  /\ (beginView (engine w) = Some e ->
      (exists err, GetServerEntryIpAddresses w = Done (Err err) w /\ wraps err e)
      /\ (forall it,
            isTargetServerEntryIterator it = false ->
            exists err it' w',
              Reset it w = Done (Some err, it') w' /\ wraps err e
              /\ singleton_db w' = Some db)
      /\ (forall it,
            isTargetServerEntryIterator it = false ->
            skipn (serverEntryIndex it) (serverEntryIds it) <> [] ->
            exists err it', Next it w = Done (Err err, it') w /\ wraps err e)
      /\ (forall region protocol,
            CountServerEntries region protocol w
            = Done 0
                (mkWorld (Some db) (engine w)
                   (notices w
                      ++ [NoticeAlertMsg
                            ("CountServerEntries failed: "
                             ++ error_string (ContextError "scanServerEntries" e))])%list
                   (globalRand w)))).
Proof.
  intros Hdb. split; [|split].
  - intros He. split.
    + intros serverEntry replaceIfExists Hip.
      unfold StoreServerEntry, ValidateServerEntry. run.
      rewrite Hdb, Hip. rewrite (db_Update_begin_fault _ w Hdb He).
      eexists. split; [reflexivity | auto].
    + intros ipAddress. unfold PromoteServerEntry. run.
      rewrite Hdb. rewrite (db_Update_begin_fault _ w Hdb He).
      eexists. split; [reflexivity | auto].
  - intros Hb. split; [|split; [|split]].
    + intros serverEntry replaceIfExists data Hip Hpath Hdata Hput.
      unfold StoreServerEntry, ValidateServerEntry, db_Update. run.
      rewrite Hdb, Hip, Hdb, Hb.
      unfold storeServerEntryTx, serverEntries_Put. run.
      assert ((match bucket_Get (serverEntries db) (IpAddress serverEntry) with
               | Some _ => true
               | None => false
               end) && negb replaceIfExists = false) as Hcond.
      { destruct Hpath as [H|H]; rewrite H; [apply andb_false_r | reflexivity]. }
      rewrite Hcond, Hdata. cbn [tx_db tx_engine]. rewrite Hput.
      eexists. split; [reflexivity | auto].
    + intros serverEntry replaceIfExists data ranked ranked' rankedData
             Hip Hpath Hdata Hput1 Hrank Hins Hmarshal Hput2.
      unfold StoreServerEntry, ValidateServerEntry, db_Update. run.
      rewrite Hdb, Hip, Hdb, Hb.
      unfold storeServerEntryTx, serverEntries_Put. run.
      assert ((match bucket_Get (serverEntries db) (IpAddress serverEntry) with
               | Some _ => true
               | None => false
               end) && negb replaceIfExists = false) as Hcond.
      { destruct Hpath as [H|H]; rewrite H; [apply andb_false_r | reflexivity]. }
      rewrite Hcond, Hdata. cbn [tx_db tx_engine]. rewrite Hput1.
      unfold insertRankedServerEntry, bind.
      rewrite getRankedServerEntries_run. cbn [tx_db].
      rewrite rankIndex_set_serverEntries, Hrank, Hins.
      unfold setRankedServerEntries, rankedServerEntries_Put. run.
      rewrite Hmarshal. cbn [tx_db tx_engine]. rewrite Hput2.
      eexists. split; [reflexivity | auto 6].
    + intros ipAddress ranked ranked' data Hrank Hins Hdata Hput.
      unfold PromoteServerEntry, db_Update. run.
      rewrite Hdb, Hdb, Hb.
      unfold insertRankedServerEntry, bind.
      rewrite getRankedServerEntries_run. cbn [tx_db]. rewrite Hrank, Hins.
      unfold setRankedServerEntries, rankedServerEntries_Put. run.
      rewrite Hdata. cbn [tx_db tx_engine]. rewrite Hput.
      eexists. split; [reflexivity | auto].
    + intros He. split.
      * intros serverEntry replaceIfExists serverEntryExists tx' Hip Htx.
        unfold StoreServerEntry, ValidateServerEntry. run.
        rewrite Hdb, Hip. rewrite (db_Update_commit_fault _ w Hdb Hb Htx He).
        eexists. split; [reflexivity | auto].
      * intros ipAddress tx' Htx.
        unfold PromoteServerEntry. run.
        rewrite Hdb.
        erewrite db_Update_commit_fault with (a := tt) (tx' := tx') (e := e);
          [ | exact Hdb | exact Hb | unfold bind, ret; rewrite Htx; reflexivity | exact He ].
        eexists. split; [reflexivity | auto].
  - intros He. split; [|split; [|split]].
    + unfold GetServerEntryIpAddresses, scanServerEntries. run.
      rewrite Hdb. rewrite (db_View_begin_fault _ w Hdb He).
      eexists. split; [reflexivity | auto].
    + intros it Htarget. unfold Reset.
      cbn [isTargetServerEntryIterator Close set_ids region protocol].
      rewrite Htarget. unfold bind.
      rewrite (CountServerEntries_read_failure _ _ w Hdb He).
      unfold NoticeCandidateServers, emit. cbn.
      unfold db_View. cbn. rewrite He. unfold ret.
      do 3 eexists. split; [reflexivity|]. split; [auto | reflexivity].
    + intros it Htarget Hpending. unfold Next. rewrite Htarget.
      destruct (skipn (serverEntryIndex it) (serverEntryIds it)) as [|serverEntryId pending];
        [contradiction|].
      cbn [nextLoop]. unfold bind.
      rewrite (db_View_begin_fault _ w Hdb He). unfold ret.
      do 2 eexists. split; [reflexivity | auto].
    + intros region protocol. apply CountServerEntries_read_failure; assumption.
Qed.

(** The setters of the small buckets under an engine failure. *)
Lemma setters_begin_fault (w : World) (db : boltDB) (e : error) :
  singleton_db w = Some db ->
  beginUpdate (engine w) = Some e ->
  (forall key value,
     SetKeyValue key value w = Done (Some (ContextError "SetKeyValue" e)) w)
  /\ (forall url etag,
        SetUrlETag url etag w = Done (Some (ContextError "SetUrlETag" e)) w)
  /\ (forall region etag data,
        SetSplitTunnelRoutes region etag data w
        = Done (Some (ContextError "SetSplitTunnelRoutes" e)) w).
Proof.
  intros Hdb He. destruct w as [odb eng nts rnd]. cbn in Hdb, He. subst odb.
  repeat split; intros;
    unfold SetKeyValue, SetUrlETag, SetSplitTunnelRoutes, checkInitDataStore,
      db_Update, bind, ret;
    cbn [singleton_db engine]; rewrite He; reflexivity.
Qed.

Lemma setters_put_fault (w : World) (db : boltDB) (e : error) :
  singleton_db w = Some db ->
  beginUpdate (engine w) = None ->
  (forall key value,
     putFault (engine w) keyValueBucket key = Some e ->
     SetKeyValue key value w = Done (Some (ContextError "SetKeyValue" e)) w)
  /\ (forall url etag,
        putFault (engine w) urlETagsBucket url = Some e ->
        SetUrlETag url etag w = Done (Some (ContextError "SetUrlETag" e)) w)
  /\ (forall region etag data,
        putFault (engine w) splitTunnelRouteDataBucket region = Some e ->
        SetSplitTunnelRoutes region etag data w
        = Done (Some (ContextError "SetSplitTunnelRoutes" e)) w).
Proof.
  intros Hdb Hb. destruct w as [odb eng nts rnd]. cbn in Hdb, Hb |- *. subst odb.
  split; [|split].
  - intros key value Hput.
    unfold SetKeyValue, checkInitDataStore, db_Update, bucket_Put, bind, ret.
    cbn [singleton_db engine tx_engine tx_db]. rewrite Hb, Hput. reflexivity.
  - intros url etag Hput.
    unfold SetUrlETag, checkInitDataStore, db_Update, bucket_Put, bind, ret.
    cbn [singleton_db engine tx_engine tx_db]. rewrite Hb, Hput. reflexivity.
  - intros region etag data Hput.
    unfold SetSplitTunnelRoutes, checkInitDataStore, db_Update, bucket_Put, bind, ret.
    cbn [singleton_db engine tx_engine tx_db]. rewrite Hb.
    destruct (putFault eng splitTunnelRouteETagsBucket region);
      cbn [tx_engine tx_db]; rewrite Hput; reflexivity.
Qed.

Lemma setters_commit_fault (w : World) (db : boltDB) (e : error) :
  singleton_db w = Some db ->
  beginUpdate (engine w) = None ->
  commitFault (engine w) = Some e ->
  (forall key value,
     putFault (engine w) keyValueBucket key = None ->
     SetKeyValue key value w = Done (Some (ContextError "SetKeyValue" e)) w)
  /\ (forall url etag,
        putFault (engine w) urlETagsBucket url = None ->
        SetUrlETag url etag w = Done (Some (ContextError "SetUrlETag" e)) w)
  /\ (forall region etag data,
        putFault (engine w) splitTunnelRouteDataBucket region = None ->
        SetSplitTunnelRoutes region etag data w
        = Done (Some (ContextError "SetSplitTunnelRoutes" e)) w).
Proof.
  intros Hdb Hb Hc. destruct w as [odb eng nts rnd]. cbn in Hdb, Hb, Hc |- *. subst odb.
  split; [|split].
  - intros key value Hput.
    unfold SetKeyValue, checkInitDataStore, db_Update, bucket_Put, bind, ret.
    cbn [singleton_db engine tx_engine tx_db]. rewrite Hb, Hput, Hc. reflexivity.
  - intros url etag Hput.
    unfold SetUrlETag, checkInitDataStore, db_Update, bucket_Put, bind, ret.
    cbn [singleton_db engine tx_engine tx_db]. rewrite Hb, Hput, Hc. reflexivity.
  - intros region etag data Hput.
    unfold SetSplitTunnelRoutes, checkInitDataStore, db_Update, bucket_Put, bind, ret.
    cbn [singleton_db engine tx_engine tx_db]. rewrite Hb.
    destruct (putFault eng splitTunnelRouteETagsBucket region);
      cbn [tx_engine tx_db]; rewrite Hput, Hc; reflexivity.
Qed.

(** [SetSplitTunnelRoutes] overwrites the result of the ETag write with
    the result of the data write. *)
Lemma SetSplitTunnelRoutes_etag_fault (region etag : string) (data : bytes)
    (w : World) (db : boltDB) (e : error) :
  singleton_db w = Some db ->
  beginUpdate (engine w) = None ->
  putFault (engine w) splitTunnelRouteETagsBucket region = Some e ->
  putFault (engine w) splitTunnelRouteDataBucket region = None ->
  commitFault (engine w) = None ->
  SetSplitTunnelRoutes region etag data w
  = Done None
      (set_db w (set_splitTunnelRouteData db
                   (bucket_insert (splitTunnelRouteData db) region data))).
Proof.
  intros Hdb Hb Hetag Hdata Hc.
  destruct w as [odb eng nts rnd]. cbn in Hdb, Hb, Hetag, Hdata, Hc |- *. subst odb.
  unfold SetSplitTunnelRoutes, checkInitDataStore, db_Update, bucket_Put, bind, ret.
  cbn [singleton_db engine tx_engine tx_db]. rewrite Hb, Hetag.
  cbn [tx_engine tx_db]. rewrite Hdata, Hc. reflexivity.
Qed.

(** The getters of the small buckets on an engine that cannot be read. *)
Lemma getters_begin_fault (w : World) (db : boltDB) (e : error) :
  singleton_db w = Some db ->
  beginView (engine w) = Some e ->
  (forall key, GetKeyValue key w = Done (Err (ContextError "GetKeyValue" e)) w)
  /\ (forall url, GetUrlETag url w = Done (Err (ContextError "GetUrlETag" e)) w)
  /\ (forall region,
        GetSplitTunnelRoutesETag region w
        = Done (Err (ContextError "GetSplitTunnelRoutesETag" e)) w)
  /\ (forall region,
        GetSplitTunnelRoutesData region w
        = Done (Err (ContextError "GetSplitTunnelRoutesData" e)) w).
Proof.
  intros Hdb He. destruct w as [odb eng nts rnd]. cbn in Hdb, He. subst odb.
  repeat split; intros;
    unfold GetKeyValue, GetUrlETag, GetSplitTunnelRoutesETag, GetSplitTunnelRoutesData,
      checkInitDataStore, db_View, bind, ret;
    cbn [singleton_db engine]; rewrite He; reflexivity.
Qed.


(** *** The length of the rank index *)

Lemma Some_inj {A : Type} (a b : A) : Some a = Some b -> a = b.
Proof. intros H. congruence. Qed.

Lemma slice_length {A : Type} (l : list A) (lo hi : nat) :
  length (slice l lo hi) = Nat.min (hi - lo) (length l - lo).
Proof. unfold slice. rewrite length_firstn, length_skipn. reflexivity. Qed.

(** An insertion at position 1 lengthens the list by one up to 101
    elements, and leaves it at 101 from then on: with 100 elements or more
    [end] is 100, and one element is put before the 100 that are kept. *)
Lemma insertRanked_1_length (ranked ranked' : list string) (serverEntryId : string) :
  insertRanked ranked serverEntryId 1 = Some ranked' ->
  length ranked' = Nat.min (S (length ranked)) 101.
Proof.
  unfold insertRanked, rankedServerEntryCount.
  destruct (1 >=? Z.of_nat (length ranked)) eqn:Hge.
  - intros H. inversion H; subst. rewrite length_app. cbn.
    rewrite Z.geb_leb in Hge. apply Z.leb_le in Hge. lia.
  - rewrite Z.geb_leb in Hge. apply Z.leb_gt in Hge.
    destruct (Z.of_nat (length ranked) + 1 >? 100) eqn:Hcap.
    + replace ((1 <? 0) || (100 <? 1)) with false by reflexivity.
      cbv iota. intros H. apply Some_inj in H. rewrite <- H.
      rewrite length_app, length_firstn. cbn [length app].
      rewrite slice_length.
      apply Z.gtb_lt in Hcap. lia.
    + destruct ((1 <? 0) || (Z.of_nat (length ranked) <? 1)) eqn:Hb.
      * apply orb_true_iff in Hb. destruct Hb as [Hb|Hb].
        -- discriminate.
        -- apply Z.ltb_lt in Hb. lia.
      * intros H. apply Some_inj in H. rewrite <- H.
        rewrite length_app, length_firstn. cbn [length app].
        rewrite slice_length.
        rewrite Z.gtb_ltb in Hcap. apply Z.ltb_ge in Hcap. lia.
Qed.

(** Storing distinct, valid, not yet stored entries one after the other
    adds one element to the rank index per store until it holds 101. *)
Lemma storeEach_rank_length (entries : list ServerEntry) :
  marshalsEntries -> stringsRoundTrip ->
  forall replaceIfExists w db ranked,
    singleton_db w = Some db ->
    healthy (engine w) ->
    rankIndex db = Ok ranked ->
    (length ranked <= 101)%nat ->
    Forall (fun e => net_ParseIP (IpAddress e) = true) entries ->
    NoDup (map IpAddress entries) ->
    (forall e, In e entries -> bucket_Get (serverEntries db) (IpAddress e) = None) ->
    exists w' db' ranked',
      storeEach entries replaceIfExists w = Done None w'
      /\ singleton_db w' = Some db'
      /\ engine w' = engine w
      /\ rankIndex db' = Ok ranked'
      /\ length ranked' = Nat.min (length ranked + length entries) 101.
Proof.
  intros Hentries Hstrings.
  induction entries as [|e entries IH];
    intros replaceIfExists w db ranked Hdb Hhealthy Hrank Hlen Hvalid Hnodup Hfresh.
  - cbn. unfold ret. exists w, db, ranked.
    repeat split; auto. lia.
  - cbn [storeEach]. unfold bind.
    inversion Hvalid as [|? ? Hip Hvalid']; subst.
    cbn [map] in Hnodup. inversion Hnodup as [|? ? Hnotin Hnodup']; subst.
    destruct (Hentries e) as [data Hdata].
    destruct (insertRanked_defined ranked (IpAddress e) (position := 1))
      as [ranked1 Hins]; [auto|].
    destruct (Hstrings ranked1) as [rankedData [Hmarshal Hunmarshal]].
    erewrite StoreServerEntry_writes; eauto.
    2:{ right. apply Hfresh. left. reflexivity. }
    match goal with
    | |- context [storeEach entries replaceIfExists ?w1] =>
        destruct (IH replaceIfExists w1 _ ranked1 eq_refl) as [w' [db' [ranked' H]]]
    end.
    + exact Hhealthy.
    + rewrite rankIndex_after_insert. exact Hunmarshal.
    + apply insertRanked_1_length in Hins. lia.
    + exact Hvalid'.
    + exact Hnodup'.
    + intros e' Hin.
      cbn [serverEntries set_rankedServerEntries set_serverEntries].
      rewrite bucket_Get_insert.
      destruct (String.eqb (IpAddress e) (IpAddress e')) eqn:Heq.
      * apply String.eqb_eq in Heq. exfalso. apply Hnotin. rewrite Heq.
        apply in_map. exact Hin.
      * apply Hfresh. right. exact Hin.
    + destruct H as [Hrun [Hdb' [Heng [Hrank' Hlen']]]].
      exists w', db', ranked'. rewrite Hrun.
      repeat split; auto.
      apply insertRanked_1_length in Hins. cbn [length]. lia.
Qed.

(** C2 at its failing input: 150 distinct valid entries stored one after
    the other in an empty store leave a rank index of 101 elements, one
    more than [rankedServerEntryCount]. *)
Theorem rank_index_exceeds_cap (entries : list ServerEntry) (replaceIfExists : bool)
    (w : World) (db : boltDB) :
  marshalsEntries -> stringsRoundTrip ->
  singleton_db w = Some db ->
  healthy (engine w) ->
  serverEntries db = [] ->
  rankedServerEntries db = [] ->
  length entries = 150%nat ->
  Forall (fun e => net_ParseIP (IpAddress e) = true) entries ->
  NoDup (map IpAddress entries) ->
  exists w' db' ranked',
    storeEach entries replaceIfExists w = Done None w'
    /\ singleton_db w' = Some db'
    /\ rankIndex db' = Ok ranked'
    /\ length ranked' = 101%nat
    /\ Z.of_nat (length ranked') > rankedServerEntryCount.
Proof.
  intros Hentries Hstrings Hdb Hhealthy Hempty Hranked Hlen Hvalid Hnodup.
  destruct (storeEach_rank_length (entries := entries) Hentries Hstrings
              replaceIfExists w (db := db) (ranked := []) Hdb Hhealthy)
    as [w' [db' [ranked' H]]].
  - unfold rankIndex. rewrite Hranked. reflexivity.
  - cbn. lia.
  - exact Hvalid.
  - exact Hnodup.
  - intros e _. rewrite Hempty. reflexivity.
  - destruct H as [Hrun [Hdb' [_ [Hrank' Hlen']]]].
    exists w', db', ranked'. rewrite Hlen in Hlen'. cbn in Hlen'.
    unfold rankedServerEntryCount.
    repeat split; auto. lia.
Qed.

(** *** Promotion and Reset, seen from the caller *)

Lemma PromoteServerEntry_writes (ipAddress : string) (w : World) (db : boltDB)
    (ranked ranked' : list string) (data : bytes) :
  singleton_db w = Some db ->
  healthy (engine w) ->
  rankIndex db = Ok ranked ->
  insertRanked ranked ipAddress 0 = Some ranked' ->
  json_Marshal_strings ranked' = Ok data ->
  PromoteServerEntry ipAddress w
  = Done None
      (mkWorld
         (Some (set_rankedServerEntries db
                  (bucket_insert (rankedServerEntries db) rankedServerEntriesKey data)))
         (engine w) (notices w) (globalRand w)).
Proof.
  intros Hdb [Hview [Hupdate [Hput Hcommit]]] Hrank Hins Hmarshal.
  unfold PromoteServerEntry, db_Update. run.
  rewrite Hdb, Hdb, Hupdate.
  erewrite insertRankedServerEntry_ok; cbn [tx_db tx_engine]; eauto.
  rewrite Hcommit. reflexivity.
Qed.

(** [CountServerEntries] changes nothing but the notices. *)
Lemma CountServerEntries_frame (region protocol : string) (w : World) (db : boltDB) :
  singleton_db w = Some db ->
  exists count notices',
    CountServerEntries region protocol w
    = Done count (mkWorld (Some db) (engine w) notices' (globalRand w)).
Proof.
  intros Hdb. destruct w as [odb eng nts rnd]. cbn in Hdb. subst odb.
  unfold CountServerEntries, scanServerEntries, db_View. run.
  destruct (beginView eng).
  - do 2 eexists. reflexivity.
  - destruct (scanBucket _ (serverEntries db) 0).
    + do 2 eexists. reflexivity.
    + do 2 eexists. reflexivity.
Qed.

(** [Reset] of a repository-backed iterator on a readable store: the
    candidate list is shuffled with the global random source, and only the
    notices and that source change. *)
Lemma Reset_candidates (it : ServerEntryIterator) (w : World) (db : boltDB)
    (ranked : list string) :
  singleton_db w = Some db ->
  beginView (engine w) = None ->
  isTargetServerEntryIterator it = false ->
  rankIndex db = Ok ranked ->
  exists notices',
    Reset it w
    = match shuffleLoop (length (candidateList ranked db)) (shuffleHeadLength it)
              (candidateList ranked db) (globalRand w) with
      | Done ids r =>
          Done (None, set_ids (Close it) ids 0)
            (mkWorld (Some db) (engine w) notices' r)
      | Panicked msg => Panicked msg
      end.
Proof.
  intros Hdb Hview Htarget Hrank.
  destruct (CountServerEntries_frame (region it) (protocol it) w Hdb)
    as [count [nts Hcount]].
  unfold Reset.
  cbn [isTargetServerEntryIterator Close set_ids region protocol shuffleHeadLength].
  rewrite Htarget. unfold bind. rewrite Hcount.
  unfold NoticeCandidateServers, emit. cbn [singleton_db engine notices globalRand].
  unfold db_View. cbn [singleton_db engine]. rewrite Hview.
  unfold resetTx, bind. rewrite getRankedServerEntries_run. cbn [tx_db].
  rewrite Hrank. unfold get, ret, withGlobalRand. cbn [globalRand tx_db].
  fold (candidateList ranked db).
  eexists.
  destruct (shuffleLoop _ _ (candidateList ranked db) (globalRand w)); reflexivity.
Qed.

(** When every stored id is ranked, the candidate list is the rank
    index. *)
Lemma candidateList_all_ranked (ranked : list string) (db : boltDB) :
  (forall k, In k (map fst (serverEntries db)) -> In k ranked) ->
  candidateList ranked db = ranked.
Proof.
  intros Hall. unfold candidateList, bucket_keys_descending.
  assert (forall keys, (forall k, In k keys -> In k ranked) ->
          filter (fun k => negb (existsb (String.eqb k) ranked)) keys = []) as Hfilter.
  { induction keys as [|k keys IH]; intros Hin; [reflexivity|].
    cbn [filter].
    assert (existsb (String.eqb k) ranked = true) as Hk.
    { apply existsb_exists. exists k. split.
      - apply Hin. left. reflexivity.
      - apply String.eqb_refl. }
    rewrite Hk. cbn. apply IH. intros k' Hk'. apply Hin. right. exact Hk'. }
  rewrite Hfilter.
  - apply app_nil_r.
  - intros k Hk. apply Hall. apply in_rev. exact Hk.
Qed.

(** *** The shuffle reaches into the head *)

(** C1 at its failing input: ten distinct ids ranked [r0 .. r9], all
    stored, head length 3.  With every draw of [rand.Intn] equal to 0 the
    reset puts [r3] at the front, and with every draw equal to 1 it puts
    [r3] second: the first three candidates are not the rank prefix, and
    they differ from one reset to the other. *)
Theorem Reset_moves_head (r0 r1 r2 r3 r4 r5 r6 r7 r8 r9 : string)
    (db : boltDB) (eng : Engine) (nts : list Notice) (c : nat)
    (it : ServerEntryIterator) :
  NoDup [r0; r1; r2; r3; r4; r5; r6; r7; r8; r9] ->
  rankIndex db = Ok [r0; r1; r2; r3; r4; r5; r6; r7; r8; r9] ->
  (forall k, In k (map fst (serverEntries db)) ->
             In k [r0; r1; r2; r3; r4; r5; r6; r7; r8; r9]) ->
  beginView eng = None ->
  isTargetServerEntryIterator it = false ->
  shuffleHeadLength it = 3 ->
  (exists it' w',
     Reset it (mkWorld (Some db) eng nts (mkRand (fun _ => 0) c)) = Done (None, it') w'
     /\ serverEntryIds it' = [r3; r1; r2; r4; r5; r6; r7; r8; r9; r0]
     /\ firstn 3 (serverEntryIds it') <> [r0; r1; r2])
  /\ (exists it' w',
        Reset it (mkWorld (Some db) eng nts (mkRand (fun _ => 1) c)) = Done (None, it') w'
        /\ serverEntryIds it' = [r0; r3; r2; r4; r5; r6; r7; r8; r9; r1]
        /\ firstn 3 (serverEntryIds it') <> [r0; r1; r2]).
Proof.
  intros Hnodup Hrank Hall Hview Htarget Hhead.
  assert (r3 <> r0 /\ r3 <> r1) as [H30 H31].
  { inversion Hnodup as [|? ? Hn0 Hnodup1]; subst.
    inversion Hnodup1 as [|? ? Hn1 _]; subst.
    split; intros Heq; subst; [apply Hn0 | apply Hn1]; cbn; auto 10. }
  split.
  - destruct (Reset_candidates it (mkWorld (Some db) eng nts (mkRand (fun _ => 0) c))
                (db := db) eq_refl Hview Htarget Hrank) as [nts' HR].
    rewrite HR, (candidateList_all_ranked _ _ Hall), Hhead.
    do 2 eexists. split; [vm_compute; reflexivity|].
    split; [reflexivity|]. cbn. intros Heq. inversion Heq. contradiction.
  - destruct (Reset_candidates it (mkWorld (Some db) eng nts (mkRand (fun _ => 1) c))
                (db := db) eq_refl Hview Htarget Hrank) as [nts' HR].
    rewrite HR, (candidateList_all_ranked _ _ Hall), Hhead.
    do 2 eexists. split; [vm_compute; reflexivity|].
    split; [reflexivity|]. cbn. intros Heq. inversion Heq. contradiction.
Qed.

(** *** Promotion does not decide the first candidate *)

(** [PromoteServerEntry] puts the address at position 0 of the rank
    index. *)
Lemma PromoteServerEntry_top (ipAddress : string) (w : World) (db : boltDB)
    (ranked : list string) :
  stringsRoundTrip ->
  singleton_db w = Some db ->
  healthy (engine w) ->
  rankIndex db = Ok ranked ->
  exists w' db' ranked',
    PromoteServerEntry ipAddress w = Done None w'
    /\ singleton_db w' = Some db'
    /\ rankIndex db' = Ok ranked'
    /\ nth_error ranked' 0 = Some ipAddress.
Proof.
  intros Hstrings Hdb Hhealthy Hrank.
  destruct (insertRanked_defined ranked ipAddress (position := 0)) as [ranked' Hins];
    [auto|].
  destruct (Hstrings ranked') as [data [Hmarshal Hunmarshal]].
  erewrite PromoteServerEntry_writes; eauto.
  do 3 eexists. split; [reflexivity|]. split; [reflexivity|].
  split.
  - rewrite rankIndex_after_insert. exact Hunmarshal.
  - unfold insertRanked in Hins.
    destruct (0 >=? Z.of_nat (length ranked)) eqn:Hge.
    + rewrite Z.geb_leb in Hge. apply Z.leb_le in Hge.
      destruct ranked; [|cbn in Hge; lia].
      apply Some_inj in Hins. subst ranked'. reflexivity.
    + destruct (_ || _); [discriminate|].
      apply Some_inj in Hins. subst ranked'. reflexivity.
Qed.

(** C3 at its failing input: entries A, B, C stored in that order in an
    empty store, B promoted, then a fresh iterator with no filter and head
    length 1.  With every draw of [rand.Intn] equal to 0 the shuffle swaps
    the promoted address out of position 0, and the first entry [Next]
    returns is A, not B. *)
Theorem promoted_entry_not_first (A B C : ServerEntry) (dataA : bytes)
    (w : World) (db : boltDB) (c : nat) :
  marshalsEntries -> stringsRoundTrip ->
  json_Marshal_ServerEntry A = Ok dataA ->
  json_decode_ServerEntry dataA = Ok (jsonValue A) ->
  net_ParseIP (IpAddress A) = true ->
  net_ParseIP (IpAddress B) = true ->
  net_ParseIP (IpAddress C) = true ->
  IpAddress A <> IpAddress B ->
  IpAddress A <> IpAddress C ->
  IpAddress B <> IpAddress C ->
  singleton_db w = Some db ->
  serverEntries db = [] ->
  rankedServerEntries db = [] ->
  healthy (engine w) ->
  globalRand w = mkRand (fun _ => 0) c ->
  exists w',
    promotionScenario A B C 1 w = Done (Ok (Some (MakeCompatibleServerEntry A))) w'
    /\ IpAddress (MakeCompatibleServerEntry A) <> IpAddress B.
Proof.
  intros Hentries Hstrings HdataA HdecodeA HipA HipB HipC HAB HAC HBC
         Hdb Hempty Hranked Hhealthy Hrand.
  destruct (Hentries B) as [dataB HdataB].
  destruct (Hentries C) as [dataC HdataC].
  destruct (Hstrings [IpAddress A]) as [s1 [Hm1 Hu1]].
  destruct (Hstrings [IpAddress A; IpAddress B]) as [s2 [Hm2 Hu2]].
  destruct (Hstrings [IpAddress A; IpAddress C; IpAddress B]) as [s3 [Hm3 Hu3]].
  destruct (Hstrings [IpAddress B; IpAddress A; IpAddress C; IpAddress B])
    as [s4 [Hm4 Hu4]].
  assert (String.eqb (IpAddress A) (IpAddress B) = false) as EAB
    by (apply String.eqb_neq; exact HAB).
  assert (String.eqb (IpAddress A) (IpAddress C) = false) as EAC
    by (apply String.eqb_neq; exact HAC).
  assert (String.eqb (IpAddress B) (IpAddress C) = false) as EBC
    by (apply String.eqb_neq; exact HBC).
  assert (String.eqb (IpAddress B) (IpAddress A) = false) as EBA
    by (apply String.eqb_neq; congruence).
  assert (String.eqb (IpAddress C) (IpAddress A) = false) as ECA
    by (apply String.eqb_neq; congruence).
  destruct w as [odb eng nts rnd]. cbn in Hdb, Hhealthy, Hrand. subst odb rnd.
  destruct db as [entries0 ranked0 b3 b4 b5 b6]. cbn in Hempty, Hranked.
  subst entries0 ranked0.
  unfold promotionScenario, bind.
  (* Store A *)
  erewrite StoreServerEntry_writes
    with (serverEntry := A) (ranked := []) (ranked' := [IpAddress A]);
    [ | reflexivity | exact Hhealthy | exact HipA | right; reflexivity | exact HdataA
      | reflexivity | reflexivity | exact Hm1 ].
  cbn [serverEntries rankedServerEntries set_serverEntries set_rankedServerEntries
       splitTunnelRouteETags splitTunnelRouteData urlETags keyValues
       bucket_insert bucket_Get engine notices globalRand].
  (* Store B *)
  erewrite StoreServerEntry_writes
    with (serverEntry := B) (ranked := [IpAddress A]) (ranked' := [IpAddress A; IpAddress B]);
    [ | reflexivity | exact Hhealthy | exact HipB
      | right; cbn; rewrite EAB; reflexivity | exact HdataB
      | unfold rankIndex; cbn; exact Hu1 | reflexivity | exact Hm2 ].
  cbn [serverEntries rankedServerEntries set_serverEntries set_rankedServerEntries
       splitTunnelRouteETags splitTunnelRouteData urlETags keyValues
       engine notices globalRand].
  (* Store C *)
  erewrite StoreServerEntry_writes
    with (serverEntry := C) (ranked := [IpAddress A; IpAddress B])
         (ranked' := [IpAddress A; IpAddress C; IpAddress B]);
    [ | reflexivity | exact Hhealthy | exact HipC
      | right; cbn [serverEntries set_serverEntries set_rankedServerEntries];
        rewrite bucket_Get_insert, EBC; cbn; rewrite EAC;
        reflexivity
      | exact HdataC
      | rewrite rankIndex_after_insert; exact Hu2 | reflexivity | exact Hm3 ].
  cbn [serverEntries rankedServerEntries set_serverEntries set_rankedServerEntries
       splitTunnelRouteETags splitTunnelRouteData urlETags keyValues
       engine notices globalRand].
  (* Promote B *)
  erewrite PromoteServerEntry_writes
    with (ranked := [IpAddress A; IpAddress C; IpAddress B])
         (ranked' := [IpAddress B; IpAddress A; IpAddress C; IpAddress B]);
    [ | reflexivity | exact Hhealthy
      | rewrite rankIndex_after_insert; exact Hu3 | reflexivity | exact Hm4 ].
  cbn [serverEntries rankedServerEntries set_serverEntries set_rankedServerEntries
       splitTunnelRouteETags splitTunnelRouteData urlETags keyValues
       engine notices globalRand].
  (* the fresh iterator *)
  unfold NewServerEntryIterator. cbn [TargetServerEntry String.eqb negb].
  unfold bind, checkInitDataStore. cbn [singleton_db].
  cbn [EgressRegion TunnelProtocol TunnelPoolSize].
  match goal with
  | |- context [Reset ?it ?w1] =>
      destruct (Reset_candidates it w1
                  (ranked := [IpAddress B; IpAddress A; IpAddress C; IpAddress B])
                  eq_refl (proj1 Hhealthy) eq_refl) as [nts' HR];
        [ rewrite rankIndex_after_insert; exact Hu4 | rewrite HR ]
  end.
  rewrite candidateList_all_ranked.
  2:{ cbn [serverEntries]. intros k Hk.
      apply bucket_insert_keys in Hk. destruct Hk as [Hk|Hk]; [subst; cbn; auto|].
      apply bucket_insert_keys in Hk. destruct Hk as [Hk|Hk]; [subst; cbn; auto|].
      cbn in Hk. destruct Hk as [Hk|[]]. subst. cbn. auto. }
  cbn [length shuffleHeadLength globalRand].
  replace (shuffleLoop 4 1 [IpAddress B; IpAddress A; IpAddress C; IpAddress B]
             (mkRand (fun _ => 0) c))
    with (Done (S := Rand)
            [IpAddress A; IpAddress C; IpAddress B; IpAddress B]
            (mkRand (fun _ => 0) (S (S (S c)))))
    by reflexivity.
  unfold ret. cbv beta iota.
  (* the first Next *)
  unfold Next.
  cbn [isTargetServerEntryIterator set_ids Close serverEntryIndex serverEntryIds skipn].
  cbn [nextLoop]. unfold bind, db_View.
  cbn [singleton_db engine]. rewrite (proj1 Hhealthy).
  unfold get, ret. cbn [tx_db serverEntries set_serverEntries set_rankedServerEntries].
  rewrite !bucket_Get_insert, ECA, EBA. cbn [bucket_Get]. rewrite String.eqb_refl.
  unfold json_Unmarshal_ServerEntry. rewrite HdecodeA.
  cbn [region protocol set_ids matchesFilter String.eqb orb andb fst].
  eexists. split; [reflexivity|].
  rewrite MakeCompatibleServerEntry_IpAddress. exact HAB.
Qed.

(** ** Further properties *)

(** Each statement below depends on the standard-library functions it
    names and on no other. *)
#[local] Set Default Proof Using "Type".

(** *** Protocols and capabilities *)

Lemma supportedAmong_filter (serverEntry : ServerEntry) (protocols acc : list string) :
  supportedAmong serverEntry protocols acc
  = (acc ++ filter (SupportsProtocol serverEntry) protocols)%list.
Proof.
  revert acc. induction protocols as [|p protocols IH]; intros acc; cbn.
  - rewrite app_nil_r. reflexivity.
  - destruct (SupportsProtocol serverEntry p).
    + rewrite IH, <- app_assoc. reflexivity.
    + apply IH.
Qed.

(** X1: the supported protocols are exactly those of the four known
    protocols whose capability the entry has (FRONTED-MEEK, UNFRONTED-MEEK,
    OSSH and SSH respectively), listed in the fixed preference order of
    [SupportedTunnelProtocols]. *)
Theorem GetSupportedProtocols_spec (serverEntry : ServerEntry) :
  GetSupportedProtocols serverEntry
  = ((if Contains (Capabilities serverEntry) "FRONTED-MEEK"
      then ["FRONTED-MEEK-OSSH"] else [])
     ++ (if Contains (Capabilities serverEntry) "UNFRONTED-MEEK"
         then ["UNFRONTED-MEEK-OSSH"] else [])
     ++ (if Contains (Capabilities serverEntry) "OSSH" then ["OSSH"] else [])
     ++ (if Contains (Capabilities serverEntry) "SSH" then ["SSH"] else []))%list
  /\ (forall protocol,
        In protocol (GetSupportedProtocols serverEntry) <->
        In protocol SupportedTunnelProtocols
        /\ SupportsProtocol serverEntry protocol = true).
Proof.
  unfold GetSupportedProtocols. rewrite supportedAmong_filter. split.
  - cbn [app filter SupportedTunnelProtocols]. unfold SupportsProtocol.
    change (strings_TrimSuffix TUNNEL_PROTOCOL_FRONTED_MEEK "-OSSH") with "FRONTED-MEEK".
    change (strings_TrimSuffix TUNNEL_PROTOCOL_UNFRONTED_MEEK "-OSSH")
      with "UNFRONTED-MEEK".
    change (strings_TrimSuffix TUNNEL_PROTOCOL_OBFUSCATED_SSH "-OSSH") with "OSSH".
    change (strings_TrimSuffix TUNNEL_PROTOCOL_SSH "-OSSH") with "SSH".
    destruct (Contains (Capabilities serverEntry) "FRONTED-MEEK");
      destruct (Contains (Capabilities serverEntry) "UNFRONTED-MEEK");
      destruct (Contains (Capabilities serverEntry) "OSSH");
      destruct (Contains (Capabilities serverEntry) "SSH"); reflexivity.
  - intros protocol. cbn [app]. apply filter_In.
Qed.

Lemma Contains_In (l : list string) (target : string) :
  Contains l target = true <-> In target l.
Proof.
  induction l as [|x l IH]; cbn.
  - split; [discriminate | contradiction].
  - destruct (String.eqb x target) eqn:E.
    + apply String.eqb_eq in E. split; auto.
    + apply String.eqb_neq in E. rewrite IH. split; [auto|].
      intros [H|H]; [contradiction | exact H].
Qed.

Lemma omitCapability_spec (capability : string) (impairedProtocols : list string) :
  omitCapability capability impairedProtocols = true <->
  exists protocol,
    In protocol impairedProtocols /\ capability = strings_TrimSuffix protocol "-OSSH".
Proof.
  induction impairedProtocols as [|p l IH]; cbn.
  - split; [discriminate | intros [q [[] _]]].
  - destruct (String.eqb capability (strings_TrimSuffix p "-OSSH")) eqn:E.
    + apply String.eqb_eq in E. split; [|reflexivity].
      intros _. exists p. auto.
    + apply String.eqb_neq in E. rewrite IH. split.
      * intros [q [Hin Hq]]. exists q. auto.
      * intros [q [[Hq|Hin] Hcap]]; [subst; contradiction | exists q; auto].
Qed.

Lemma keptCapabilities_filter (remaining impairedProtocols acc : list string) :
  keptCapabilities remaining impairedProtocols acc
  = (acc ++ filter (fun c => negb (omitCapability c impairedProtocols)) remaining)%list.
Proof.
  revert acc. induction remaining as [|c remaining IH]; intros acc; cbn.
  - rewrite app_nil_r. reflexivity.
  - destruct (omitCapability c impairedProtocols); cbn.
    + apply IH.
    + rewrite IH, <- app_assoc. reflexivity.
Qed.

(** X2: after [DisableImpairedProtocols] none of the impaired protocols is
    supported; a protocol whose capability is required by no impaired
    protocol is supported exactly as before; the kept capabilities stay in
    their order, and no other field of the entry changes. *)
Theorem DisableImpairedProtocols_spec (serverEntry : ServerEntry)
    (impairedProtocols : list string) :
  (forall protocol,
     In protocol impairedProtocols ->
     SupportsProtocol (DisableImpairedProtocols serverEntry impairedProtocols) protocol
     = false)
  /\ (forall protocol,
        (forall impaired, In impaired impairedProtocols ->
           strings_TrimSuffix impaired "-OSSH" <> strings_TrimSuffix protocol "-OSSH") ->
        SupportsProtocol (DisableImpairedProtocols serverEntry impairedProtocols) protocol
        = SupportsProtocol serverEntry protocol)
  /\ Capabilities (DisableImpairedProtocols serverEntry impairedProtocols)
     = filter (fun c => negb (omitCapability c impairedProtocols))
         (Capabilities serverEntry)
  /\ set_Capabilities (DisableImpairedProtocols serverEntry impairedProtocols)
       (Capabilities serverEntry)
     = set_Capabilities serverEntry (Capabilities serverEntry).
Proof.
  assert (Capabilities (DisableImpairedProtocols serverEntry impairedProtocols)
          = filter (fun c => negb (omitCapability c impairedProtocols))
              (Capabilities serverEntry)) as Hcaps.
  { unfold DisableImpairedProtocols. cbn [Capabilities set_Capabilities].
    rewrite keptCapabilities_filter. reflexivity. }
  split; [|split; [|split]].
  - intros protocol Hin. unfold SupportsProtocol. rewrite Hcaps.
    destruct (Contains _ _) eqn:Hc; [|reflexivity].
    apply Contains_In in Hc. apply filter_In in Hc. destruct Hc as [_ Hkeep].
    apply negb_true_iff in Hkeep.
    assert (omitCapability (strings_TrimSuffix protocol "-OSSH") impairedProtocols = true)
      as Homit by (apply omitCapability_spec; exists protocol; auto).
    congruence.
  - intros protocol Hother. unfold SupportsProtocol. rewrite Hcaps.
    destruct (Contains (Capabilities serverEntry) (strings_TrimSuffix protocol "-OSSH"))
      eqn:Hc.
    + apply Contains_In. apply filter_In. split; [apply Contains_In; exact Hc|].
      apply negb_true_iff.
      destruct (omitCapability _ impairedProtocols) eqn:Homit; [|reflexivity].
      apply omitCapability_spec in Homit. destruct Homit as [q [Hq Heq]].
      exfalso. apply (Hother q Hq). symmetry. exact Heq.
    + destruct (Contains (filter _ _) _) eqn:Hc'; [|reflexivity].
      apply Contains_In in Hc'. apply filter_In in Hc'. destruct Hc' as [Hin _].
      apply Contains_In in Hin. congruence.
  - exact Hcaps.
  - reflexivity.
Qed.

(** *** Decoding *)

Lemma bytes_SplitN_field (field rest : string) (n : nat) :
  noSpace field = true ->
  bytes_SplitN (field ++ String " "%char rest) " "%char (S (S n))
  = field :: bytes_SplitN rest " "%char (S n).
Proof.
  induction field as [|c field IH]; intros Hfield.
  - reflexivity.
  - cbn in Hfield. apply andb_true_iff in Hfield. destruct Hfield as [Hc Hfield].
    apply negb_true_iff in Hc.
    cbn [append bytes_SplitN]. rewrite Hc, (IH Hfield). reflexivity.
Qed.

Lemma bytes_SplitN_one (s : string) (sep : ascii) : bytes_SplitN s sep 1 = [s].
Proof. destruct s; reflexivity. Qed.

(** X3: when the hex-decoded payload is four space-free legacy fields
    followed by a fifth field, the result of [DecodeServerEntry] is the JSON
    decoding of that fifth field, whatever the legacy fields are and even
    when the fifth field itself contains spaces. *)
Theorem DecodeServerEntry_legacy_fields (encodedServerEntry f1 f2 f3 f4 json : string) :
  hex_DecodeString encodedServerEntry
  = Ok (f1 ++ String " "%char (f2 ++ String " "%char (f3 ++ String " "%char
         (f4 ++ String " "%char json)))) ->
  noSpace f1 = true -> noSpace f2 = true -> noSpace f3 = true -> noSpace f4 = true ->
  DecodeServerEntry encodedServerEntry
  = match json_Unmarshal_ServerEntryPtr json with
    | Ok serverEntry => Ok serverEntry
    | Err err => Err (ContextError "DecodeServerEntry" err)
    end.
Proof.
  intros Hhex H1 H2 H3 H4. unfold DecodeServerEntry. rewrite Hhex.
  do 4 (rewrite bytes_SplitN_field by assumption).
  rewrite bytes_SplitN_one.
  cbn [length Nat.eqb negb nth].
  destruct (json_Unmarshal_ServerEntryPtr json); reflexivity.
Qed.

(** The loop of [DecodeAndValidateServerEntryList] only adds notices and
    returns entries whose address parses. *)
Lemma decodeList_frame (encodedServerEntryList : string)
    (w w' : World) (r : result (list ServerEntry)) :
  DecodeAndValidateServerEntryList encodedServerEntryList w = Done r w' ->
  singleton_db w' = singleton_db w
  /\ engine w' = engine w
  /\ globalRand w' = globalRand w
  /\ (exists added, notices w' = (notices w ++ added)%list)
  /\ (forall serverEntries,
        r = Ok serverEntries ->
        Forall (fun e => net_ParseIP (IpAddress e) = true) serverEntries).
Proof.
  unfold DecodeAndValidateServerEntryList.
  assert (forall lines acc w w' r,
            Forall (fun e => net_ParseIP (IpAddress e) = true) acc ->
            decodeAndValidateLines lines acc w = Done r w' ->
            singleton_db w' = singleton_db w
            /\ engine w' = engine w
            /\ globalRand w' = globalRand w
            /\ (exists added, notices w' = (notices w ++ added)%list)
            /\ (forall serverEntries,
                  r = Ok serverEntries ->
                  Forall (fun e => net_ParseIP (IpAddress e) = true) serverEntries))
    as Hloop.
  { clear. induction lines as [|line lines IH]; intros acc w w' r Hacc Hrun.
    - cbn in Hrun. unfold ret in Hrun. inversion Hrun; subst.
      repeat split; auto.
      + exists []. rewrite app_nil_r. reflexivity.
      + intros l Hl. inversion Hl; subst. exact Hacc.
    - cbn [decodeAndValidateLines] in Hrun.
      destruct (String.length line =? 0)%nat; [eapply IH; eauto|].
      destruct (DecodeServerEntry line) as [[e|]|err].
      + unfold ValidateServerEntry in Hrun. run.
        destruct (net_ParseIP (IpAddress e)) eqn:Hip.
        * eapply IH; [|exact Hrun].
          apply Forall_app. split; [exact Hacc|]. constructor; [exact Hip | constructor].
        * apply IH in Hrun; [|exact Hacc].
          cbn [singleton_db engine notices globalRand] in Hrun.
          destruct Hrun as [Hdb [Heng [Hrand [[added Hn] Hvalid]]]].
          repeat split; auto.
          eexists. rewrite Hn, <- app_assoc. reflexivity.
      + run. discriminate.
      + run. inversion Hrun; subst. repeat split; auto.
        * exists []. rewrite app_nil_r. reflexivity.
        * intros l Hl. discriminate. }
  intros Hrun. eapply Hloop; [constructor | exact Hrun].
Qed.

(** X4: whatever its input, [DecodeAndValidateServerEntryList] leaves the
    data store, the engine and the random source alone and only adds
    notices; and every entry of a list it returns has an address that
    parses. *)
Theorem DecodeAndValidateServerEntryList_safe (encodedServerEntryList : string)
    (w w' : World) (r : result (list ServerEntry)) :
  DecodeAndValidateServerEntryList encodedServerEntryList w = Done r w' ->
  singleton_db w' = singleton_db w
  /\ engine w' = engine w
  /\ globalRand w' = globalRand w
  /\ (exists added, notices w' = (notices w ++ added)%list)
  /\ (forall serverEntries,
        r = Ok serverEntries ->
        Forall (fun e => net_ParseIP (IpAddress e) = true) serverEntries).
Proof. exact (@decodeList_frame encodedServerEntryList w w' r). Qed.

Lemma decodeAndValidateLines_exact (lines : list string) (decoded : list ServerEntry) :
  decodesTo lines decoded ->
  forall acc db eng nts rnd,
    decodeAndValidateLines lines acc (mkWorld db eng nts rnd)
    = Done (Ok (acc ++ filter (fun e => net_ParseIP (IpAddress e)) decoded)%list)
        (mkWorld db eng
           (nts ++ map invalidAddressAlert
                     (filter (fun e => negb (net_ParseIP (IpAddress e))) decoded))%list
           rnd).
Proof.
  induction 1 as [|lines decoded _ IH|line lines e decoded Hne Hdec _ IH];
    intros acc db eng nts rnd.
  - cbn. unfold ret. rewrite !app_nil_r. reflexivity.
  - cbn [decodeAndValidateLines String.length Nat.eqb]. apply IH.
  - cbn [decodeAndValidateLines].
    destruct (String.length line =? 0)%nat eqn:Hlen.
    + apply length_zero_empty in Hlen. contradiction.
    + rewrite Hdec. unfold ValidateServerEntry. run. cbn [filter].
      destruct (net_ParseIP (IpAddress e)); cbn [negb map].
      * rewrite IH, <- app_assoc. reflexivity.
      * rewrite IH, <- app_assoc. reflexivity.
Qed.

(** X5: when every non-empty line decodes to an entry, the call returns
    the entries whose address parses, in the order of their lines, and
    emits one alert for each entry it drops, in that order; nothing else
    changes. *)
Theorem DecodeAndValidateServerEntryList_valid (encodedServerEntryList : string)
    (decoded : list ServerEntry) (w : World) :
  decodesTo (strings_Split encodedServerEntryList "010"%char) decoded ->
  DecodeAndValidateServerEntryList encodedServerEntryList w
  = Done (Ok (filter (fun e => net_ParseIP (IpAddress e)) decoded))
      (mkWorld (singleton_db w) (engine w)
         (notices w ++ map invalidAddressAlert
                         (filter (fun e => negb (net_ParseIP (IpAddress e))) decoded))%list
         (globalRand w)).
Proof.
  intros Hdec. unfold DecodeAndValidateServerEntryList.
  destruct w as [db eng nts rnd].
  rewrite (decodeAndValidateLines_exact Hdec). reflexivity.
Qed.

(** X6: a non-empty line that does not decode makes the whole call fail
    with that error wrapped, whatever the lines before it held: no partial
    list is returned. *)
Theorem DecodeAndValidateServerEntryList_fatal (encodedServerEntryList : string)
    (good : list string) (decoded : list ServerEntry) (line : string)
    (rest : list string) (e : error) (w : World) :
  strings_Split encodedServerEntryList "010"%char = (good ++ line :: rest)%list ->
  decodesTo good decoded ->
  line <> "" ->
  DecodeServerEntry line = Err e ->
  exists w',
    DecodeAndValidateServerEntryList encodedServerEntryList w
    = Done (Err (ContextError "DecodeAndValidateServerEntryList" e)) w'
    /\ singleton_db w' = singleton_db w.
Proof.
  intros Hsplit Hgood Hne Hdec. unfold DecodeAndValidateServerEntryList.
  rewrite Hsplit.
  destruct (decodeAndValidateLines_decode_error rest Hgood Hne Hdec [] w) as [w' Hrun].
  exists w'. split; [exact Hrun|].
  assert (DecodeAndValidateServerEntryList encodedServerEntryList w
          = Done (Err (ContextError "DecodeAndValidateServerEntryList" e)) w') as Hfull
    by (unfold DecodeAndValidateServerEntryList; rewrite Hsplit; exact Hrun).
  apply decodeList_frame in Hfull. exact (proj1 Hfull).
Qed.

(** *** The rank index under StoreServerEntry and PromoteServerEntry *)

(** An insertion at position 0 puts the id before the first 100 ids. *)
Lemma insertRanked_top (ranked : list string) (serverEntryId : string) :
  insertRanked ranked serverEntryId 0 = Some (serverEntryId :: firstn 100 ranked).
Proof.
  unfold insertRanked, rankedServerEntryCount.
  destruct (0 >=? Z.of_nat (length ranked)) eqn:Hge.
  - rewrite Z.geb_leb in Hge. apply Z.leb_le in Hge.
    destruct ranked; [reflexivity | cbn in Hge; lia].
  - rewrite Z.geb_leb in Hge. apply Z.leb_gt in Hge.
    destruct (Z.of_nat (length ranked) + 1 >? 100) eqn:Hcap.
    + replace ((0 <? 0) || (100 <? 0)) with false by reflexivity.
      unfold slice. reflexivity.
    + rewrite Z.gtb_ltb in Hcap. apply Z.ltb_ge in Hcap.
      replace ((0 <? 0) || (Z.of_nat (length ranked) <? 0)) with false.
      2:{ symmetry. apply orb_false_intro; apply Z.ltb_ge; lia. }
      unfold slice. change (Z.to_nat 0) with 0%nat.
      change (firstn 0 ranked) with (@nil string).
      change (skipn 0 ranked) with ranked. cbn [app].
      rewrite Nat2Z.id, Nat.sub_0_r.
      rewrite !firstn_all2 by lia. reflexivity.
Qed.

(** An insertion at position 1 puts the id after the first id, and keeps
    the 99 ids that followed it. *)
Lemma insertRanked_next (ranked : list string) (serverEntryId : string) :
  insertRanked ranked serverEntryId 1
  = Some (firstn 1 ranked ++ serverEntryId :: skipn 1 (firstn 100 ranked))%list.
Proof.
  unfold insertRanked, rankedServerEntryCount.
  destruct (1 >=? Z.of_nat (length ranked)) eqn:Hge.
  - rewrite Z.geb_leb in Hge. apply Z.leb_le in Hge.
    destruct ranked as [|a [|b ranked]]; [reflexivity | reflexivity | cbn in Hge; lia].
  - rewrite Z.geb_leb in Hge. apply Z.leb_gt in Hge.
    destruct (Z.of_nat (length ranked) + 1 >? 100) eqn:Hcap.
    + replace ((1 <? 0) || (100 <? 1)) with false by reflexivity.
      unfold slice. change (Z.to_nat 1) with 1%nat. change (Z.to_nat 100) with 100%nat.
      rewrite (firstn_skipn_comm 99 1). reflexivity.
    + rewrite Z.gtb_ltb in Hcap. apply Z.ltb_ge in Hcap.
      replace ((1 <? 0) || (Z.of_nat (length ranked) <? 1)) with false.
      2:{ symmetry. apply orb_false_intro; apply Z.ltb_ge; lia. }
      unfold slice. change (Z.to_nat 1) with 1%nat. rewrite Nat2Z.id.
      rewrite (firstn_all2 (n := 100)) by lia.
      rewrite (@firstn_all2 _ (length ranked - 1) (skipn 1 ranked))
        by (rewrite length_skipn; lia).
      reflexivity.
Qed.

(** What a successful [insertRankedServerEntry] did. *)
Lemma insertRankedServerEntry_inv (serverEntryId : string) (position : Z)
    (tx tx' : Tx) (r : option error) :
  insertRankedServerEntry serverEntryId position tx = Done r tx' ->
  match r with
  | Some _ => tx' = tx
  | None =>
      exists ranked ranked' data,
        rankIndex (tx_db tx) = Ok ranked
        /\ insertRanked ranked serverEntryId position = Some ranked'
        /\ json_Marshal_strings ranked' = Ok data
        /\ tx' = mkTx (set_rankedServerEntries (tx_db tx)
                         (bucket_insert (rankedServerEntries (tx_db tx))
                            rankedServerEntriesKey data))
                      (tx_engine tx)
  end.
Proof.
  unfold insertRankedServerEntry, bind. rewrite getRankedServerEntries_run.
  destruct (rankIndex (tx_db tx)) as [ranked|e].
  - destruct (insertRanked ranked serverEntryId position) as [ranked'|] eqn:Hins;
      [|discriminate].
    unfold setRankedServerEntries, bind, rankedServerEntries_Put.
    destruct (json_Marshal_strings ranked') as [data|e] eqn:Hdata.
    + destruct (putFault (tx_engine tx) rankedServerEntriesBucket rankedServerEntriesKey).
      * unfold ret. intros H. inversion H; subst. reflexivity.
      * unfold ret. intros H. inversion H; subst.
        exists ranked, ranked', data. auto.
    + unfold ret. intros H. inversion H; subst. reflexivity.
  - unfold ret. intros H. inversion H; subst. reflexivity.
Qed.

(** What the transaction of [StoreServerEntry] did when it succeeded:
    nothing, for an existing entry that is not to be replaced; otherwise
    both writes. *)
Lemma storeServerEntryTx_inv (serverEntry : ServerEntry) (replaceIfExists : bool)
    (tx tx' : Tx) (serverEntryExists : bool) :
  storeServerEntryTx serverEntry replaceIfExists tx = Done (Ok serverEntryExists) tx' ->
  serverEntryExists
  = (match bucket_Get (serverEntries (tx_db tx)) (IpAddress serverEntry) with
     | Some _ => true
     | None => false
     end)
  /\ ((serverEntryExists = true /\ replaceIfExists = false /\ tx' = tx)
      \/ (exists data ranked ranked' rankedData,
            (replaceIfExists = true \/ serverEntryExists = false)
            /\ json_Marshal_ServerEntry serverEntry = Ok data
            /\ rankIndex (tx_db tx) = Ok ranked
            /\ insertRanked ranked (IpAddress serverEntry) 1 = Some ranked'
            /\ json_Marshal_strings ranked' = Ok rankedData
            /\ tx' = mkTx (set_rankedServerEntries
                             (set_serverEntries (tx_db tx)
                                (bucket_insert (serverEntries (tx_db tx))
                                   (IpAddress serverEntry) data))
                             (bucket_insert (rankedServerEntries (tx_db tx))
                                rankedServerEntriesKey rankedData))
                          (tx_engine tx))).
Proof.
  unfold storeServerEntryTx, bind, get.
  set (existsBefore := match bucket_Get (serverEntries (tx_db tx)) (IpAddress serverEntry)
                       with Some _ => true | None => false end).
  destruct (existsBefore && negb replaceIfExists) eqn:Hcond.
  - unfold ret. intros H. inversion H; subst.
    apply andb_true_iff in Hcond. destruct Hcond as [He Hr].
    apply negb_true_iff in Hr. split; [reflexivity|]. left. auto.
  - destruct (json_Marshal_ServerEntry serverEntry) as [data|e] eqn:Hdata;
      [|unfold ret; discriminate].
    unfold serverEntries_Put at 1.
    destruct (putFault (tx_engine tx) serverEntriesBucket (IpAddress serverEntry));
      [unfold ret; discriminate|].
    destruct (insertRankedServerEntry (IpAddress serverEntry) 1 _) as [r tx1|] eqn:Hins;
      [|discriminate].
    apply insertRankedServerEntry_inv in Hins.
    destruct r as [e|]; [unfold ret; discriminate|].
    destruct Hins as [ranked [ranked' [rankedData [Hrank [Hi [Hm Htx]]]]]].
    unfold ret. intros H. inversion H; subst. split; [reflexivity|]. right.
    exists data, ranked, ranked', rankedData.
    cbn [tx_db tx_engine] in *. rewrite rankIndex_set_serverEntries in Hrank.
    repeat split; auto.
    apply andb_false_iff in Hcond. destruct Hcond as [Hc|Hc]; [right; exact Hc|].
    left. apply negb_false_iff in Hc. exact Hc.
Qed.

Lemma db_Update_inv {A : Type} (fn : M Tx (result A)) (w w' : World) (r : result A) :
  db_Update fn w = Done r w' ->
  match r with
  | Err _ => w' = w
  | Ok a =>
      exists db tx',
        singleton_db w = Some db
        /\ fn (mkTx db (engine w)) = Done (Ok a) tx'
        /\ w' = mkWorld (Some (tx_db tx')) (engine w) (notices w) (globalRand w)
  end.
Proof.
  unfold db_Update.
  destruct (singleton_db w) as [db|] eqn:Hdb; [|discriminate].
  destruct (beginUpdate (engine w)).
  - intros H. inversion H; subst. reflexivity.
  - destruct (fn (mkTx db (engine w))) as [[a|e] tx'|] eqn:Hfn; [| |discriminate].
    + destruct (commitFault (engine w)).
      * intros H. inversion H; subst. reflexivity.
      * intros H. inversion H; subst. exists db, tx'. auto.
    + intros H. inversion H; subst. reflexivity.
Qed.

(** The rank index after a successful [PromoteServerEntry]. *)
Lemma PromoteServerEntry_rank_run (ipAddress : string) (w : World) (db : boltDB)
    (ranked : list string) :
  stringsRoundTrip ->
  singleton_db w = Some db ->
  healthy (engine w) ->
  rankIndex db = Ok ranked ->
  exists db',
    PromoteServerEntry ipAddress w
    = Done None (mkWorld (Some db') (engine w) (notices w) (globalRand w))
    /\ rankIndex db' = Ok (ipAddress :: firstn 100 ranked)
    /\ serverEntries db' = serverEntries db.
Proof.
  intros Hstrings Hdb Hhealthy Hrank.
  destruct (Hstrings (ipAddress :: firstn 100 ranked)) as [data [Hm Hu]].
  erewrite PromoteServerEntry_writes; eauto using insertRanked_top.
  eexists. split; [reflexivity|]. split.
  - rewrite rankIndex_after_insert. exact Hu.
  - reflexivity.
Qed.

(** X7: a successful [PromoteServerEntry] makes the rank index the
    promoted address followed by the first 100 ids of the old index; it
    does not look at, or change, the stored records, and does not require
    the address to be stored or to be absent from the index. *)
Theorem PromoteServerEntry_rank (ipAddress : string) (w : World) (db : boltDB)
    (ranked : list string) :
  stringsRoundTrip ->
  singleton_db w = Some db ->
  healthy (engine w) ->
  rankIndex db = Ok ranked ->
  exists db',
    PromoteServerEntry ipAddress w
    = Done None (mkWorld (Some db') (engine w) (notices w) (globalRand w))
    /\ rankIndex db' = Ok (ipAddress :: firstn 100 ranked)
    /\ serverEntries db' = serverEntries db.
Proof. exact (@PromoteServerEntry_rank_run ipAddress w db ranked). Qed.

(** X8: a [StoreServerEntry] that writes puts the record under the
    address and inserts the address next to the top of the rank index: the
    first id of the old index stays first, the new address comes second,
    and the 99 ids that followed come after it.  With an empty index the
    new address is first.  Records under other addresses are untouched. *)
Theorem StoreServerEntry_next_to_top (serverEntry : ServerEntry)
    (replaceIfExists : bool) (w : World) (db : boltDB) (data : bytes)
    (ranked : list string) :
  stringsRoundTrip ->
  singleton_db w = Some db ->
  healthy (engine w) ->
  net_ParseIP (IpAddress serverEntry) = true ->
  (replaceIfExists = true
   \/ bucket_Get (serverEntries db) (IpAddress serverEntry) = None) ->
  json_Marshal_ServerEntry serverEntry = Ok data ->
  rankIndex db = Ok ranked ->
  exists w' db' ranked',
    StoreServerEntry serverEntry replaceIfExists w = Done None w'
    /\ singleton_db w' = Some db'
    /\ bucket_Get (serverEntries db') (IpAddress serverEntry) = Some data
    /\ (forall k, k <> IpAddress serverEntry ->
          bucket_Get (serverEntries db') k = bucket_Get (serverEntries db) k)
    /\ rankIndex db' = Ok ranked'
    /\ ranked' = (firstn 1 ranked
                    ++ IpAddress serverEntry :: skipn 1 (firstn 100 ranked))%list
    /\ (forall top, nth_error ranked 0 = Some top ->
          nth_error ranked' 0 = Some top
          /\ nth_error ranked' 1 = Some (IpAddress serverEntry))
    /\ (ranked = [] -> ranked' = [IpAddress serverEntry]).
Proof.
  intros Hstrings Hdb Hhealthy Hip Hpath Hdata Hrank.
  destruct (Hstrings (firstn 1 ranked
                        ++ IpAddress serverEntry :: skipn 1 (firstn 100 ranked))%list)
    as [rankedData [Hm Hu]].
  erewrite StoreServerEntry_writes; eauto using insertRanked_next.
  do 3 eexists. split; [reflexivity|]. split; [reflexivity|].
  cbn [serverEntries set_rankedServerEntries set_serverEntries].
  split; [rewrite bucket_Get_insert, String.eqb_refl; reflexivity|].
  split.
  { intros k Hk. rewrite bucket_Get_insert.
    destruct (String.eqb (IpAddress serverEntry) k) eqn:E; [|reflexivity].
    apply String.eqb_eq in E. congruence. }
  split; [rewrite rankIndex_after_insert; exact Hu|].
  split; [reflexivity|]. split.
  - intros top Htop. destruct ranked as [|a ranked0]; [discriminate|].
    cbn in Htop. inversion Htop; subst. split; reflexivity.
  - intros Hnil. subst. reflexivity.
Qed.

(** X9: a [StoreServerEntry] or [PromoteServerEntry] that returns an error
    has changed neither the data store nor the engine nor the random
    source, whatever made it fail. *)
Theorem failed_write_changes_nothing (w w' : World) (err : error) :
  (forall serverEntry replaceIfExists,
     StoreServerEntry serverEntry replaceIfExists w = Done (Some err) w' ->
     singleton_db w' = singleton_db w /\ engine w' = engine w
     /\ globalRand w' = globalRand w)
  /\ (forall ipAddress,
        PromoteServerEntry ipAddress w = Done (Some err) w' -> w' = w).
Proof.
  split.
  - intros serverEntry replaceIfExists. unfold StoreServerEntry, ValidateServerEntry. run.
    destruct (singleton_db w) as [db|] eqn:Hdb; [|discriminate].
    destruct (net_ParseIP (IpAddress serverEntry)).
    + destruct (db_Update _ w) as [[b|e] w1|] eqn:Hup; [| |discriminate].
      * destruct (negb b); discriminate.
      * apply db_Update_inv in Hup. subst w1.
        intros H. inversion H; subst. auto.
    + intros H. inversion H; subst. cbn. auto.
  - intros ipAddress. unfold PromoteServerEntry. run.
    destruct (singleton_db w) as [db|] eqn:Hdb; [|discriminate].
    destruct (db_Update _ w) as [[b|e] w1|] eqn:Hup; [| |discriminate].
    + discriminate.
    + apply db_Update_inv in Hup. subst w1.
      intros H. inversion H; subst. reflexivity.
Qed.

(** X10: a [StoreServerEntry] that succeeds emits the notice "updated
    server" exactly when no record was stored under the address before,
    leaves every record under another address and every other bucket as
    they were, and when the rank index could be read back before and after
    (lists of strings round-trip), its length has grown by at most one and
    is at most 101 if it was before. *)
Theorem StoreServerEntry_success_effects (serverEntry : ServerEntry)
    (replaceIfExists : bool) (w w' : World) (db : boltDB) :
  singleton_db w = Some db ->
  StoreServerEntry serverEntry replaceIfExists w = Done None w' ->
  exists db',
    singleton_db w' = Some db'
    /\ engine w' = engine w /\ globalRand w' = globalRand w
    /\ notices w'
       = (notices w
            ++ match bucket_Get (serverEntries db) (IpAddress serverEntry) with
               | Some _ => []
               | None => [NoticeInfoMsg ("updated server " ++ IpAddress serverEntry)]
               end)%list
    /\ (forall k, k <> IpAddress serverEntry ->
          bucket_Get (serverEntries db') k = bucket_Get (serverEntries db) k)
    /\ splitTunnelRouteETags db' = splitTunnelRouteETags db
    /\ splitTunnelRouteData db' = splitTunnelRouteData db
    /\ urlETags db' = urlETags db
    /\ keyValues db' = keyValues db
    /\ (stringsRoundTrip ->
        forall ranked, rankIndex db = Ok ranked ->
        exists ranked',
          rankIndex db' = Ok ranked'
          /\ (length ranked' <= S (length ranked))%nat
          /\ ((length ranked <= 101)%nat -> (length ranked' <= 101)%nat)).
Proof.
  intros Hdb. unfold StoreServerEntry, ValidateServerEntry. run. rewrite Hdb.
  destruct (net_ParseIP (IpAddress serverEntry)); [|discriminate].
  destruct (db_Update _ w) as [[b|e] w1|] eqn:Hup; [|discriminate|discriminate].
  apply db_Update_inv in Hup. destruct Hup as [db0 [tx' [Hdb0 [Htx Hw1]]]].
  rewrite Hdb in Hdb0. inversion Hdb0; subst db0. clear Hdb0.
  apply storeServerEntryTx_inv in Htx. cbn [tx_db tx_engine] in Htx.
  destruct Htx as [Hb Hcases].
  intros H.
  assert (w' = mkWorld (Some (tx_db tx')) (engine w)
                 (notices w ++ (if b then [] else
                    [NoticeInfoMsg ("updated server " ++ IpAddress serverEntry)]))%list
                 (globalRand w)) as Hw'.
  { subst w1. destruct b; cbn in H; inversion H; subst; cbn.
    - rewrite app_nil_r. reflexivity.
    - reflexivity. }
  clear H. subst w'. exists (tx_db tx'). cbn [singleton_db engine notices globalRand].
  split; [reflexivity|]. split; [reflexivity|]. split; [reflexivity|].
  split.
  { rewrite Hb. destruct (bucket_Get (serverEntries db) (IpAddress serverEntry));
      reflexivity. }
  destruct Hcases as [[_ [_ Htx']]|[data [ranked [ranked' [rankedData
                        [_ [_ [Hrank [Hins [Hm Htx']]]]]]]]]]; subst tx'; cbn [tx_db].
  - repeat split; auto.
    intros _ ranked Hranked. exists ranked. repeat split; auto.
  - cbn [serverEntries splitTunnelRouteETags splitTunnelRouteData urlETags keyValues
         set_rankedServerEntries set_serverEntries].
    split.
    { intros k Hk. rewrite bucket_Get_insert.
      destruct (String.eqb (IpAddress serverEntry) k) eqn:E; [|reflexivity].
      apply String.eqb_eq in E. congruence. }
    repeat split; auto.
    intros Hstrings ranked0 Hranked0.
    rewrite Hrank in Hranked0. inversion Hranked0; subst ranked0.
    destruct (Hstrings ranked') as [d [Hd Hu]].
    rewrite Hm in Hd. inversion Hd; subst d.
    exists ranked'. rewrite rankIndex_after_insert.
    apply insertRanked_1_length in Hins.
    repeat split; auto; lia.
Qed.

(** *** The shuffle of Reset *)

Lemma list_set_middle {A : Type} (l1 l2 : list A) (x y : A) :
  list_set (l1 ++ x :: l2) (length l1) y = (l1 ++ y :: l2)%list.
Proof.
  unfold list_set.
  rewrite firstn_app, Nat.sub_diag, firstn_all. cbn [firstn]. rewrite app_nil_r.
  replace (S (length l1)) with (length l1 + 1)%nat by lia.
  rewrite skipn_app.
  rewrite skipn_all2 by lia.
  replace (length l1 + 1 - length l1)%nat with 1%nat by lia. reflexivity.
Qed.

(** Exchanging two positions of a list rearranges it. *)
Lemma swap_Permutation {A : Type} (l l' : list A) (i j : nat) :
  (j < i)%nat -> swap l i j = Some l' -> Permutation l l'.
Proof.
  intros Hji. unfold swap.
  destruct (nth_error l i) as [a|] eqn:Hi; [|discriminate].
  destruct (nth_error l j) as [b|] eqn:Hj; [|discriminate].
  intros H. apply Some_inj in H. subst l'.
  destruct (nth_error_split l j Hj) as [l1 [m [Hl Hlen1]]]. subst l.
  assert (nth_error m (i - j - 1) = Some a) as Hm.
  { rewrite nth_error_app2 in Hi by lia. rewrite Hlen1 in Hi.
    replace (i - j)%nat with (S (i - j - 1)) in Hi by lia. exact Hi. }
  destruct (nth_error_split m (i - j - 1) Hm) as [l2 [l3 [Hm' Hlen2]]]. subst m.
  replace i with (length (l1 ++ b :: l2)).
  2:{ rewrite length_app. cbn [length]. lia. }
  replace (l1 ++ b :: l2 ++ a :: l3)%list with ((l1 ++ b :: l2) ++ a :: l3)%list
    by (rewrite <- app_assoc; reflexivity).
  rewrite list_set_middle.
  replace ((l1 ++ b :: l2) ++ b :: l3)%list with (l1 ++ b :: (l2 ++ b :: l3))%list
    by (rewrite <- app_assoc; reflexivity).
  rewrite <- Hlen1, list_set_middle.
  rewrite <- app_assoc. apply Permutation_app_head. cbn [app].
  transitivity (a :: b :: l2 ++ l3)%list.
  - symmetry. apply (Permutation_middle (b :: l2) l3 a).
  - apply perm_skip. apply (Permutation_middle l2 l3 b).
Qed.

Lemma swap_defined {A : Type} (l : list A) (i j : nat) :
  (i < length l)%nat -> (j < length l)%nat -> exists l', swap l i j = Some l'.
Proof.
  intros Hi Hj. unfold swap.
  destruct (nth_error l i) eqn:Ei; [|apply nth_error_None in Ei; lia].
  destruct (nth_error l j) eqn:Ej; [|apply nth_error_None in Ej; lia].
  eexists. reflexivity.
Qed.

Lemma rand_Intn_run (n : Z) (r : Rand) :
  0 < n ->
  rand_Intn n r = Done (draws r (cursor r) mod n) (mkRand (draws r) (S (cursor r)))
  /\ 0 <= draws r (cursor r) mod n < n.
Proof.
  intros Hn. unfold rand_Intn.
  destruct (n <=? 0) eqn:E; [apply Z.leb_le in E; lia|].
  split; [reflexivity | apply Z.mod_pos_bound; lia].
Qed.

(** The shuffle loop with a head length of at least 1. *)
Lemma shuffleLoop_permutes (n : nat) :
  forall (shuffleHeadLength : Z) (serverEntryIds : list string) (r : Rand),
    1 <= shuffleHeadLength ->
    (n <= length serverEntryIds)%nat ->
    exists serverEntryIds' r',
      shuffleLoop n shuffleHeadLength serverEntryIds r = Done serverEntryIds' r'
      /\ Permutation serverEntryIds serverEntryIds'
      /\ draws r' = draws r
      /\ cursor r' = (cursor r + (n - Z.to_nat shuffleHeadLength))%nat.
Proof.
  induction n as [|n IH]; intros h ids r Hh Hn.
  - cbn [shuffleLoop]. rewrite int_pred_exact by (rewrite minInt_value; lia).
    replace (Z.of_nat 0 - 1 >? h - 1) with false.
    + exists ids, r. unfold ret. repeat split; auto; lia.
    + symmetry. rewrite Z.gtb_ltb. apply Z.ltb_ge. lia.
  - cbn [shuffleLoop]. rewrite int_pred_exact by (rewrite minInt_value; lia).
    destruct (Z.of_nat (S n) - 1 >? h - 1) eqn:Hgt.
    + rewrite Z.gtb_ltb in Hgt. apply Z.ltb_lt in Hgt.
      unfold bind.
      destruct (rand_Intn_run (n := Z.of_nat (S n) - 1) r) as [Hrun Hj]; [lia|].
      rewrite Hrun.
      destruct (swap_defined ids (i := n) (j := Z.to_nat (draws r (cursor r)
                                                       mod (Z.of_nat (S n) - 1))))
        as [ids1 Hswap]; [lia | lia |].
      rewrite Hswap.
      assert (Permutation ids ids1) as Hperm.
      { eapply swap_Permutation; [|exact Hswap]. lia. }
      destruct (IH h ids1 (mkRand (draws r) (S (cursor r))) Hh) as [ids' [r' [Hloop [Hp [Hd Hc]]]]].
      { rewrite <- (Permutation_length Hperm). lia. }
      exists ids', r'. rewrite Hloop. repeat split.
      * eapply Permutation_trans; eauto.
      * exact Hd.
      * rewrite Hc. cbn [cursor]. lia.
    + rewrite Z.gtb_ltb in Hgt. apply Z.ltb_ge in Hgt.
      exists ids, r. unfold ret. repeat split; auto; lia.
Qed.

(** X11: with a head length of at least 1 the shuffle never panics, makes
    one draw for each position from the end of the list down to the head
    length, and returns a rearrangement of the list it was given. *)
Theorem shuffleLoop_rearranges (n : nat) :
  forall (shuffleHeadLength : Z) (serverEntryIds : list string) (r : Rand),
    1 <= shuffleHeadLength ->
    (n <= length serverEntryIds)%nat ->
    exists serverEntryIds' r',
      shuffleLoop n shuffleHeadLength serverEntryIds r = Done serverEntryIds' r'
      /\ Permutation serverEntryIds serverEntryIds'
      /\ draws r' = draws r
      /\ cursor r' = (cursor r + (n - Z.to_nat shuffleHeadLength))%nat.
Proof. exact (@shuffleLoop_permutes n). Qed.

(** With a head length of 0 or less, the least [int] apart, and at least
    one candidate the shuffle reaches [rand.Intn(0)] and panics. *)
Lemma shuffleLoop_panics (n : nat) :
  forall (shuffleHeadLength : Z) (serverEntryIds : list string) (r : Rand),
    minInt < shuffleHeadLength <= 0 ->
    (1 <= n <= length serverEntryIds)%nat ->
    shuffleLoop n shuffleHeadLength serverEntryIds r
    = Panicked "invalid argument to Intn".
Proof.
  induction n as [|n IH]; intros h ids r Hh Hn; [lia|].
  cbn [shuffleLoop]. rewrite int_pred_exact by lia.
  replace (Z.of_nat (S n) - 1 >? h - 1) with true.
  2:{ symmetry. rewrite Z.gtb_ltb. apply Z.ltb_lt. lia. }
  unfold bind. destruct n as [|n].
  - reflexivity.
  - destruct (rand_Intn_run (n := Z.of_nat (S (S n)) - 1) r) as [Hrun Hj]; [lia|].
    rewrite Hrun.
    destruct (swap_defined ids (i := S n) (j := Z.to_nat (draws r (cursor r)
                                                     mod (Z.of_nat (S (S n)) - 1))))
      as [ids1 Hswap]; [lia | lia |].
    rewrite Hswap. apply IH; [exact Hh|].
    assert (Permutation ids ids1) as Hperm
      by (eapply swap_Permutation; [|exact Hswap]; lia).
    rewrite <- (Permutation_length Hperm). lia.
Qed.

(** At the least [int] the bound wraps around to the greatest [int] and the
    loop body never runs. *)
Lemma shuffleLoop_skipped (n : nat) (serverEntryIds : list string) (r : Rand) :
  Z.of_nat n <= maxInt ->
  shuffleLoop n minInt serverEntryIds r = Done serverEntryIds r.
Proof.
  intros Hn.
  assert ((Z.of_nat n - 1 >? int_pred minInt) = false) as Hcond.
  { rewrite int_pred_minInt, Z.gtb_ltb. apply Z.ltb_ge. lia. }
  destruct n as [|n]; cbn [shuffleLoop]; rewrite Hcond; reflexivity.
Qed.

(** Every stored id and every ranked id is a candidate. *)
Lemma candidateList_covers (ranked : list string) (db : boltDB) (k : string) :
  In k ranked \/ In k (map fst (serverEntries db)) ->
  In k (candidateList ranked db).
Proof.
  unfold candidateList, bucket_keys_descending. intros [H|H].
  - apply in_or_app. left. exact H.
  - apply in_or_app.
    destruct (existsb (String.eqb k) ranked) eqn:E.
    + left. apply existsb_exists in E. destruct E as [x [Hx Heq]].
      apply String.eqb_eq in Heq. subst. exact Hx.
    + right. apply filter_In. split.
      * apply -> in_rev. exact H.
      * rewrite E. reflexivity.
Qed.

(** X12: on a readable store, [Reset] of a repository-backed iterator with
    a head length of at least 1 succeeds, puts the read cursor at 0, and
    its candidate ids are a rearrangement of the rank index followed by the
    unranked stored ids; so every stored id and every ranked id is a
    candidate of the cycle.  The store is not changed. *)
Theorem Reset_candidates_rearranged (it : ServerEntryIterator) (w : World)
    (db : boltDB) (ranked : list string) :
  singleton_db w = Some db ->
  beginView (engine w) = None ->
  isTargetServerEntryIterator it = false ->
  rankIndex db = Ok ranked ->
  1 <= shuffleHeadLength it ->
  exists it' w',
    Reset it w = Done (None, it') w'
    /\ singleton_db w' = Some db /\ engine w' = engine w
    /\ serverEntryIndex it' = 0%nat
    /\ Permutation (candidateList ranked db) (serverEntryIds it')
    /\ (forall k, In k ranked \/ In k (map fst (serverEntries db)) ->
          In k (serverEntryIds it')).
Proof.
  intros Hdb Hview Htarget Hrank Hh.
  destruct (Reset_candidates it w Hdb Hview Htarget Hrank) as [nts HR].
  destruct (shuffleLoop_permutes (n := length (candidateList ranked db))
              (candidateList ranked db) (globalRand w) Hh (le_n _))
    as [ids [r' [Hloop [Hperm _]]]].
  rewrite Hloop in HR. rewrite HR.
  do 2 eexists. split; [reflexivity|]. cbn.
  repeat split; auto.
  intros k Hk. eapply Permutation_in; [exact Hperm|].
  apply candidateList_covers. exact Hk.
Qed.

(** X13: on a readable store with at least one candidate, [Reset] of a
    repository-backed iterator whose head length is 0 or less, the least
    [int] apart, panics in [rand.Intn]; so does [NewServerEntryIterator] for
    a configuration without target whose pool size is in that range.  At
    the least [int] the loop bound [shuffleHeadLength-1] wraps around to the
    greatest [int]: the shuffle is skipped, and [Reset] returns normally
    with the candidates in rank order and the random source untouched. *)
Theorem Reset_panics_without_head (it : ServerEntryIterator) (w : World)
    (db : boltDB) (ranked : list string) :
  singleton_db w = Some db ->
  beginView (engine w) = None ->
  rankIndex db = Ok ranked ->
  candidateList ranked db <> [] ->
  (isTargetServerEntryIterator it = false ->
   minInt < shuffleHeadLength it <= 0 ->
   Reset it w = Panicked "invalid argument to Intn")
  /\ (forall config,
        TargetServerEntry config = "" ->
        minInt < TunnelPoolSize config <= 0 ->
        NewServerEntryIterator config w = Panicked "invalid argument to Intn")
  /\ (isTargetServerEntryIterator it = false ->
      shuffleHeadLength it = minInt ->
      Z.of_nat (length (candidateList ranked db)) <= maxInt ->
      exists notices',
        Reset it w
        = Done (None, set_ids (Close it) (candidateList ranked db) 0)
            (mkWorld (Some db) (engine w) notices' (globalRand w))).
Proof.
  intros Hdb Hview Hrank Hne.
  assert (forall it, isTargetServerEntryIterator it = false ->
                     minInt < shuffleHeadLength it <= 0 ->
                     Reset it w = Panicked "invalid argument to Intn") as HReset.
  { intros it0 Htarget Hh.
    destruct (Reset_candidates it0 w Hdb Hview Htarget Hrank) as [nts HR].
    rewrite HR, shuffleLoop_panics; [reflexivity | exact Hh |].
    destruct (candidateList ranked db); [contradiction | cbn; lia]. }
  split; [apply HReset|]. split.
  - intros config Hnotarget Hpool. unfold NewServerEntryIterator.
    rewrite Hnotarget. cbn [String.eqb negb]. run. rewrite Hdb.
    rewrite HReset; [reflexivity | reflexivity | exact Hpool].
  - intros Htarget Hh Hlen.
    destruct (Reset_candidates it w Hdb Hview Htarget Hrank) as [nts HR].
    exists nts. rewrite HR, Hh, shuffleLoop_skipped by exact Hlen. reflexivity.
Qed.

(** [Reset] when the head covers every candidate. *)
Lemma Reset_without_shuffle (it : ServerEntryIterator) (w : World)
    (db : boltDB) (ranked : list string) :
  singleton_db w = Some db ->
  beginView (engine w) = None ->
  isTargetServerEntryIterator it = false ->
  rankIndex db = Ok ranked ->
  Z.of_nat (length (candidateList ranked db)) <= shuffleHeadLength it ->
  exists notices',
    Reset it w
    = Done (None, set_ids (Close it) (candidateList ranked db) 0)
        (mkWorld (Some db) (engine w) notices' (globalRand w)).
Proof.
  intros Hdb Hview Htarget Hrank Hh.
  destruct (Reset_candidates it w Hdb Hview Htarget Hrank) as [nts HR].
  exists nts. rewrite HR.
  destruct (length (candidateList ranked db)) as [|n] eqn:Hlen; cbn [shuffleLoop];
    rewrite int_pred_exact by (rewrite minInt_value; lia).
  - replace (Z.of_nat 0 - 1 >? shuffleHeadLength it - 1) with false; [reflexivity|].
    symmetry. rewrite Z.gtb_ltb. apply Z.ltb_ge. lia.
  - replace (Z.of_nat (S n) - 1 >? shuffleHeadLength it - 1) with false; [reflexivity|].
    symmetry. rewrite Z.gtb_ltb. apply Z.ltb_ge. lia.
Qed.

(** X14: when the head length is at least the number of candidates,
    [Reset] does not shuffle: the candidates are the rank index in rank
    order followed by the unranked stored ids in descending key order, and
    the random source is not consulted. *)
Theorem Reset_in_rank_order (it : ServerEntryIterator) (w : World)
    (db : boltDB) (ranked : list string) :
  singleton_db w = Some db ->
  beginView (engine w) = None ->
  isTargetServerEntryIterator it = false ->
  rankIndex db = Ok ranked ->
  Z.of_nat (length (candidateList ranked db)) <= shuffleHeadLength it ->
  exists notices',
    Reset it w
    = Done (None, set_ids (Close it) (candidateList ranked db) 0)
        (mkWorld (Some db) (engine w) notices' (globalRand w)).
Proof. exact (@Reset_without_shuffle it w db ranked). Qed.

(** *** Next *)

Lemma db_View_world {A : Type} (fn : M Tx (result A)) (w w' : World) (r : result A) :
  db_View fn w = Done r w' -> w' = w.
Proof.
  unfold db_View. destruct (singleton_db w); [|discriminate].
  destruct (beginView (engine w)).
  - intros H. inversion H. reflexivity.
  - destruct (fn _); [|discriminate]. intros H. inversion H. reflexivity.
Qed.

Lemma db_View_read (w : World) (db : boltDB) (k : string) :
  singleton_db w = Some db ->
  beginView (engine w) = None ->
  db_View (tx <- get ;; ret (Ok (bucket_Get (serverEntries (tx_db tx)) k))) w
  = Done (Ok (bucket_Get (serverEntries db) k)) w.
Proof.
  intros Hdb Hview. unfold db_View. rewrite Hdb, Hview. reflexivity.
Qed.

(** What [nextLoop] did, by its result. *)
Lemma nextLoop_inv (pending : list string) :
  forall it w r it' w',
    nextLoop pending it w = Done (r, it') w' ->
    w' = w
    /\ match r with
       | Err _ => serverEntryIds it' = [] /\ serverEntryIndex it' = 0%nat
       | Ok None =>
           serverEntryIds it' = serverEntryIds it
           /\ serverEntryIndex it' = (serverEntryIndex it + length pending)%nat
           /\ (pending <> [] ->
               exists db, singleton_db w = Some db /\ Forall (skippedBy it db) pending)
       | Ok (Some serverEntry) =>
           serverEntryIds it' = serverEntryIds it
           /\ exists db skipped serverEntryId rest data stored,
                singleton_db w = Some db
                /\ pending = (skipped ++ serverEntryId :: rest)%list
                /\ Forall (skippedBy it db) skipped
                /\ serverEntryIndex it' = (serverEntryIndex it + length skipped + 1)%nat
                /\ bucket_Get (serverEntries db) serverEntryId = Some data
                /\ json_Unmarshal_ServerEntry data = Ok stored
                /\ matchesFilter (region it) (protocol it) stored = true
                /\ serverEntry = MakeCompatibleServerEntry stored
       end.
Proof.
  clear json_Marshal_ServerEntry json_Marshal_strings json_Unmarshal_strings net_ParseIP.
  induction pending as [|serverEntryId pending IH]; intros it w r it' w' H.
  - cbn in H. unfold ret in H. inversion H; subst. split; [reflexivity|].
    repeat split; auto. contradiction.
  - cbn [nextLoop] in H. unfold bind in H.
    destruct (db_View _ w) as [[odata|e] w1|] eqn:Hview; [| |discriminate].
    + pose proof (db_View_world _ _ Hview) as Hw1. subst w1.
      assert (exists db, singleton_db w = Some db
                         /\ odata = bucket_Get (serverEntries db) serverEntryId)
        as [db [Hdb Hodata]].
      { unfold db_View in Hview. destruct (singleton_db w) as [db|]; [|discriminate].
        destruct (beginView (engine w)); [discriminate|].
        unfold bind, get, ret in Hview. cbn in Hview. inversion Hview.
        exists db. auto. }
      destruct odata as [data|].
      * destruct (json_Unmarshal_ServerEntry data) as [stored|e] eqn:Hdec.
        -- cbn [region protocol set_ids] in H.
           destruct (matchesFilter (region it) (protocol it) stored) eqn:Hmatch.
           ++ unfold ret in H. inversion H; subst. split; [reflexivity|].
              split; [reflexivity|].
              exists db, [], serverEntryId, pending, data, stored.
              cbn. repeat split; auto. lia.
           ++ apply IH in H. destruct H as [Hw Hr]. split; [exact Hw|].
              assert (skippedBy it db serverEntryId) as Hskip
                by (exists data, stored; auto).
              destruct r as [[serverEntry|]|e].
              ** destruct Hr as [Hids [db' [skipped [id [rest [d [s Hr]]]]]]].
                 destruct Hr as [Hdb' [Hp [Hsk [Hidx Hrest]]]].
                 rewrite Hdb in Hdb'. inversion Hdb'; subst db'.
                 split; [exact Hids|].
                 exists db, (serverEntryId :: skipped), id, rest, d, s.
                 cbn [serverEntryIndex set_ids region protocol length app] in *.
                 repeat split; try tauto.
                 --- rewrite Hp. reflexivity.
                 --- constructor; [exact Hskip|]. exact Hsk.
                 --- lia.
              ** destruct Hr as [Hids [Hidx Hsk]].
                 cbn [serverEntryIndex serverEntryIds set_ids length] in *.
                 split; [exact Hids|]. split; [lia|].
                 intros _. exists db. split; [exact Hdb|].
                 constructor; [exact Hskip|].
                 destruct pending as [|p pending']; [constructor|].
                 destruct Hsk as [db' [Hdb' Hall]]; [discriminate|].
                 rewrite Hdb in Hdb'. inversion Hdb'; subst db'. exact Hall.
              ** exact Hr.
        -- unfold ret in H. inversion H; subst. split; [reflexivity|]. cbn. auto.
      * unfold ret in H. inversion H; subst. split; [reflexivity|]. cbn. auto.
    + pose proof (db_View_world _ _ Hview) as Hw1. subst w1.
      unfold ret in H. inversion H; subst. split; [reflexivity|]. cbn. auto.
Qed.

(** X15: [Next] never changes the process state, whatever the iterator
    and whatever it returns.  When a repository-backed iterator hands out an
    entry, the read cursor has moved forward, past candidates whose stored
    entries the filter refuses, to just after the candidate it fetched; the
    entry is the normalized decoding of the record stored under that
    candidate at the time of the call, and it passes the filter. *)
Theorem Next_yield (it it' : ServerEntryIterator) (w w' : World)
    (r : result (option ServerEntry)) :
  Next it w = Done (r, it') w' ->
  w' = w
  /\ (forall serverEntry,
        isTargetServerEntryIterator it = false ->
        r = Ok (Some serverEntry) ->
        serverEntryIds it' = serverEntryIds it
        /\ (serverEntryIndex it < serverEntryIndex it' <= length (serverEntryIds it))%nat
        /\ exists db serverEntryId data stored,
             singleton_db w = Some db
             /\ nth_error (serverEntryIds it) (serverEntryIndex it' - 1)
                = Some serverEntryId
             /\ bucket_Get (serverEntries db) serverEntryId = Some data
             /\ json_Unmarshal_ServerEntry data = Ok stored
             /\ matchesFilter (region it) (protocol it) stored = true
             /\ serverEntry = MakeCompatibleServerEntry stored
             /\ (forall i k,
                   (serverEntryIndex it <= i < serverEntryIndex it' - 1)%nat ->
                   nth_error (serverEntryIds it) i = Some k -> skippedBy it db k)).
Proof.
  intros HNext.
  assert (w' = w) as Hframe.
  { unfold Next in HNext. destruct (isTargetServerEntryIterator it).
    - destruct (hasNextTargetServerEntry it).
      + unfold bind, deref in HNext.
        destruct (targetServerEntry it); unfold ret, panic in HNext;
          [inversion HNext; reflexivity | discriminate].
      + unfold ret in HNext. inversion HNext. reflexivity.
    - apply nextLoop_inv in HNext. exact (proj1 HNext). }
  split; [exact Hframe|].
  intros serverEntry Htarget Hr. subst r.
  pose proof HNext as H. unfold Next in H. rewrite Htarget in H.
  apply nextLoop_inv in H. destruct H as [Hw [Hids Hr]].
  destruct Hr as [db [skipped [id [rest [data [stored Hr]]]]]].
  destruct Hr as [Hdb [Hp [Hsk [Hidx [Hget [Hdec [Hmatch He]]]]]]].
  assert (serverEntryIds it
          = (firstn (serverEntryIndex it) (serverEntryIds it)
               ++ skipped ++ id :: rest)%list) as Hsplit
    by (rewrite <- Hp; symmetry; apply firstn_skipn).
  assert (length (firstn (serverEntryIndex it) (serverEntryIds it)) = serverEntryIndex it)
    as Hlen.
  { rewrite length_firstn. apply Nat.min_l.
    destruct (Nat.le_gt_cases (serverEntryIndex it) (length (serverEntryIds it)))
      as [Hle|Hgt]; [exact Hle|].
    rewrite skipn_all2 in Hp by lia. destruct skipped; discriminate. }
  pose proof (f_equal (@length string) Hsplit) as Hl.
  rewrite !length_app, Hlen in Hl. cbn [length] in Hl.
  split; [exact Hids|]. split; [lia|].
  exists db, id, data, stored. repeat split; auto.
  - rewrite Hsplit. rewrite nth_error_app2 by lia.
    rewrite nth_error_app2 by lia.
    replace (serverEntryIndex it' - 1
             - length (firstn (serverEntryIndex it) (serverEntryIds it))
             - length skipped)%nat with 0%nat by lia.
    reflexivity.
  - intros i k Hi Hk. rewrite Hsplit in Hk. rewrite nth_error_app2 in Hk by lia.
    rewrite nth_error_app1 in Hk by lia.
    apply nth_error_In in Hk.
    rewrite Forall_forall in Hsk. apply Hsk. exact Hk.
Qed.

(** X16: once [Next] has reported the end of the cycle (no entry, no
    error) it keeps doing so, in any process state, until the iterator is
    reset; and a [Next] that returned an error has closed the iterator, so
    that the calls that follow report the end of the cycle and not the
    error again. *)
Theorem Next_after_end_or_error (it it' : ServerEntryIterator) (w w' : World)
    (r : result (option ServerEntry)) :
  Next it w = Done (r, it') w' ->
  match r with
  | Ok (Some _) => True
  | Ok None => forall w2, Next it' w2 = Done (Ok None, it') w2
  | Err _ =>
      isTargetServerEntryIterator it = false
      /\ serverEntryIds it' = [] /\ serverEntryIndex it' = 0%nat
      /\ forall w2, Next it' w2 = Done (Ok None, it') w2
  end.
Proof.
  intros H. unfold Next in H.
  destruct (isTargetServerEntryIterator it) eqn:Htarget.
  - destruct (hasNextTargetServerEntry it) eqn:Hnext.
    + destruct (targetServerEntry it); run; [|discriminate].
      inversion H; subst. exact I.
    + run. inversion H; subst. intros w2. unfold Next. rewrite Htarget, Hnext.
      reflexivity.
  - pose proof (nextLoop_preserves _ _ _ H) as [[_ [_ [_ Ht]]] _].
    apply nextLoop_inv in H. destruct H as [_ Hr].
    destruct r as [[serverEntry|]|e]; [exact I| |].
    + destruct Hr as [Hids [Hidx _]].
      intros w2. unfold Next. rewrite Ht, Htarget, Hids, Hidx.
      rewrite skipn_all2; [reflexivity|].
      rewrite length_skipn. lia.
    + destruct Hr as [Hids Hidx]. repeat split; auto.
      intros w2. unfold Next. rewrite Ht, Htarget, Hids, Hidx. reflexivity.
Qed.

(** *** The pinned target *)

Lemma MakeCompatibleServerEntry_idempotent (serverEntry : ServerEntry) :
  MakeCompatibleServerEntry (MakeCompatibleServerEntry serverEntry)
  = MakeCompatibleServerEntry serverEntry.
Proof.
  destruct ((length (MeekFrontingAddresses serverEntry) =? 0)%nat
            && negb (String.eqb (MeekFrontingDomain serverEntry) "")) eqn:E.
  - assert (MakeCompatibleServerEntry serverEntry
            = set_MeekFrontingAddresses serverEntry
                (MeekFrontingAddresses serverEntry ++ [MeekFrontingDomain serverEntry]))
      as Hfirst by (unfold MakeCompatibleServerEntry; rewrite E; reflexivity).
    rewrite Hfirst. unfold MakeCompatibleServerEntry.
    cbn [MeekFrontingAddresses set_MeekFrontingAddresses].
    rewrite length_app. cbn [length].
    replace (length (MeekFrontingAddresses serverEntry) + 1 =? 0)%nat with false
      by (symmetry; apply Nat.eqb_neq; lia).
    reflexivity.
  - assert (MakeCompatibleServerEntry serverEntry = serverEntry) as Hfirst
      by (unfold MakeCompatibleServerEntry; rewrite E; reflexivity).
    rewrite !Hfirst. reflexivity.
Qed.

Lemma MakeCompatibleServerEntry_Region (serverEntry : ServerEntry) :
  Region (MakeCompatibleServerEntry serverEntry) = Region serverEntry.
Proof.
  unfold MakeCompatibleServerEntry.
  destruct (_ && _); reflexivity.
Qed.

(** What a successful [newTargetServerEntryIterator] did. *)
Lemma newTargetServerEntryIterator_inv (config : Config) (w w' : World)
    (it : ServerEntryIterator) :
  newTargetServerEntryIterator config w = Done (Ok it) w' ->
  exists serverEntry,
    DecodeServerEntry (TargetServerEntry config) = Ok (Some serverEntry)
    /\ it = mkIterator "" "" 0 [] 0 true true (Some serverEntry)
    /\ w' = mkWorld (singleton_db w) (engine w)
              (notices w
                 ++ [NoticeInfoMsg ("using TargetServerEntry: " ++ IpAddress serverEntry)])%list
              (globalRand w)
    /\ (EgressRegion config <> "" -> Region serverEntry = EgressRegion config)
    /\ (TunnelProtocol config <> "" ->
        Contains (Capabilities serverEntry)
          (strings_TrimSuffix (TunnelProtocol config) "-OSSH") = true).
Proof.
  unfold newTargetServerEntryIterator.
  destruct (DecodeServerEntry (TargetServerEntry config)) as [[serverEntry|]|e];
    [| |unfold ret; discriminate].
  - run. intros H. exists serverEntry. split; [reflexivity|].
    destruct (String.eqb (EgressRegion config) "") eqn:Er;
      destruct (String.eqb (TunnelProtocol config) "") eqn:Ep; cbn [negb] in H.
    + inversion H; subst. repeat split.
      * intros Hne. apply String.eqb_eq in Er. contradiction.
      * intros Hne. apply String.eqb_eq in Ep. contradiction.
    + destruct (Contains _ _) eqn:Hc; cbn [negb] in H; [|discriminate].
      inversion H; subst. repeat split; auto.
      intros Hne. apply String.eqb_eq in Er. contradiction.
    + destruct (String.eqb (Region serverEntry) (EgressRegion config)) eqn:Hr;
        cbn [negb] in H; [|discriminate].
      apply String.eqb_eq in Hr.
      inversion H; subst. repeat split; auto.
      intros Hne. apply String.eqb_eq in Ep. contradiction.
    + destruct (String.eqb (Region serverEntry) (EgressRegion config)) eqn:Hr;
        cbn [negb] in H; [|discriminate].
      apply String.eqb_eq in Hr.
      destruct (Contains _ _) eqn:Hc; cbn [negb] in H; [|discriminate].
      inversion H; subst. repeat split; auto.
  - run. intros H.
    destruct (negb (String.eqb (EgressRegion config) "")); cbn in H; [discriminate|].
    destruct (negb (String.eqb (TunnelProtocol config) "")); cbn in H; discriminate.
Qed.

(** X17: an iterator built for a configured target entry is built without
    reading the data store (even a store that was never initialized): the
    only effect is one notice.  The target meets the configured region and
    protocol.  The iterator hands out the normalized target once, then
    reports the end of the cycle, and hands it out again after a
    [Reset]; none of these calls touches the process state. *)
Theorem pinned_iterator_cycle (config : Config) (w w' : World)
    (it : ServerEntryIterator) :
  TargetServerEntry config <> "" ->
  NewServerEntryIterator config w = Done (Ok it) w' ->
  exists serverEntry it1,
    DecodeServerEntry (TargetServerEntry config) = Ok (Some serverEntry)
    /\ w' = mkWorld (singleton_db w) (engine w)
              (notices w
                 ++ [NoticeInfoMsg ("using TargetServerEntry: " ++ IpAddress serverEntry)])%list
              (globalRand w)
    /\ (EgressRegion config <> "" -> Region serverEntry = EgressRegion config)
    /\ (TunnelProtocol config <> "" ->
        Contains (Capabilities serverEntry)
          (strings_TrimSuffix (TunnelProtocol config) "-OSSH") = true)
    /\ (forall w1,
          Next it w1
          = Done (Ok (Some (MakeCompatibleServerEntry serverEntry)), it1) w1)
    /\ (forall w2, Next it1 w2 = Done (Ok None, it1) w2)
    /\ (forall w3,
          exists it2,
            Reset it1 w3 = Done (None, it2) w3
            /\ forall w4,
                 Next it2 w4
                 = Done (Ok (Some (MakeCompatibleServerEntry serverEntry)), it1) w4).
Proof.
  intros Htarget H. unfold NewServerEntryIterator in H.
  apply String.eqb_neq in Htarget. rewrite Htarget in H. cbn [negb] in H.
  apply newTargetServerEntryIterator_inv in H.
  destruct H as [serverEntry [Hdec [Hit [Hw [Hregion Hprot]]]]]. subst it.
  exists serverEntry,
    (mkIterator "" "" 0 [] 0 true false (Some (MakeCompatibleServerEntry serverEntry))).
  repeat split; auto.
  intros w3. eexists. split; [reflexivity|].
  intros w4. unfold Next. cbn. unfold bind, ret. cbn.
  rewrite MakeCompatibleServerEntry_idempotent. reflexivity.
Qed.

(** *** The region filter *)

Lemma Next_target (it it' : ServerEntryIterator) (w w' : World)
    (r : result (option ServerEntry)) :
  Next it w = Done (r, it') w' ->
  forall e', targetServerEntry it' = Some e' ->
  exists e, targetServerEntry it = Some e
            /\ (e' = e \/ e' = MakeCompatibleServerEntry e).
Proof.
  unfold Next. intros H.
  destruct (isTargetServerEntryIterator it).
  - destruct (hasNextTargetServerEntry it).
    + destruct (targetServerEntry it) as [e|]; run; [|discriminate].
      inversion H; subst. cbn. intros e' He'. inversion He'; subst.
      exists e. auto.
    + run. inversion H; subst. intros e' He'. exists e'. auto.
  - apply nextLoop_preserves in H. destruct H as [_ Ht].
    intros e' He'. rewrite Ht in He'. exists e'. auto.
Qed.

Lemma reachable_regionOn (r : string) (start it : ServerEntryIterator) :
  regionOn r start -> reachable start it -> regionOn r it.
Proof.
  intros Hstart Hreach.
  induction Hreach as [|it w x it' w' _ IH HN|it w x it' w' _ IH HR|it _ IH].
  - exact Hstart.
  - pose proof (Next_target _ _ HN) as Htarget.
    apply Next_preserves in HN. destruct HN as [[Hregion [_ [_ Hkind]]] _].
    unfold regionOn in *. rewrite Hkind.
    destruct (isTargetServerEntryIterator it).
    + intros e' He'. destruct (Htarget e' He') as [e [He [Heq|Heq]]]; subst.
      * apply IH. exact He.
      * rewrite MakeCompatibleServerEntry_Region. apply IH. exact He.
    + congruence.
  - apply Reset_preserves in HR. destruct HR as [[Hregion [_ [_ Hkind]]] Ht].
    unfold regionOn in *. rewrite Hkind, Ht.
    destruct (isTargetServerEntryIterator it); [exact IH | congruence].
  - exact IH.
Qed.

(** X18: an iterator built with a non-empty region filter hands out, in
    any sequence of [Next], [Reset] and [Close] calls and whatever the
    store holds at each call, only entries of that region. *)
Theorem Next_yields_only_region (config : Config) (w0 w1 : World)
    (start it : ServerEntryIterator) (w : World) (serverEntry : ServerEntry)
    (it' : ServerEntryIterator) (w' : World) :
  EgressRegion config <> "" ->
  NewServerEntryIterator config w0 = Done (Ok start) w1 ->
  reachable start it ->
  Next it w = Done (Ok (Some serverEntry), it') w' ->
  Region serverEntry = EgressRegion config.
Proof.
  intros Hr Hnew Hreach Hnext.
  assert (regionOn (EgressRegion config) start) as Hstart.
  { unfold NewServerEntryIterator in Hnew.
    destruct (negb (String.eqb (TargetServerEntry config) "")).
    - apply newTargetServerEntryIterator_inv in Hnew.
      destruct Hnew as [e [_ [Hit [_ [Hregion _]]]]]. subst start.
      unfold regionOn. cbn. intros e' He'. inversion He'; subst. auto.
    - unfold bind in Hnew.
      destruct (checkInitDataStore w0) as [[] w2|]; [|discriminate].
      destruct (Reset _ w2) as [[[err|] it1] w3|] eqn:HR; try discriminate.
      unfold ret in Hnew. inversion Hnew; subst.
      apply Reset_preserves in HR. destruct HR as [[Hregion [_ [_ Hkind]]] _].
      unfold regionOn. rewrite Hkind. cbn. cbn in Hregion. exact Hregion. }
  pose proof (@reachable_regionOn _ _ _ Hstart Hreach) as Hinv.
  unfold regionOn in Hinv. unfold Next in Hnext.
  destruct (isTargetServerEntryIterator it).
  - destruct (hasNextTargetServerEntry it).
    + destruct (targetServerEntry it) as [e|]; run; [|discriminate].
      inversion Hnext; subst. rewrite MakeCompatibleServerEntry_Region.
      apply (Hinv e eq_refl).
    + run. discriminate.
  - apply nextLoop_yields_match in Hnext.
    destruct Hnext as [stored [Heq Hmatch]]. subst serverEntry.
    rewrite MakeCompatibleServerEntry_Region.
    rewrite Hinv in Hmatch. unfold matchesFilter in Hmatch.
    apply andb_true_iff in Hmatch. destruct Hmatch as [Hmatch _].
    apply String.eqb_neq in Hr. rewrite Hr in Hmatch. cbn in Hmatch.
    apply String.eqb_eq in Hmatch. exact Hmatch.
Qed.

(** *** A promoted address that is not stored *)

(** X19: [PromoteServerEntry] accepts an address under which nothing is
    stored.  The next iterator then meets that address first (here with a
    head length that keeps the rank order) and its [Next] fails with
    "Unexpected missing server entry" and closes the iterator, although
    other entries may be stored. *)
Theorem promoted_unknown_address (ipAddress : string) (config : Config)
    (w : World) (db : boltDB) (ranked : list string) :
  stringsRoundTrip ->
  singleton_db w = Some db ->
  healthy (engine w) ->
  rankIndex db = Ok ranked ->
  bucket_Get (serverEntries db) ipAddress = None ->
  TargetServerEntry config = "" ->
  Z.of_nat (length (candidateList (ipAddress :: firstn 100 ranked) db))
  <= TunnelPoolSize config ->
  exists w1 it w2 it',
    PromoteServerEntry ipAddress w = Done None w1
    /\ NewServerEntryIterator config w1 = Done (Ok it) w2
    /\ Next it w2
       = Done (Err (ContextError "Next"
                      (fmtErrorf ("Unexpected missing server entry: " ++ ipAddress))),
               it') w2
    /\ serverEntryIds it' = [].
Proof.
  intros Hstrings Hdb Hhealthy Hrank Hmissing Hnotarget Hpool.
  destruct (PromoteServerEntry_rank_run ipAddress w Hstrings Hdb Hhealthy Hrank)
    as [db' [Hpromote [Hrank' Hsame]]].
  assert (candidateList (ipAddress :: firstn 100 ranked) db'
          = candidateList (ipAddress :: firstn 100 ranked) db) as Hcand
    by (unfold candidateList; rewrite Hsame; reflexivity).
  set (it0 := mkIterator (EgressRegion config) (TunnelProtocol config)
                (TunnelPoolSize config) [] 0 false false None).
  destruct (Reset_without_shuffle it0
              (mkWorld (Some db') (engine w) (notices w) (globalRand w))
              (db := db') (ranked := ipAddress :: firstn 100 ranked)
              eq_refl (proj1 Hhealthy) eq_refl Hrank')
    as [nts HR].
  { cbn [shuffleHeadLength it0]. rewrite Hcand. exact Hpool. }
  do 4 eexists. split; [exact Hpromote|]. split.
  - unfold NewServerEntryIterator. rewrite Hnotarget. cbn [String.eqb negb].
    run. fold it0. rewrite HR. reflexivity.
  - unfold Next. cbn [isTargetServerEntryIterator set_ids Close it0 serverEntryIndex
                        serverEntryIds skipn].
    rewrite Hcand. unfold candidateList at 1. cbn [app nextLoop]. unfold bind at 1.
    erewrite db_View_read with (db := db'); [|reflexivity | exact (proj1 Hhealthy)].
    rewrite Hsame, Hmissing. unfold ret. split; reflexivity.
Qed.

(** *** Scans of the entries bucket *)

Lemma scanBucket_decoded {A : Type} (scanner : ServerEntry -> A -> A) (b : Bucket)
    (entries : list ServerEntry) :
  decodesAll b entries ->
  forall acc,
    scanBucket scanner b acc = Ok (fold_left (fun a e => scanner e a) entries acc).
Proof.
  induction 1 as [|[k v] e b entries Hdec _ IH]; intros acc; cbn.
  - reflexivity.
  - cbn in Hdec. rewrite Hdec. apply IH.
Qed.

Lemma scanBucket_corrupt {A : Type} (scanner : ServerEntry -> A -> A)
    (good : Bucket) (entries : list ServerEntry) (k v : bytes) (rest : Bucket)
    (e : error) :
  decodesAll good entries ->
  json_Unmarshal_ServerEntry v = Err e ->
  forall acc, scanBucket scanner (good ++ (k, v) :: rest)%list acc = Err e.
Proof.
  intros Hgood Hbad.
  induction Hgood as [|[k0 v0] e0 b entries0 Hdec _ IH]; intros acc; cbn.
  - rewrite Hbad. reflexivity.
  - cbn in Hdec. rewrite Hdec. apply IH.
Qed.

Lemma count_fold (p : ServerEntry -> bool) (entries : list ServerEntry) (init : Z) :
  fold_left (fun count e => if p e then count + 1 else count) entries init
  = init + Z.of_nat (length (filter p entries)).
Proof.
  revert init. induction entries as [|e entries IH]; intros init; cbn [fold_left filter].
  - cbn. lia.
  - rewrite IH. destruct (p e); cbn [length]; lia.
Qed.

Lemma append_fold (entries : list ServerEntry) (init : list string) :
  fold_left (fun ipAddresses e => (ipAddresses ++ [IpAddress e])%list) entries init
  = (init ++ map IpAddress entries)%list.
Proof.
  revert init. induction entries as [|e entries IH]; intros init; cbn [fold_left map].
  - rewrite app_nil_r. reflexivity.
  - rewrite IH, <- app_assoc. reflexivity.
Qed.

Lemma CountServerEntries_run (region protocol : string) (w : World) (db : boltDB) :
  singleton_db w = Some db ->
  beginView (engine w) = None ->
  CountServerEntries region protocol w
  = match scanBucket
            (fun serverEntry count =>
               if matchesFilter region protocol serverEntry then count + 1 else count)
            (serverEntries db) 0 with
    | Ok count => Done count w
    | Err err =>
        Done 0
          (mkWorld (Some db) (engine w)
             (notices w
                ++ [NoticeAlertMsg
                      ("CountServerEntries failed: "
                       ++ error_string (ContextError "scanServerEntries" err))])%list
             (globalRand w))
    end.
Proof.
  intros Hdb Hview. destruct w as [odb eng nts rnd]. cbn in Hdb, Hview. subst odb.
  unfold CountServerEntries, scanServerEntries, db_View. run.
  rewrite Hview. cbn [tx_db].
  destruct (scanBucket _ (serverEntries db) 0); reflexivity.
Qed.

Lemma GetServerEntryIpAddresses_run (w : World) (db : boltDB) :
  singleton_db w = Some db ->
  beginView (engine w) = None ->
  GetServerEntryIpAddresses w
  = match scanBucket
            (fun serverEntry ipAddresses => (ipAddresses ++ [IpAddress serverEntry])%list)
            (serverEntries db) [] with
    | Ok ipAddresses => Done (Ok ipAddresses) w
    | Err err =>
        Done (Err (ContextError "GetServerEntryIpAddresses"
                     (ContextError "scanServerEntries" err))) w
    end.
Proof.
  intros Hdb Hview. destruct w as [odb eng nts rnd]. cbn in Hdb, Hview. subst odb.
  unfold GetServerEntryIpAddresses, scanServerEntries, db_View. run.
  rewrite Hview. cbn [tx_db].
  destruct (scanBucket _ (serverEntries db) []); reflexivity.
Qed.

(** The two scans on a store whose records all decode. *)
Lemma scans_decoded (w : World) (db : boltDB)
    (entries : list ServerEntry) :
  singleton_db w = Some db ->
  beginView (engine w) = None ->
  decodesAll (serverEntries db) entries ->
  (forall region protocol,
     CountServerEntries region protocol w
     = Done (Z.of_nat (length (filter (matchesFilter region protocol) entries))) w)
  /\ CountServerEntries "" "" w = Done (Z.of_nat (length (serverEntries db))) w
  /\ GetServerEntryIpAddresses w = Done (Ok (map IpAddress entries)) w.
Proof.
  intros Hdb Hview Hdec.
  assert (forall region protocol,
            CountServerEntries region protocol w
            = Done (Z.of_nat (length (filter (matchesFilter region protocol) entries))) w)
    as Hcount.
  { intros region protocol.
    rewrite (CountServerEntries_run region protocol w Hdb Hview).
    rewrite (scanBucket_decoded _ Hdec), count_fold. reflexivity. }
  split; [exact Hcount|]. split.
  - rewrite Hcount. rewrite (Forall2_length Hdec).
    replace (filter (matchesFilter "" "") entries) with entries; [reflexivity|].
    clear. induction entries as [|e entries IH]; [reflexivity|].
    cbn [filter]. unfold matchesFilter at 1. cbn. rewrite <- IH. reflexivity.
  - rewrite (GetServerEntryIpAddresses_run w Hdb Hview).
    rewrite (scanBucket_decoded _ Hdec), append_fold. reflexivity.
Qed.

(** X20: on a readable store whose records all decode,
    [CountServerEntries] returns the number of stored entries that pass the
    region and protocol filter (all of them when both are empty) and
    [GetServerEntryIpAddresses] returns the address field of every stored
    entry in ascending key order; neither changes the process state. *)
Theorem scans_of_decodable_store (w : World) (db : boltDB)
    (entries : list ServerEntry) :
  singleton_db w = Some db ->
  beginView (engine w) = None ->
  decodesAll (serverEntries db) entries ->
  (forall region protocol,
     CountServerEntries region protocol w
     = Done (Z.of_nat (length (filter (matchesFilter region protocol) entries))) w)
  /\ CountServerEntries "" "" w = Done (Z.of_nat (length (serverEntries db))) w
  /\ GetServerEntryIpAddresses w = Done (Ok (map IpAddress entries)) w.
Proof. exact (@scans_decoded w db entries). Qed.

(** X21: one stored record that does not decode hides every entry from
    the scans: [CountServerEntries] emits an alert and returns 0 whatever
    the other records hold, and [GetServerEntryIpAddresses] returns the
    decoding error wrapped and no address. *)
Theorem scans_of_corrupt_store (w : World) (db : boltDB) (good : Bucket)
    (entries : list ServerEntry) (k v : bytes) (rest : Bucket) (e : error) :
  singleton_db w = Some db ->
  beginView (engine w) = None ->
  serverEntries db = (good ++ (k, v) :: rest)%list ->
  decodesAll good entries ->
  json_Unmarshal_ServerEntry v = Err e ->
  (forall region protocol,
     CountServerEntries region protocol w
     = Done 0
         (mkWorld (Some db) (engine w)
            (notices w
               ++ [NoticeAlertMsg
                     ("CountServerEntries failed: "
                      ++ error_string (ContextError "scanServerEntries" e))])%list
            (globalRand w)))
  /\ GetServerEntryIpAddresses w
     = Done (Err (ContextError "GetServerEntryIpAddresses"
                    (ContextError "scanServerEntries" e))) w.
Proof.
  intros Hdb Hview Hbucket Hgood Hbad. split.
  - intros region protocol.
    rewrite (CountServerEntries_run region protocol w Hdb Hview), Hbucket.
    erewrite scanBucket_corrupt by eassumption. reflexivity.
  - rewrite (GetServerEntryIpAddresses_run w Hdb Hview), Hbucket.
    erewrite scanBucket_corrupt by eassumption. reflexivity.
Qed.

Lemma decodesAll_insert (b : Bucket) (entries : list ServerEntry) (k v : bytes)
    (e : ServerEntry) :
  decodesAll b entries ->
  bucket_Get b k = None ->
  json_Unmarshal_ServerEntry v = Ok e ->
  exists entries',
    decodesAll (bucket_insert b k v) entries' /\ Permutation (e :: entries) entries'.
Proof.
  intros Hdec. revert k v e.
  induction Hdec as [|[k0 v0] e0 b entries Hd Hrest IH]; intros k v e Hfresh Hv.
  - exists [e]. split; [|reflexivity]. cbn. constructor; [exact Hv | constructor].
  - cbn [bucket_Get] in Hfresh.
    destruct (String.eqb k0 k) eqn:Ek; [discriminate|].
    cbn [bucket_insert]. destruct (String.compare k k0) eqn:Hcmp.
    + apply String.compare_eq_iff in Hcmp. subst.
      rewrite String.eqb_refl in Ek. discriminate.
    + exists (e :: e0 :: entries). split; [|reflexivity].
      constructor; [exact Hv|]. constructor; [exact Hd | exact Hrest].
    + destruct (IH k v e Hfresh Hv) as [entries' [Hdec' Hperm]].
      exists (e0 :: entries'). split.
      * constructor; [exact Hd | exact Hdec'].
      * rewrite perm_swap. apply perm_skip. exact Hperm.
Qed.

(** X22: storing a valid entry under an address not stored before, whose
    serialization decodes back to it, adds exactly that entry to what the
    scans see: the listed addresses are the old ones and the new one, and
    the count for a filter grows by one if the entry passes it and is
    unchanged otherwise. *)
Theorem StoreServerEntry_then_scans (serverEntry : ServerEntry) (replaceIfExists : bool)
    (w : World) (db : boltDB) (data : bytes) (ranked : list string)
    (entries : list ServerEntry) :
  stringsRoundTrip ->
  singleton_db w = Some db ->
  healthy (engine w) ->
  net_ParseIP (IpAddress serverEntry) = true ->
  bucket_Get (serverEntries db) (IpAddress serverEntry) = None ->
  json_Marshal_ServerEntry serverEntry = Ok data ->
  json_Unmarshal_ServerEntry data = Ok serverEntry ->
  rankIndex db = Ok ranked ->
  decodesAll (serverEntries db) entries ->
  exists w' ipAddresses,
    StoreServerEntry serverEntry replaceIfExists w = Done None w'
    /\ GetServerEntryIpAddresses w' = Done (Ok ipAddresses) w'
    /\ Permutation (IpAddress serverEntry :: map IpAddress entries) ipAddresses
    /\ forall region protocol,
         CountServerEntries region protocol w'
         = Done (Z.of_nat (length (filter (matchesFilter region protocol) entries))
                 + (if matchesFilter region protocol serverEntry then 1 else 0)) w'.
Proof.
  intros Hstrings Hdb Hhealthy Hip Hfresh Hdata Hback Hrank Hdec.
  destruct (Hstrings (firstn 1 ranked
                        ++ IpAddress serverEntry :: skipn 1 (firstn 100 ranked))%list)
    as [rankedData [Hm Hu]].
  destruct (decodesAll_insert (IpAddress serverEntry) data Hdec Hfresh Hback)
    as [entries' [Hdec' Hperm]].
  erewrite StoreServerEntry_writes; eauto using insertRanked_next.
  match goal with
  | |- context [Done None ?w1] =>
      destruct (@scans_decoded w1 _ entries' eq_refl (proj1 Hhealthy))
        as [Hcount [_ Hlist]]; [exact Hdec'|]
  end.
  do 2 eexists. split; [reflexivity|]. split; [exact Hlist|]. split.
  - change (IpAddress serverEntry :: map IpAddress entries)
      with (map IpAddress (serverEntry :: entries)).
    apply Permutation_map. exact Hperm.
  - intros region protocol. rewrite Hcount. f_equal.
    assert (Permutation (filter (matchesFilter region protocol) (serverEntry :: entries))
                        (filter (matchesFilter region protocol) entries')) as Hf.
    { clear - Hperm. induction Hperm; cbn [filter].
      - constructor.
      - destruct (matchesFilter region protocol x); [apply perm_skip|]; exact IHHperm.
      - destruct (matchesFilter region protocol x), (matchesFilter region protocol y);
          try reflexivity. apply perm_swap.
      - eapply Permutation_trans; eauto. }
    rewrite <- (Permutation_length Hf). cbn [filter].
    destruct (matchesFilter region protocol serverEntry); cbn [length]; lia.
Qed.

(** *** Split tunnel routes, URL ETags and key/values *)

Ltac run_kv :=
  unfold SetKeyValue, GetKeyValue, SetUrlETag, GetUrlETag, SetSplitTunnelRoutes,
    GetSplitTunnelRoutesETag, GetSplitTunnelRoutesData, db_Update, db_View, bucket_Put;
  run.

(** X23: on a healthy engine [SetKeyValue] succeeds, and afterwards
    [GetKeyValue] returns the stored value for that key and what it
    returned before for every other key; the notices, the random source and
    the other buckets are untouched.  A key never set reads as the empty
    string, without an error. *)
Theorem SetKeyValue_GetKeyValue (key value : string) (w : World) (db : boltDB) :
  singleton_db w = Some db ->
  healthy (engine w) ->
  exists db',
    SetKeyValue key value w = Done None (set_db w db')
    /\ GetKeyValue key (set_db w db') = Done (Ok value) (set_db w db')
    /\ (forall key', key' <> key ->
          exists value',
            GetKeyValue key' w = Done (Ok value') w
            /\ GetKeyValue key' (set_db w db') = Done (Ok value') (set_db w db'))
    /\ (forall key', bucket_Get (keyValues db) key' = None ->
          GetKeyValue key' w = Done (Ok "") w)
    /\ serverEntries db' = serverEntries db
    /\ rankedServerEntries db' = rankedServerEntries db
    /\ urlETags db' = urlETags db
    /\ splitTunnelRouteETags db' = splitTunnelRouteETags db
    /\ splitTunnelRouteData db' = splitTunnelRouteData db.
Proof.
  intros Hdb [Hview [Hupdate [Hput Hcommit]]].
  destruct w as [odb eng nts rnd]. cbn in Hdb, Hview, Hupdate, Hput, Hcommit. subst odb.
  exists (set_keyValues db (bucket_insert (keyValues db) key value)).
  split; [|split; [|split; [|split]]].
  - run_kv. rewrite Hupdate, Hput, Hcommit. reflexivity.
  - run_kv. rewrite Hview. cbn [tx_db set_keyValues keyValues].
    rewrite bucket_Get_insert, String.eqb_refl. reflexivity.
  - intros key' Hneq. exists (stringOf (bucket_Get (keyValues db) key')). split.
    + run_kv. rewrite Hview. reflexivity.
    + run_kv. rewrite Hview. cbn [tx_db set_keyValues keyValues].
      rewrite bucket_Get_insert.
      destruct (String.eqb key key') eqn:E; [|reflexivity].
      apply String.eqb_eq in E. congruence.
  - intros key' Hmissing. run_kv. rewrite Hview. cbn [tx_db]. rewrite Hmissing.
    reflexivity.
  - repeat split.
Qed.

(** X24: on a healthy engine [SetUrlETag] succeeds, and afterwards
    [GetUrlETag] returns the stored ETag for that URL and what it returned
    before for every other URL; the URL is the key as given, so two
    different strings never share an ETag.  A URL never set reads as the
    empty string. *)
Theorem SetUrlETag_GetUrlETag (url etag : string) (w : World) (db : boltDB) :
  singleton_db w = Some db ->
  healthy (engine w) ->
  exists db',
    SetUrlETag url etag w = Done None (set_db w db')
    /\ GetUrlETag url (set_db w db') = Done (Ok etag) (set_db w db')
    /\ (forall url', url' <> url ->
          exists etag',
            GetUrlETag url' w = Done (Ok etag') w
            /\ GetUrlETag url' (set_db w db') = Done (Ok etag') (set_db w db'))
    /\ (forall url', bucket_Get (urlETags db) url' = None ->
          GetUrlETag url' w = Done (Ok "") w)
    /\ serverEntries db' = serverEntries db
    /\ rankedServerEntries db' = rankedServerEntries db
    /\ keyValues db' = keyValues db
    /\ splitTunnelRouteETags db' = splitTunnelRouteETags db
    /\ splitTunnelRouteData db' = splitTunnelRouteData db.
Proof.
  intros Hdb [Hview [Hupdate [Hput Hcommit]]].
  destruct w as [odb eng nts rnd]. cbn in Hdb, Hview, Hupdate, Hput, Hcommit. subst odb.
  exists (set_urlETags db (bucket_insert (urlETags db) url etag)).
  split; [|split; [|split; [|split]]].
  - run_kv. rewrite Hupdate, Hput, Hcommit. reflexivity.
  - run_kv. rewrite Hview. cbn [tx_db set_urlETags urlETags].
    rewrite bucket_Get_insert, String.eqb_refl. reflexivity.
  - intros url' Hneq. exists (stringOf (bucket_Get (urlETags db) url')). split.
    + run_kv. rewrite Hview. reflexivity.
    + run_kv. rewrite Hview. cbn [tx_db set_urlETags urlETags].
      rewrite bucket_Get_insert.
      destruct (String.eqb url url') eqn:E; [|reflexivity].
      apply String.eqb_eq in E. congruence.
  - intros url' Hmissing. run_kv. rewrite Hview. cbn [tx_db]. rewrite Hmissing.
    reflexivity.
  - repeat split.
Qed.

(** X25: on a healthy engine [SetSplitTunnelRoutes] succeeds, and
    afterwards the two getters return the ETag and the data stored for that
    region, and what they returned before for every other region.  A region
    never set reads as the empty ETag and as nil data. *)
Theorem SetSplitTunnelRoutes_round_trip (region etag : string) (data : bytes)
    (w : World) (db : boltDB) :
  singleton_db w = Some db ->
  healthy (engine w) ->
  exists db',
    SetSplitTunnelRoutes region etag data w = Done None (set_db w db')
    /\ GetSplitTunnelRoutesETag region (set_db w db') = Done (Ok etag) (set_db w db')
    /\ GetSplitTunnelRoutesData region (set_db w db')
       = Done (Ok (Some data)) (set_db w db')
    /\ (forall region', region' <> region ->
          exists etag' data',
            GetSplitTunnelRoutesETag region' w = Done (Ok etag') w
            /\ GetSplitTunnelRoutesETag region' (set_db w db')
               = Done (Ok etag') (set_db w db')
            /\ GetSplitTunnelRoutesData region' w = Done (Ok data') w
            /\ GetSplitTunnelRoutesData region' (set_db w db')
               = Done (Ok data') (set_db w db'))
    /\ (forall region',
          bucket_Get (splitTunnelRouteETags db) region' = None ->
          bucket_Get (splitTunnelRouteData db) region' = None ->
          GetSplitTunnelRoutesETag region' w = Done (Ok "") w
          /\ GetSplitTunnelRoutesData region' w = Done (Ok None) w).
Proof.
  intros Hdb [Hview [Hupdate [Hput Hcommit]]].
  destruct w as [odb eng nts rnd]. cbn in Hdb, Hview, Hupdate, Hput, Hcommit. subst odb.
  exists (set_splitTunnelRouteData
            (set_splitTunnelRouteETags db
               (bucket_insert (splitTunnelRouteETags db) region etag))
            (bucket_insert (splitTunnelRouteData db) region data)).
  split; [|split; [|split; [|split]]].
  - run_kv. rewrite Hupdate, !Hput, Hcommit. reflexivity.
  - run_kv. rewrite Hview.
    cbn [tx_db set_splitTunnelRouteData set_splitTunnelRouteETags
         splitTunnelRouteETags splitTunnelRouteData].
    rewrite bucket_Get_insert, String.eqb_refl. reflexivity.
  - run_kv. rewrite Hview.
    cbn [tx_db set_splitTunnelRouteData set_splitTunnelRouteETags
         splitTunnelRouteETags splitTunnelRouteData].
    rewrite bucket_Get_insert, String.eqb_refl. reflexivity.
  - intros region' Hneq.
    assert (String.eqb region region' = false) as E.
    { destruct (String.eqb region region') eqn:E; [|reflexivity].
      apply String.eqb_eq in E. congruence. }
    exists (stringOf (bucket_Get (splitTunnelRouteETags db) region')),
           (bucket_Get (splitTunnelRouteData db) region').
    repeat split; run_kv; rewrite Hview;
      cbn [tx_db set_splitTunnelRouteData set_splitTunnelRouteETags
           splitTunnelRouteETags splitTunnelRouteData];
      rewrite ?bucket_Get_insert, ?E; reflexivity.
  - intros region' He Hd. split; run_kv; rewrite Hview; cbn [tx_db];
      rewrite ?He, ?Hd; reflexivity.
Qed.

(** X26: [SetSplitTunnelRoutes] drops the result of writing the ETag.
    When the engine refuses that write but accepts the data write and the
    commit, the call reports success, the new data is stored, and the ETag
    read back is the one from before the call. *)
Theorem SetSplitTunnelRoutes_drops_etag_error (region etag : string) (data : bytes)
    (w : World) (db : boltDB) (e : error) :
  singleton_db w = Some db ->
  beginView (engine w) = None ->
  beginUpdate (engine w) = None ->
  putFault (engine w) splitTunnelRouteETagsBucket region = Some e ->
  putFault (engine w) splitTunnelRouteDataBucket region = None ->
  commitFault (engine w) = None ->
  exists w' oldETag,
    SetSplitTunnelRoutes region etag data w = Done None w'
    /\ GetSplitTunnelRoutesData region w' = Done (Ok (Some data)) w'
    /\ GetSplitTunnelRoutesETag region w = Done (Ok oldETag) w
    /\ GetSplitTunnelRoutesETag region w' = Done (Ok oldETag) w'.
Proof.
  intros Hdb Hview Hupdate Hetag Hdata Hcommit.
  destruct w as [odb eng nts rnd].
  cbn in Hdb, Hview, Hupdate, Hetag, Hdata, Hcommit. subst odb.
  exists (mkWorld
            (Some (set_splitTunnelRouteData db
                     (bucket_insert (splitTunnelRouteData db) region data)))
            eng nts rnd),
         (stringOf (bucket_Get (splitTunnelRouteETags db) region)).
  split; [|split; [|split]].
  - run_kv. rewrite Hupdate, Hetag. cbn [tx_db tx_engine]. rewrite Hdata, Hcommit.
    reflexivity.
  - run_kv. rewrite Hview. cbn [tx_db set_splitTunnelRouteData splitTunnelRouteData].
    rewrite bucket_Get_insert, String.eqb_refl. reflexivity.
  - run_kv. rewrite Hview. reflexivity.
  - run_kv. rewrite Hview. reflexivity.
Qed.

(** X27: a setter that returns an error has changed nothing: after a
    failed [SetKeyValue], [SetUrlETag] or [SetSplitTunnelRoutes] the process
    state is the one before the call, and the error is wrapped once. *)
Theorem failed_set_changes_nothing (w w' : World) (err : error) :
  (forall key value,
     SetKeyValue key value w = Done (Some err) w' ->
     w' = w /\ exists e, err = ContextError "SetKeyValue" e)
  /\ (forall url etag,
        SetUrlETag url etag w = Done (Some err) w' ->
        w' = w /\ exists e, err = ContextError "SetUrlETag" e)
  /\ (forall region etag data,
        SetSplitTunnelRoutes region etag data w = Done (Some err) w' ->
        w' = w /\ exists e, err = ContextError "SetSplitTunnelRoutes" e).
Proof.
  split; [|split]; intros *;
    unfold SetKeyValue, SetUrlETag, SetSplitTunnelRoutes;
    unfold checkInitDataStore, bind at 1;
    (destruct (singleton_db w) eqn:Hdb; [|discriminate]);
    unfold bind at 1;
    match goal with
    | |- context [db_Update ?fn w] =>
        destruct (db_Update fn w) as [r w1|] eqn:Hup; [|discriminate];
        apply db_Update_inv in Hup
    end;
    (destruct r as [u|e0]; unfold ret; intros H; inversion H; subst;
     split; [reflexivity | eexists; reflexivity]).
Qed.

(** X28: before the data store is initialized every store operation
    panics in [checkInitDataStore]; none returns an error value.  An iterator
    pinned to a target server entry is the one entry point that does not
    consult the store. *)
Theorem uninitialized_store_panics (w : World) :
  singleton_db w = None ->
  (forall serverEntry replaceIfExists,
     StoreServerEntry serverEntry replaceIfExists w = notInitialized)
  /\ (forall ipAddress, PromoteServerEntry ipAddress w = notInitialized)
  /\ (forall region protocol, CountServerEntries region protocol w = notInitialized)
  /\ GetServerEntryIpAddresses w = notInitialized
  /\ (forall config,
        TargetServerEntry config = "" -> NewServerEntryIterator config w = notInitialized)
  /\ (forall key value, SetKeyValue key value w = notInitialized)
  /\ (forall key, GetKeyValue key w = notInitialized)
  /\ (forall url etag, SetUrlETag url etag w = notInitialized)
  /\ (forall url, GetUrlETag url w = notInitialized)
  /\ (forall region etag data, SetSplitTunnelRoutes region etag data w = notInitialized)
  /\ (forall region, GetSplitTunnelRoutesETag region w = notInitialized)
  /\ (forall region, GetSplitTunnelRoutesData region w = notInitialized).
Proof.
  intros Hdb. unfold notInitialized.
  repeat split; intros;
    unfold StoreServerEntry, PromoteServerEntry, CountServerEntries,
      GetServerEntryIpAddresses, NewServerEntryIterator, SetKeyValue, GetKeyValue,
      SetUrlETag, GetUrlETag, SetSplitTunnelRoutes, GetSplitTunnelRoutesETag,
      GetSplitTunnelRoutesData;
    try match goal with
        | H : TargetServerEntry _ = "" |- _ => rewrite H; cbn [String.eqb negb]
        end;
    unfold bind at 1; unfold checkInitDataStore; rewrite Hdb; reflexivity.
Qed.

End Psiphon.

(** ** The stand-ins meet what the properties ask of the standard library *)

Import Fixture.

Lemma append_empty_r (s : string) : s ++ "" = s.
Proof. induction s as [|c s IH]; cbn; [reflexivity | rewrite IH; reflexivity]. Qed.

Lemma append_assoc (a b c : string) : (a ++ b) ++ c = a ++ (b ++ c).
Proof. induction a as [|x a IH]; cbn; [reflexivity | rewrite IH; reflexivity]. Qed.

Lemma decodeFrom_encodeString (s rest current : string) :
  decodeFrom (encodeString s ++ rest) current
  = option_map (cons (current ++ s)) (decodeFrom rest "").
Proof.
  revert current. induction s as [|c s IH]; intros current.
  - cbn. rewrite append_empty_r. reflexivity.
  - cbn [encodeString append decodeFrom].
    change (Ascii.eqb "."%char ";"%char) with false.
    change (Ascii.eqb "."%char "."%char) with true.
    cbv iota. rewrite IH, append_assoc. reflexivity.
Qed.

Lemma decodeFrom_encodeStrings (l : list string) :
  decodeFrom (encodeStrings l) "" = Some l.
Proof.
  induction l as [|s l IH]; [reflexivity|].
  cbn [encodeStrings]. rewrite decodeFrom_encodeString, IH. reflexivity.
Qed.

Lemma fixture_stringsRoundTrip : stringsRoundTrip marshalStrings unmarshalStrings.
Proof.
  intros l. exists (encodeStrings l). split; [reflexivity|].
  unfold unmarshalStrings. rewrite decodeFrom_encodeStrings. reflexivity.
Qed.

Lemma fixture_marshalsEntries : marshalsEntries marshalEntry.
Proof. intros e. eexists. reflexivity. Qed.

Lemma fixture_healthy : healthy healthyEngine.
Proof. repeat split. Qed.

Lemma distinct_NoDup (l : list string) : distinct l = true -> NoDup l.
Proof.
  induction l as [|x l IH]; intros H; [constructor|].
  cbn in H. apply andb_true_iff in H. destruct H as [Hx Hl].
  constructor; [|apply IH; exact Hl].
  intros Hin. apply negb_true_iff in Hx.
  assert (existsb (String.eqb x) l = true) as Hex.
  { apply existsb_exists. exists x. split; [exact Hin | apply String.eqb_refl]. }
  congruence.
Qed.

(** ** Examples *)

(** Round-trip decode: four legacy fields and a record decode to the
    record. *)
Example DecodeServerEntry_round_trip :
  DecodeServerEntry decodeEntry (encodeEntry entryB) = Ok (Some entryB).
Proof. vm_compute. reflexivity. Qed.

(** Batch skip: of three lines, the one with a malformed address is
    dropped with an alert and the two others are returned in order. *)
Example DecodeAndValidateServerEntryList_batch_skip :
  DecodeAndValidateServerEntryList parseIP decodeEntry threeLines freshWorld
  = Done (Ok [entryA; entryC])
      (mkWorld (Some emptyDB) healthyEngine
         [NoticeAlertMsg "server entry has invalid IpAddress: 'not-an-address'"]
         zeroTape).
Proof. vm_compute. reflexivity. Qed.

(** ** Witnesses and counterexamples *)


Lemma StoreServerEntry_invalid_unchanged_witness :
  exists err w',
    StoreServerEntry parseIP marshalEntry marshalStrings unmarshalStrings
      (entry "not-an-address" "" ["SSH"]) true freshWorld = Done (Some err) w'
    /\ singleton_db w' = Some emptyDB
    /\ engine w' = engine freshWorld
    /\ globalRand w' = globalRand freshWorld.
Proof.
  apply (StoreServerEntry_invalid_unchanged parseIP marshalEntry marshalStrings
           unmarshalStrings (entry "not-an-address" "" ["SSH"]) true freshWorld
           (db := emptyDB)).
  - reflexivity.
  - reflexivity.
Defined.

Lemma StoreServerEntry_replace_semantics_witness :
  StoreServerEntry parseIP marshalEntry marshalStrings unmarshalStrings
    E1' false (worldOf [E1] ["1.2.3.4"])
  = Done None (worldOf [E1] ["1.2.3.4"])
  /\ exists w' db',
       StoreServerEntry parseIP marshalEntry marshalStrings unmarshalStrings
         E1' true (worldOf [E1] ["1.2.3.4"]) = Done None w'
       /\ singleton_db w' = Some db'
       /\ bucket_Get (serverEntries db') "1.2.3.4" = Some (recordOf E1').
Proof.
  destruct (StoreServerEntry_replace_semantics parseIP marshalEntry marshalStrings
              unmarshalStrings (worldOf [E1] ["1.2.3.4"])
              (db := storeOf [E1] ["1.2.3.4"]) (p := "1.2.3.4")
              (stored := recordOf E1) E1' eq_refl eq_refl eq_refl eq_refl)
    as [Hkeep Hreplace].
  split.
  - apply Hkeep; reflexivity.
  - apply (Hreplace (recordOf E1') ["1.2.3.4"]).
    + exact fixture_healthy.
    + reflexivity.
    + reflexivity.
    + intros l. eexists. reflexivity.
Defined.

Lemma Next_yields_only_supporting_witness :
  Contains (Capabilities entryB) (strings_TrimSuffix "FRONTED-MEEK-OSSH" "-OSSH") = true.
Proof.
  eapply (Next_yields_only_supporting (json_decode_ServerEntry := decodeEntry)
            (json_Unmarshal_strings := unmarshalStrings) meekConfig
            meekWorld meekWorld).
  - discriminate.
  - vm_compute. reflexivity.
  - apply reachable_start.
  - vm_compute. reflexivity.
Defined.

Lemma DecodeAndValidateServerEntryList_null_entry_witness :
  DecodeServerEntry decodeEntry "61206220632064206e756c6c" = Ok None
  /\ DecodeAndValidateServerEntryList parseIP decodeEntry
       "61206220632064206e756c6c" freshWorld
     = Panicked "invalid memory address or nil pointer dereference".
Proof.
  apply (DecodeAndValidateServerEntryList_null_entry parseIP decodeEntry freshWorld).
  reflexivity.
Defined.



Lemma rank_index_exceeds_cap_witness :
  exists w' db' ranked',
    storeEach parseIP marshalEntry marshalStrings unmarshalStrings
      (numberedEntries 150) false freshWorld = Done None w'
    /\ singleton_db w' = Some db'
    /\ rankIndex unmarshalStrings db' = Ok ranked'
    /\ length ranked' = 101%nat
    /\ Z.of_nat (length ranked') > rankedServerEntryCount.
Proof.
  apply (@rank_index_exceeds_cap parseIP marshalEntry marshalStrings unmarshalStrings
           (numberedEntries 150) false freshWorld emptyDB).
  - exact fixture_marshalsEntries.
  - exact fixture_stringsRoundTrip.
  - reflexivity.
  - exact fixture_healthy.
  - reflexivity.
  - reflexivity.
  - vm_compute. reflexivity.
  - apply Forall_forall. apply forallb_forall. vm_compute. reflexivity.
  - apply distinct_NoDup. vm_compute. reflexivity.
Defined.

Lemma Reset_moves_head_witness :
  (exists it' w',
     Reset decodeEntry unmarshalStrings (mkIterator "" "" 3 [] 0 false false None)
       (mkWorld (Some (storeOf (numberedEntries 10) (map IpAddress (numberedEntries 10))))
          healthyEngine [] (mkRand (fun _ => 0) 0))
     = Done (None, it') w'
     /\ serverEntryIds it'
        = ["10.0.0.3"; "10.0.0.1"; "10.0.0.2"; "10.0.0.4"; "10.0.0.5"; "10.0.0.6";
           "10.0.0.7"; "10.0.0.8"; "10.0.0.9"; "10.0.0.0"]
     /\ firstn 3 (serverEntryIds it') <> ["10.0.0.0"; "10.0.0.1"; "10.0.0.2"])
  /\ (exists it' w',
        Reset decodeEntry unmarshalStrings (mkIterator "" "" 3 [] 0 false false None)
          (mkWorld (Some (storeOf (numberedEntries 10) (map IpAddress (numberedEntries 10))))
             healthyEngine [] (mkRand (fun _ => 1) 0))
        = Done (None, it') w'
        /\ serverEntryIds it'
           = ["10.0.0.0"; "10.0.0.3"; "10.0.0.2"; "10.0.0.4"; "10.0.0.5"; "10.0.0.6";
              "10.0.0.7"; "10.0.0.8"; "10.0.0.9"; "10.0.0.1"]
        /\ firstn 3 (serverEntryIds it') <> ["10.0.0.0"; "10.0.0.1"; "10.0.0.2"]).
Proof.
  apply (@Reset_moves_head decodeEntry unmarshalStrings
           "10.0.0.0" "10.0.0.1" "10.0.0.2" "10.0.0.3" "10.0.0.4"
           "10.0.0.5" "10.0.0.6" "10.0.0.7" "10.0.0.8" "10.0.0.9"
           (storeOf (numberedEntries 10) (map IpAddress (numberedEntries 10)))
           healthyEngine [] 0 (mkIterator "" "" 3 [] 0 false false None)).
  - apply distinct_NoDup. vm_compute. reflexivity.
  - vm_compute. reflexivity.
  - intros k Hk. vm_compute in Hk. exact Hk.
  - reflexivity.
  - reflexivity.
  - reflexivity.
Defined.

Lemma promoted_entry_not_first_witness :
  exists w',
    promotionScenario parseIP marshalEntry decodeEntry marshalStrings unmarshalStrings
      entryA entryB entryC 1 freshWorld
    = Done (Ok (Some (MakeCompatibleServerEntry entryA))) w'
    /\ IpAddress (MakeCompatibleServerEntry entryA) <> IpAddress entryB.
Proof.
  apply (@promoted_entry_not_first parseIP marshalEntry decodeEntry marshalStrings
           unmarshalStrings entryA entryB entryC (recordOf entryA)
           freshWorld emptyDB 0%nat).
  - exact fixture_marshalsEntries.
  - exact fixture_stringsRoundTrip.
  - reflexivity.
  - vm_compute. reflexivity.
  - reflexivity.
  - reflexivity.
  - reflexivity.
  - discriminate.
  - discriminate.
  - discriminate.
  - reflexivity.
  - reflexivity.
  - reflexivity.
  - exact fixture_healthy.
  - reflexivity.
Defined.

(** ** Witnesses of the further properties *)

Lemma DecodeServerEntry_legacy_fields_witness :
  DecodeServerEntry decodeEntry (encodeEntry entryB) = Ok (Some entryB).
Proof.
  apply (@DecodeServerEntry_legacy_fields decodeEntry (encodeEntry entryB)
           "0" "0" "0" "0" (recordOf entryB)); reflexivity.
Defined.

Lemma DecodeAndValidateServerEntryList_safe_witness :
  singleton_db afterThreeLines = singleton_db freshWorld
  /\ engine afterThreeLines = engine freshWorld
  /\ globalRand afterThreeLines = globalRand freshWorld
  /\ (exists added, notices afterThreeLines = (notices freshWorld ++ added)%list)
  /\ (forall serverEntries,
        Ok [entryA; entryC] = Ok serverEntries ->
        Forall (fun e => parseIP (IpAddress e) = true) serverEntries).
Proof.
  apply (@DecodeAndValidateServerEntryList_safe parseIP decodeEntry threeLines
           freshWorld afterThreeLines (Ok [entryA; entryC])).
  vm_compute. reflexivity.
Defined.

Lemma DecodeAndValidateServerEntryList_valid_witness :
  DecodeAndValidateServerEntryList parseIP decodeEntry threeLines freshWorld
  = Done (Ok [entryA; entryC]) afterThreeLines.
Proof.
  apply (@DecodeAndValidateServerEntryList_valid parseIP decodeEntry threeLines
           [entryA; entry "not-an-address" "" ["SSH"]; entryC] freshWorld).
  repeat (apply decodesTo_entry; [discriminate | vm_compute; reflexivity |]).
  apply decodesTo_nil.
Defined.

Lemma DecodeAndValidateServerEntryList_fatal_witness :
  exists e w',
    DecodeAndValidateServerEntryList parseIP decodeEntry brokenLines freshWorld
    = Done (Err (ContextError "DecodeAndValidateServerEntryList" e)) w'
    /\ singleton_db w' = singleton_db freshWorld.
Proof.
  eexists.
  apply (@DecodeAndValidateServerEntryList_fatal parseIP decodeEntry brokenLines
           [encodeEntry entryA] [entryA] "zz" [] _ freshWorld).
  - vm_compute. reflexivity.
  - apply decodesTo_entry; [discriminate | vm_compute; reflexivity | apply decodesTo_nil].
  - discriminate.
  - vm_compute. reflexivity.
Defined.

Lemma PromoteServerEntry_rank_witness :
  exists db',
    PromoteServerEntry marshalStrings unmarshalStrings "3.3.3.3" meekWorld
    = Done None (mkWorld (Some db') healthyEngine [] zeroTape)
    /\ rankIndex unmarshalStrings db'
       = Ok ["3.3.3.3"; "1.1.1.1"; "2.2.2.2"; "3.3.3.3"]
    /\ serverEntries db'
       = serverEntries
           (storeOf [entryA; entryB; entryC] ["1.1.1.1"; "2.2.2.2"; "3.3.3.3"]).
Proof.
  apply (@PromoteServerEntry_rank marshalStrings unmarshalStrings "3.3.3.3" meekWorld
           (storeOf [entryA; entryB; entryC] ["1.1.1.1"; "2.2.2.2"; "3.3.3.3"])
           ["1.1.1.1"; "2.2.2.2"; "3.3.3.3"]).
  - exact fixture_stringsRoundTrip.
  - reflexivity.
  - exact fixture_healthy.
  - vm_compute. reflexivity.
Defined.

Lemma StoreServerEntry_next_to_top_witness :
  exists w' db',
    StoreServerEntry parseIP marshalEntry marshalStrings unmarshalStrings
      (entry "4.4.4.4" "" ["SSH"]) false meekWorld = Done None w'
    /\ singleton_db w' = Some db'
    /\ rankIndex unmarshalStrings db'
       = Ok ["1.1.1.1"; "4.4.4.4"; "2.2.2.2"; "3.3.3.3"].
Proof.
  destruct (@StoreServerEntry_next_to_top parseIP marshalEntry marshalStrings
              unmarshalStrings (entry "4.4.4.4" "" ["SSH"]) false meekWorld
              (storeOf [entryA; entryB; entryC] ["1.1.1.1"; "2.2.2.2"; "3.3.3.3"])
              (recordOf (entry "4.4.4.4" "" ["SSH"]))
              ["1.1.1.1"; "2.2.2.2"; "3.3.3.3"])
    as [w' [db' [ranked' [Hrun [Hdb [_ [_ [Hrank [Hranked' _]]]]]]]]].
  - exact fixture_stringsRoundTrip.
  - reflexivity.
  - exact fixture_healthy.
  - reflexivity.
  - right. reflexivity.
  - reflexivity.
  - vm_compute. reflexivity.
  - exists w', db'. split; [exact Hrun|]. split; [exact Hdb|].
    rewrite Hrank, Hranked'. reflexivity.
Defined.

Lemma failed_write_changes_nothing_witness :
  exists err w',
    StoreServerEntry parseIP marshalEntry marshalStrings unmarshalStrings
      (entry "not-an-address" "" ["SSH"]) true freshWorld = Done (Some err) w'
    /\ singleton_db w' = singleton_db freshWorld
    /\ engine w' = engine freshWorld
    /\ globalRand w' = globalRand freshWorld.
Proof.
  do 2 eexists. split; [vm_compute; reflexivity|].
  eapply (proj1 (@failed_write_changes_nothing parseIP marshalEntry marshalStrings
                  unmarshalStrings freshWorld _ _)
           (entry "not-an-address" "" ["SSH"]) true).
  vm_compute. reflexivity.
Defined.

Lemma StoreServerEntry_success_effects_witness :
  exists w' db',
    StoreServerEntry parseIP marshalEntry marshalStrings unmarshalStrings
      (entry "4.4.4.4" "" ["SSH"]) false meekWorld = Done None w'
    /\ singleton_db w' = Some db'
    /\ notices w' = [NoticeInfoMsg "updated server 4.4.4.4"]
    /\ keyValues db' = [].
Proof.
  destruct (StoreServerEntry parseIP marshalEntry marshalStrings unmarshalStrings
              (entry "4.4.4.4" "" ["SSH"]) false meekWorld) as [[err|] w'|] eqn:Hrun;
    try (vm_compute in Hrun; discriminate).
  destruct (@StoreServerEntry_success_effects parseIP marshalEntry marshalStrings
              unmarshalStrings (entry "4.4.4.4" "" ["SSH"]) false meekWorld w'
              (storeOf [entryA; entryB; entryC] ["1.1.1.1"; "2.2.2.2"; "3.3.3.3"])
              eq_refl Hrun)
    as [db' [Hdb [_ [_ [Hnotices [_ [_ [_ [_ [Hkv _]]]]]]]]]].
  exists w', db'. repeat split; assumption.
Defined.

Lemma shuffleLoop_rearranges_witness :
  exists serverEntryIds' r',
    shuffleLoop 4 2 ["a"; "b"; "c"; "d"] zeroTape = Done serverEntryIds' r'
    /\ Permutation ["a"; "b"; "c"; "d"] serverEntryIds'
    /\ draws r' = draws zeroTape
    /\ cursor r' = 2%nat.
Proof.
  apply (@shuffleLoop_rearranges 4 2 ["a"; "b"; "c"; "d"] zeroTape).
  - lia.
  - simpl. lia.
Defined.

Lemma Reset_candidates_rearranged_witness :
  exists it' w',
    Reset decodeEntry unmarshalStrings (plainIterator 1) meekWorld = Done (None, it') w'
    /\ singleton_db w'
       = Some (storeOf [entryA; entryB; entryC] ["1.1.1.1"; "2.2.2.2"; "3.3.3.3"])
    /\ engine w' = engine meekWorld
    /\ serverEntryIndex it' = 0%nat
    /\ Permutation
         (candidateList ["1.1.1.1"; "2.2.2.2"; "3.3.3.3"]
            (storeOf [entryA; entryB; entryC] ["1.1.1.1"; "2.2.2.2"; "3.3.3.3"]))
         (serverEntryIds it')
    /\ (forall k,
          In k ["1.1.1.1"; "2.2.2.2"; "3.3.3.3"]
          \/ In k (map fst (serverEntries
                              (storeOf [entryA; entryB; entryC]
                                 ["1.1.1.1"; "2.2.2.2"; "3.3.3.3"]))) ->
          In k (serverEntryIds it')).
Proof.
  apply (@Reset_candidates_rearranged decodeEntry unmarshalStrings (plainIterator 1)
           meekWorld
           (storeOf [entryA; entryB; entryC] ["1.1.1.1"; "2.2.2.2"; "3.3.3.3"])
           ["1.1.1.1"; "2.2.2.2"; "3.3.3.3"]).
  - reflexivity.
  - reflexivity.
  - reflexivity.
  - vm_compute. reflexivity.
  - simpl. lia.
Defined.

Lemma Reset_panics_without_head_witness :
  Reset decodeEntry unmarshalStrings (plainIterator 0) meekWorld
  = Panicked "invalid argument to Intn"
  /\ NewServerEntryIterator decodeEntry unmarshalStrings (mkConfig "" "" "" (-1)) meekWorld
     = Panicked "invalid argument to Intn"
  /\ exists notices',
       Reset decodeEntry unmarshalStrings (plainIterator 0) meekWorld
       <> Reset decodeEntry unmarshalStrings (plainIterator minInt) meekWorld
       /\ Reset decodeEntry unmarshalStrings (plainIterator minInt) meekWorld
          = Done (None,
                  set_ids (Close (plainIterator minInt))
                    ["1.1.1.1"; "2.2.2.2"; "3.3.3.3"] 0)
              (mkWorld
                 (Some (storeOf [entryA; entryB; entryC]
                          ["1.1.1.1"; "2.2.2.2"; "3.3.3.3"]))
                 healthyEngine notices' zeroTape).
Proof.
  destruct (@Reset_panics_without_head decodeEntry unmarshalStrings (plainIterator 0)
              meekWorld
              (storeOf [entryA; entryB; entryC] ["1.1.1.1"; "2.2.2.2"; "3.3.3.3"])
              ["1.1.1.1"; "2.2.2.2"; "3.3.3.3"]) as [HReset [HNew _]].
  - reflexivity.
  - reflexivity.
  - vm_compute. reflexivity.
  - vm_compute. discriminate.
  - destruct (@Reset_panics_without_head decodeEntry unmarshalStrings
                (plainIterator minInt) meekWorld
                (storeOf [entryA; entryB; entryC] ["1.1.1.1"; "2.2.2.2"; "3.3.3.3"])
                ["1.1.1.1"; "2.2.2.2"; "3.3.3.3"]) as [_ [_ HWrap]].
    + reflexivity.
    + reflexivity.
    + vm_compute. reflexivity.
    + vm_compute. discriminate.
    + destruct HWrap as [notices' HDone].
      * reflexivity.
      * reflexivity.
      * vm_compute. discriminate.
      * split; [apply HReset; [reflexivity | split; [reflexivity | discriminate]]|].
        split; [apply HNew; [reflexivity | split; [reflexivity | discriminate]]|].
        exists notices'. split; [|exact HDone].
        rewrite HDone, HReset; [discriminate | reflexivity |].
        split; [reflexivity | discriminate].
Defined.

Lemma Reset_in_rank_order_witness :
  exists notices',
    Reset decodeEntry unmarshalStrings (plainIterator 3) meekWorld
    = Done (None,
            set_ids (Close (plainIterator 3))
              (candidateList ["1.1.1.1"; "2.2.2.2"; "3.3.3.3"]
                 (storeOf [entryA; entryB; entryC] ["1.1.1.1"; "2.2.2.2"; "3.3.3.3"]))
              0)
        (mkWorld
           (Some (storeOf [entryA; entryB; entryC] ["1.1.1.1"; "2.2.2.2"; "3.3.3.3"]))
           (engine meekWorld) notices' (globalRand meekWorld)).
Proof.
  apply (@Reset_in_rank_order decodeEntry unmarshalStrings (plainIterator 3) meekWorld
           (storeOf [entryA; entryB; entryC] ["1.1.1.1"; "2.2.2.2"; "3.3.3.3"])
           ["1.1.1.1"; "2.2.2.2"; "3.3.3.3"]).
  - reflexivity.
  - reflexivity.
  - reflexivity.
  - vm_compute. reflexivity.
  - vm_compute. discriminate.
Defined.

Lemma Next_yield_witness :
  exists db serverEntryId data stored,
    singleton_db meekWorld = Some db
    /\ nth_error (serverEntryIds meekIterator) 1 = Some serverEntryId
    /\ bucket_Get (serverEntries db) serverEntryId = Some data
    /\ json_Unmarshal_ServerEntry decodeEntry data = Ok stored
    /\ matchesFilter "" "FRONTED-MEEK-OSSH" stored = true
    /\ entryB = MakeCompatibleServerEntry stored.
Proof.
  destruct (@Next_yield decodeEntry meekIterator
              (set_ids meekIterator (serverEntryIds meekIterator) 2)
              meekWorld meekWorld (Ok (Some entryB)))
    as [_ Hyield].
  - vm_compute. reflexivity.
  - destruct (Hyield entryB eq_refl eq_refl)
      as [_ [_ [db [serverEntryId [data [stored
            [Hdb [Hid [Hdata [Hdec [Hmatch [Hentry _]]]]]]]]]]]].
    exists db, serverEntryId, data, stored. repeat split; assumption.
Defined.

Lemma Next_after_end_or_error_witness :
  Next decodeEntry (mkIterator "" "" 1 [] 0 false false None) freshWorld
  = Done (Ok None, mkIterator "" "" 1 [] 0 false false None) freshWorld.
Proof.
  apply (@Next_after_end_or_error decodeEntry
           (mkIterator "" "" 1 ["9.9.9.9"] 0 false false None)
           (mkIterator "" "" 1 [] 0 false false None) freshWorld freshWorld
           (Err (ContextError "Next"
                   (fmtErrorf "Unexpected missing server entry: 9.9.9.9")))).
  vm_compute. reflexivity.
Defined.

Lemma pinned_iterator_cycle_witness :
  exists it w' serverEntry it1,
    NewServerEntryIterator decodeEntry unmarshalStrings pinnedConfig freshWorld
    = Done (Ok it) w'
    /\ DecodeServerEntry decodeEntry (TargetServerEntry pinnedConfig)
       = Ok (Some serverEntry)
    /\ Next decodeEntry it freshWorld
       = Done (Ok (Some (MakeCompatibleServerEntry serverEntry)), it1) freshWorld
    /\ Next decodeEntry it1 freshWorld = Done (Ok None, it1) freshWorld.
Proof.
  destruct (NewServerEntryIterator decodeEntry unmarshalStrings pinnedConfig freshWorld)
    as [[it|e] w'|] eqn:Hnew; try (vm_compute in Hnew; discriminate).
  destruct (@pinned_iterator_cycle decodeEntry unmarshalStrings pinnedConfig freshWorld
              w' it) as [serverEntry [it1 [Hdec [_ [_ [_ [Hfirst [Hsecond _]]]]]]]].
  - vm_compute. discriminate.
  - exact Hnew.
  - exists it, w', serverEntry, it1. repeat split; auto.
Defined.

Lemma Next_yields_only_region_witness : Region E1 = EgressRegion regionConfig.
Proof.
  eapply (@Next_yields_only_region decodeEntry unmarshalStrings regionConfig
            regionWorld _ _ _ regionWorld E1).
  - discriminate.
  - vm_compute. reflexivity.
  - apply reachable_start.
  - vm_compute. reflexivity.
Defined.

Lemma promoted_unknown_address_witness :
  exists w1 it w2 it',
    PromoteServerEntry marshalStrings unmarshalStrings "9.9.9.9" meekWorld = Done None w1
    /\ NewServerEntryIterator decodeEntry unmarshalStrings (mkConfig "" "" "" 4) w1
       = Done (Ok it) w2
    /\ Next decodeEntry it w2
       = Done (Err (ContextError "Next"
                      (fmtErrorf ("Unexpected missing server entry: " ++ "9.9.9.9"))),
               it') w2
    /\ serverEntryIds it' = [].
Proof.
  apply (@promoted_unknown_address decodeEntry marshalStrings unmarshalStrings "9.9.9.9"
           (mkConfig "" "" "" 4) meekWorld
           (storeOf [entryA; entryB; entryC] ["1.1.1.1"; "2.2.2.2"; "3.3.3.3"])
           ["1.1.1.1"; "2.2.2.2"; "3.3.3.3"]).
  - exact fixture_stringsRoundTrip.
  - reflexivity.
  - exact fixture_healthy.
  - vm_compute. reflexivity.
  - vm_compute. reflexivity.
  - reflexivity.
  - vm_compute. discriminate.
Defined.

Lemma scans_of_decodable_store_witness :
  CountServerEntries decodeEntry "" "FRONTED-MEEK-OSSH" meekWorld = Done 1 meekWorld
  /\ CountServerEntries decodeEntry "" "" meekWorld = Done 3 meekWorld
  /\ GetServerEntryIpAddresses decodeEntry meekWorld
     = Done (Ok ["1.1.1.1"; "2.2.2.2"; "3.3.3.3"]) meekWorld.
Proof.
  destruct (@scans_of_decodable_store decodeEntry meekWorld
              (storeOf [entryA; entryB; entryC] ["1.1.1.1"; "2.2.2.2"; "3.3.3.3"])
              [entryA; entryB; entryC]) as [Hcount [Hall Hlist]].
  - reflexivity.
  - reflexivity.
  - repeat (constructor; [vm_compute; reflexivity|]). constructor.
  - split; [exact (Hcount "" "FRONTED-MEEK-OSSH")|]. split; [exact Hall | exact Hlist].
Defined.

Lemma scans_of_corrupt_store_witness :
  CountServerEntries decodeEntry "" "" corruptWorld
  = Done 0
      (mkWorld (Some corruptDB) healthyEngine
         [NoticeAlertMsg
            ("CountServerEntries failed: "
             ++ error_string (ContextError "scanServerEntries"
                                (jsonError "invalid character")))]
         zeroTape)
  /\ GetServerEntryIpAddresses decodeEntry corruptWorld
     = Done (Err (ContextError "GetServerEntryIpAddresses"
                    (ContextError "scanServerEntries" (jsonError "invalid character"))))
         corruptWorld.
Proof.
  destruct (@scans_of_corrupt_store decodeEntry corruptWorld corruptDB
              [("1.1.1.1", recordOf entryA)] [entryA] "2.2.2.2" "garbage"
              [("3.3.3.3", recordOf entryC)] (jsonError "invalid character"))
    as [Hcount Hlist].
  - reflexivity.
  - reflexivity.
  - reflexivity.
  - constructor; [vm_compute; reflexivity | constructor].
  - vm_compute. reflexivity.
  - split; [exact (Hcount "" "") | exact Hlist].
Defined.

Lemma StoreServerEntry_then_scans_witness :
  exists w' ipAddresses,
    StoreServerEntry parseIP marshalEntry marshalStrings unmarshalStrings
      (entry "4.4.4.4" "US" ["SSH"]) false meekWorld = Done None w'
    /\ GetServerEntryIpAddresses decodeEntry w' = Done (Ok ipAddresses) w'
    /\ Permutation ["4.4.4.4"; "1.1.1.1"; "2.2.2.2"; "3.3.3.3"] ipAddresses
    /\ CountServerEntries decodeEntry "US" "" w' = Done 1 w'
    /\ CountServerEntries decodeEntry "" "FRONTED-MEEK-OSSH" w' = Done 1 w'.
Proof.
  destruct (@StoreServerEntry_then_scans parseIP marshalEntry decodeEntry marshalStrings
              unmarshalStrings (entry "4.4.4.4" "US" ["SSH"]) false meekWorld
              (storeOf [entryA; entryB; entryC] ["1.1.1.1"; "2.2.2.2"; "3.3.3.3"])
              (recordOf (entry "4.4.4.4" "US" ["SSH"]))
              ["1.1.1.1"; "2.2.2.2"; "3.3.3.3"] [entryA; entryB; entryC])
    as [w' [ipAddresses [Hstore [Hlist [Hperm Hcount]]]]].
  - exact fixture_stringsRoundTrip.
  - reflexivity.
  - exact fixture_healthy.
  - reflexivity.
  - reflexivity.
  - reflexivity.
  - vm_compute. reflexivity.
  - vm_compute. reflexivity.
  - repeat (constructor; [vm_compute; reflexivity|]). constructor.
  - exists w', ipAddresses. split; [exact Hstore|]. split; [exact Hlist|].
    split; [exact Hperm|]. split; [exact (Hcount "US" "") |
                                   exact (Hcount "" "FRONTED-MEEK-OSSH")].
Defined.

Lemma SetKeyValue_GetKeyValue_witness :
  exists db',
    SetKeyValue "lastConnected" "2015-06-01T00" freshWorld = Done None (set_db freshWorld db')
    /\ GetKeyValue "lastConnected" (set_db freshWorld db')
       = Done (Ok "2015-06-01T00") (set_db freshWorld db')
    /\ GetKeyValue "other" freshWorld = Done (Ok "") freshWorld.
Proof.
  destruct (@SetKeyValue_GetKeyValue "lastConnected" "2015-06-01T00" freshWorld emptyDB)
    as [db' [Hset [Hget [_ [Hmissing _]]]]].
  - reflexivity.
  - exact fixture_healthy.
  - exists db'. split; [exact Hset|]. split; [exact Hget|].
    apply Hmissing. reflexivity.
Defined.

Lemma SetUrlETag_GetUrlETag_witness :
  exists db',
    SetUrlETag "https://example.org/list" "abc" freshWorld = Done None (set_db freshWorld db')
    /\ GetUrlETag "https://example.org/list" (set_db freshWorld db')
       = Done (Ok "abc") (set_db freshWorld db')
    /\ GetUrlETag "https://example.org/list/" freshWorld = Done (Ok "") freshWorld.
Proof.
  destruct (@SetUrlETag_GetUrlETag "https://example.org/list" "abc" freshWorld emptyDB)
    as [db' [Hset [Hget [_ [Hmissing _]]]]].
  - reflexivity.
  - exact fixture_healthy.
  - exists db'. split; [exact Hset|]. split; [exact Hget|].
    apply Hmissing. reflexivity.
Defined.

Lemma SetSplitTunnelRoutes_round_trip_witness :
  exists db',
    SetSplitTunnelRoutes "US" "etag-1" "routes" freshWorld = Done None (set_db freshWorld db')
    /\ GetSplitTunnelRoutesETag "US" (set_db freshWorld db')
       = Done (Ok "etag-1") (set_db freshWorld db')
    /\ GetSplitTunnelRoutesData "US" (set_db freshWorld db')
       = Done (Ok (Some "routes")) (set_db freshWorld db')
    /\ GetSplitTunnelRoutesData "CA" freshWorld = Done (Ok None) freshWorld.
Proof.
  destruct (@SetSplitTunnelRoutes_round_trip "US" "etag-1" "routes" freshWorld emptyDB)
    as [db' [Hset [Hetag [Hdata [_ Hmissing]]]]].
  - reflexivity.
  - exact fixture_healthy.
  - exists db'. split; [exact Hset|]. split; [exact Hetag|]. split; [exact Hdata|].
    apply (Hmissing "CA"); reflexivity.
Defined.

Lemma SetSplitTunnelRoutes_drops_etag_error_witness :
  exists w' oldETag,
    SetSplitTunnelRoutes "US" "etag-1" "routes" etagFaultWorld = Done None w'
    /\ GetSplitTunnelRoutesData "US" w' = Done (Ok (Some "routes")) w'
    /\ GetSplitTunnelRoutesETag "US" etagFaultWorld = Done (Ok oldETag) etagFaultWorld
    /\ GetSplitTunnelRoutesETag "US" w' = Done (Ok oldETag) w'.
Proof.
  apply (@SetSplitTunnelRoutes_drops_etag_error "US" "etag-1" "routes" etagFaultWorld
           emptyDB (boltError "key too large")); reflexivity.
Defined.

Lemma failed_set_changes_nothing_witness :
  exists err,
    SetKeyValue "lastConnected" "2015-06-01T00" commitFaultWorld
    = Done (Some err) commitFaultWorld
    /\ exists e, err = ContextError "SetKeyValue" e.
Proof.
  eexists. split; [vm_compute; reflexivity|].
  eapply (proj1 (@failed_set_changes_nothing commitFaultWorld commitFaultWorld _)
            "lastConnected" "2015-06-01T00").
  vm_compute. reflexivity.
Defined.

Lemma uninitialized_store_panics_witness :
  StoreServerEntry parseIP marshalEntry marshalStrings unmarshalStrings entryA true
    uninitializedWorld = notInitialized
  /\ CountServerEntries decodeEntry "" "" uninitializedWorld = notInitialized
  /\ GetKeyValue "lastConnected" uninitializedWorld = notInitialized.
Proof.
  destruct (@uninitialized_store_panics parseIP marshalEntry decodeEntry marshalStrings
              unmarshalStrings uninitializedWorld eq_refl)
    as [Hstore [_ [Hcount [_ [_ [_ [Hget _]]]]]]].
  split; [exact (Hstore entryA true)|]. split; [exact (Hcount "" "") | exact (Hget _)].
Defined.
